(** * A settings store with text persistence (module-settings)

    Shallow embedding of the two variants of the settings module and
    proofs about them:

    - [Bounded]: the variant of settings.c, with fixed-capacity inline
      buffers ([char key[CONFIG_KEY_LENGTH]], lines read with [fgets] into
      an array of [CONFIG_LINE_LENGTH] bytes);
    - [Dynamic]: the variant with heap-grown key and value buffers
      ([resize] over [memory_realloc], lines read with [get_line]).

    Conventions of the embedding.

    - A [char] is an [ascii]; a [size_t] is a [Z] reduced modulo [2^64]
      by [wrap] after every addition or subtraction the source performs.
    - A character array the code indexes is a [buffer]: a list of cells,
      a cell being [Some c], or [None] for a byte that was never written.
      Reading or writing outside the array, and reading a byte that was
      never written, is undefined behaviour: the result is [Undefined].
    - A [const char *] argument is a [cstring]: the characters before the
      terminator; [None] stands for the null pointer.  The arrays of a
      bounded pair are represented by the strings they hold.
    - The doubly linked list of pairs is the list of its pairs from
      [first] to [last] following [next]; a pointer to a pair is its
      position in the list.
    - A function returns, with its result, what its pointer arguments
      point to after the call.  The allocator is an oracle: the list of the
      outcomes of the calls still to come.  The file system maps a path to
      the contents of the file.
    - Loops that are not structural take fuel; [OutOfFuel] is shown never
      to be the outcome of [trim] and [settings_load]. *)

From Stdlib Require Import String.
From Stdlib Require Import ZArith List Ascii Bool Lia.
Import ListNotations.
Open Scope Z_scope.

(** ** Outcomes of running C code *)

Inductive outcome (A : Type) : Type :=
| Ok (a : A)
| Undefined
| OutOfFuel.
Arguments Ok {A} a.
Arguments Undefined {A}.
Arguments OutOfFuel {A}.

Definition bind {A B : Type} (m : outcome A) (k : A -> outcome B) : outcome B :=
  match m with
  | Ok a => k a
  | Undefined => Undefined
  | OutOfFuel => OutOfFuel
  end.

Notation "x <- m ;; k" := (bind m (fun x => k))
  (at level 61, m at next level, right associativity).
Notation "' pat <- m ;; k" := (bind m (fun x => match x with pat => k end))
  (at level 61, pat pattern, m at next level, right associativity).

(** ** Characters, strings and arrays *)

Module C.

Abbreviation cstring := (list ascii) (only parsing).
Abbreviation buffer := (list (option ascii)) (only parsing).

Definition NUL : ascii := "000"%char.
Definition newline : ascii := "010"%char.
Definition equals : ascii := "="%char.
Definition sp : ascii := " "%char.

Definition wrap (z : Z) : Z := z mod 2 ^ 64.

(** [isspace] in the C locale: space, \t, \n, \v, \f, \r. *)
Definition isspace (c : ascii) : bool :=
  let n := Z.of_nat (nat_of_ascii c) in
  (n =? 32) || ((9 <=? n) && (n <=? 13)).

Definition isdigit (c : ascii) : bool :=
  let n := Z.of_nat (nat_of_ascii c) in
  (48 <=? n) && (n <=? 57).

Definition str (s : string) : cstring := list_ascii_of_string s.

Fixpoint cstring_eqb (a b : cstring) : bool :=
  match a, b with
  | [], [] => true
  | x :: a', y :: b' => Ascii.eqb x y && cstring_eqb a' b'
  | _, _ => false
  end.

(** The characters of [s] before its first NUL: what a C string function
    sees of an array holding [s]. *)
Fixpoint until_nul (s : list ascii) : cstring :=
  match s with
  | [] => []
  | c :: s' => if Ascii.eqb c NUL then [] else c :: until_nul s'
  end.

Definition cells (s : list ascii) : buffer := map Some s.

(** An array of [n] bytes that were never written. *)
Definition uninit (n : nat) : buffer := repeat None n.

(** [b[i]] as an rvalue. *)
Definition load (b : buffer) (i : Z) : outcome ascii :=
  if (i <? 0) || (Z.of_nat (length b) <=? i) then Undefined
  else match nth_error b (Z.to_nat i) with
       | Some (Some c) => Ok c
       | _ => Undefined
       end.

Fixpoint update {A : Type} (l : list A) (n : nat) (x : A) : list A :=
  match l, n with
  | [], _ => []
  | _ :: l', O => x :: l'
  | y :: l', S n' => y :: update l' n' x
  end.

(** [b[i] = c]. *)
Definition store (b : buffer) (i : Z) (c : ascii) : outcome buffer :=
  if (i <? 0) || (Z.of_nat (length b) <=? i) then Undefined
  else Ok (update b (Z.to_nat i) (Some c)).

(** The C string held by an array: its characters up to the terminator. *)
Fixpoint cstr (b : buffer) : outcome cstring :=
  match b with
  | [] => Undefined
  | None :: _ => Undefined
  | Some c :: b' =>
      if Ascii.eqb c NUL then Ok [] else s <- cstr b' ;; Ok (c :: s)
  end.

Definition strlen (b : buffer) : outcome Z :=
  s <- cstr b ;; Ok (wrap (Z.of_nat (length s))).

(** [strchr(s, c) - s], when [strchr] does not return NULL. *)
Fixpoint strchr (s : cstring) (c : ascii) : option nat :=
  match s with
  | [] => None
  | x :: s' => if Ascii.eqb x c then Some O
               else match strchr s' c with
                    | Some i => Some (S i)
                    | None => None
                    end
  end.

(** [strncpy(dst, src, n)]: exactly [n] bytes are written, the characters
    of [src] and then NULs. *)
Definition strncpy (dst : buffer) (src : cstring) (n : nat) : outcome buffer :=
  if (length dst <? n)%nat then Undefined
  else Ok (cells (firstn n (src ++ repeat NUL n)) ++ skipn n dst).

(** [strncmp(a, b, n) == 0] on two C strings. *)
Definition strncmp_eq (a b : cstring) (n : nat) : bool :=
  cstring_eqb (firstn n a) (firstn n b).

(** [strcmp(a, b) == 0]. *)
Definition strcmp_eq (a b : cstring) : bool := cstring_eqb a b.

(** *** [printf("%d")] and [atoi] *)

Definition INT_MIN : Z := - 2 ^ 31.
Definition INT_MAX : Z := 2 ^ 31 - 1.

(** Conversion of a mathematical integer to [int]. *)
Definition to_int (z : Z) : Z := (z + 2 ^ 31) mod 2 ^ 32 - 2 ^ 31.

Definition digit_char (d : Z) : ascii := ascii_of_nat (Z.to_nat (48 + d)).
Definition digit_value (c : ascii) : Z := Z.of_nat (nat_of_ascii c) - 48.

Fixpoint digits (fuel : nat) (n : Z) (acc : cstring) : cstring :=
  match fuel with
  | O => acc
  | S fuel' =>
      let acc' := digit_char (n mod 10) :: acc in
      if n <? 10 then acc' else digits fuel' (n / 10) acc'
  end.

(** The text [printf("%d", v)] produces. *)
Definition format_d (v : Z) : cstring :=
  if v <? 0 then "-"%char :: digits 20 (- v) []
  else digits 20 v [].

(** [snprintf(buf, size, "%d", v)]: at most [size - 1] characters are kept. *)
Definition snprintf_d (size : nat) (v : Z) : cstring :=
  firstn (size - 1) (format_d v).

Fixpoint skip_spaces (s : cstring) : cstring :=
  match s with
  | c :: s' => if isspace c then skip_spaces s' else s
  | [] => []
  end.

Fixpoint parse_digits (s : cstring) (acc : Z) : Z :=
  match s with
  | c :: s' => if isdigit c then parse_digits s' (acc * 10 + digit_value c) else acc
  | [] => acc
  end.

(** [atoi]: optional white space, an optional sign, then decimal digits;
    anything else ends the number. *)
Definition atoi (s : cstring) : Z :=
  match skip_spaces s with
  | c :: s' =>
      if Ascii.eqb c "-"%char then to_int (- parse_digits s' 0)
      else if Ascii.eqb c "+"%char then to_int (parse_digits s' 0)
      else to_int (parse_digits (c :: s') 0)
  | [] => 0
  end.

(** *** [fgets] *)

(** The characters one call of [fgets] with room for [n] of them takes
    from the stream, and what is left of the stream. *)
Fixpoint fgets_chars (n : nat) (f : list ascii) : list ascii * list ascii :=
  match n, f with
  | O, _ => ([], f)
  | _, [] => ([], [])
  | S n', c :: f' =>
      if Ascii.eqb c newline then ([c], f')
      else let (l, r) := fgets_chars n' f' in (c :: l, r)
  end.

(** [fgets(buf, size, f)]: [None] is the NULL returned at end of file. *)
Definition fgets (size : nat) (f : list ascii) : option (list ascii * list ascii) :=
  match fgets_chars (size - 1) f with
  | ([], _) => None
  | (l, r) => Some (l, r)
  end.

End C.

Import C.

(** ** [trim], the same in both variants *)

(** [while (isspace(str[begin])) ++begin;] *)
Fixpoint trim_leading (fuel : nat) (s : buffer) (begin : Z) : outcome Z :=
  match fuel with
  | O => OutOfFuel
  | S fuel' =>
      c <- load s begin ;;
      if isspace c then trim_leading fuel' s (wrap (begin + 1)) else Ok begin
  end.

(** [while ((end >= begin) && isspace(str[end])) --end;] *)
Fixpoint trim_trailing (fuel : nat) (s : buffer) (begin end_ : Z) : outcome Z :=
  match fuel with
  | O => OutOfFuel
  | S fuel' =>
      if end_ >=? begin then
        c <- load s end_ ;;
        if isspace c then trim_trailing fuel' s begin (wrap (end_ - 1)) else Ok end_
      else Ok end_
  end.

(** [for (i = begin; i <= end; ++i) str[i - begin] = str[i];] *)
Fixpoint trim_shift (fuel : nat) (s : buffer) (begin end_ i : Z) : outcome (buffer * Z) :=
  match fuel with
  | O => OutOfFuel
  | S fuel' =>
      if i <=? end_ then
        c <- load s i ;;
        s' <- store s (wrap (i - begin)) c ;;
        trim_shift fuel' s' begin end_ (wrap (i + 1))
      else Ok (s, i)
  end.

(** Every loop of [trim] reads a cell of the array at each turn, at an
    index it has not read before: one more than the size of the array is
    fuel enough. *)
Definition trim (str : option buffer) : outcome (option buffer) :=
  match str with
  | None => Ok None
  | Some s =>
      let fuel := S (length s) in
      len <- strlen s ;;
      let end_ := wrap (len - 1) in
      begin <- trim_leading fuel s 0 ;;
      end_ <- trim_trailing fuel s begin end_ ;;
      '(s', i) <- trim_shift fuel s begin end_ begin ;;
      s'' <- store s' (wrap (i - begin)) NUL ;;
      Ok (Some s'')
  end.

(** What section 4.1 of the specification asks of [trim]: the argument
    with its leading and trailing white space removed. *)
Fixpoint drop_spaces (s : cstring) : cstring :=
  match s with
  | c :: s' => if isspace c then drop_spaces s' else s
  | [] => []
  end.

Definition trim_spec (s : cstring) : cstring :=
  rev (drop_spaces (rev (drop_spaces s))).

(** [split_on_first_equals] as section 4.1 of the specification words
    it: the part before the first '=' and the part after it, each with its
    leading and trailing white space removed (the newline that ends the
    line is white space); [None] for a line without '='. *)
Definition split_on_first_equals (line : cstring) : option (cstring * cstring) :=
  match strchr line equals with
  | None => None
  | Some p => Some (trim_spec (firstn p line), trim_spec (skipn (S p) line))
  end.

(** ** Predicates used in the statements *)

(** No NUL among the characters: the list is a C string. *)
Definition is_cstring (s : list ascii) : bool :=
  forallb (fun c => negb (Ascii.eqb c NUL)) s.

Definition all_spaces (s : list ascii) : bool := forallb isspace s.

(** Neither the first nor the last character is white space. *)
Definition trimmed (s : cstring) : bool :=
  match s with
  | [] => true
  | c :: _ => negb (isspace c) && negb (isspace (last s c))
  end.

Definition has_char (c : ascii) (s : list ascii) : bool :=
  existsb (Ascii.eqb c) s.

(** The value of the most recent call for [k] in a log of calls, the
    most recent first. *)
Definition last_set (log : list (cstring * cstring)) (k : cstring) : option cstring :=
  option_map snd (find (fun e => cstring_eqb (fst e) k) log).

(** ** The allocator and the file system *)

(** The outcomes of the allocation calls still to come ([true]: the call
    returns memory); once the list is used up every call succeeds. *)
Abbreviation Heap := (list bool) (only parsing).

Definition memory_malloc (h : Heap) : bool * Heap :=
  match h with
  | [] => (true, [])
  | ok :: h' => (ok, h')
  end.

(** An allocator that grants every call. *)
Definition generous (h : Heap) : bool := forallb (fun ok : bool => ok) h.

(** What each path holds, and whether [fopen(path, "wt")] succeeds. *)
Record FileSystem := {
  contents : cstring -> option (list ascii);
  writable : cstring -> bool
}.

(** [fopen(path, "rt")]: the stream, or [None]. *)
Definition fopen_rt (fs : FileSystem) (path : cstring) : option (list ascii) :=
  contents fs path.

(** The file system once a stream opened with "wt" on [path] is closed
    with [data] written to it. *)
Definition fclose_wt (fs : FileSystem) (path : cstring) (data : list ascii) : FileSystem :=
  {| contents := fun p => if cstring_eqb p path then Some data else contents fs p;
     writable := writable fs |}.

(** A file system with one file, where every path can be written. *)
Definition single_file (path : cstring) (data : list ascii) : FileSystem :=
  {| contents := fun p => if cstring_eqb p path then Some data else None;
     writable := fun _ => true |}.

(** [fprintf(f, "%s = %s\n", key, value)] *)
Definition fprintf_pair (f : list ascii) (k v : cstring) : list ascii :=
  f ++ k ++ str " = " ++ v ++ [newline].

(** ** The variant with fixed-capacity buffers (settings.c) *)

Module Bounded.

Definition CONFIG_KEY_LENGTH : nat := 128.
Definition CONFIG_VALUE_LENGTH : nat := 128.
Definition CONFIG_LINE_LENGTH : nat := 1024.

(** [struct Pair]: each array is represented by the C string it holds. *)
Record Pair := { key : cstring; value : cstring }.

(** [struct Settings]: the pairs from [first] to [last]. *)
Abbreviation Settings := (list Pair) (only parsing).

(** [strncpy(dst, src, N); dst[N - 1] = 0] leaves in [dst] the first
    [N - 1] characters of [src]. *)
Definition copy_pair (src_key src_value : cstring) : Pair :=
  {| key := firstn (CONFIG_KEY_LENGTH - 1) src_key;
     value := firstn (CONFIG_VALUE_LENGTH - 1) src_value |}.

Definition create_pair (k v : option cstring) (h : Heap) : option Pair * Heap :=
  match k, v with
  | Some k', Some v' =>
      let (ok, h') := memory_malloc h in
      if ok then (Some (copy_pair k' v'), h') else (None, h')
  | _, _ => (None, h)
  end.

Definition keys_match (key1 key2 : option cstring) : bool :=
  match key1, key2 with
  | Some k1, Some k2 => strncmp_eq k1 k2 CONFIG_KEY_LENGTH
  | _, _ => false
  end.

(** The first pr whose key matches, with its position in the list (the
    pointer [find_pair] returns). *)
Fixpoint find_from (pairs : list Pair) (k : option cstring) (pos : nat)
    : option (nat * Pair) :=
  match pairs with
  | [] => None
  | p :: rest =>
      if keys_match (Some (key p)) k then Some (pos, p)
      else find_from rest k (S pos)
  end.

Definition find_pair (settings : option Settings) (k : option cstring)
    : option (nat * Pair) :=
  match settings with
  | Some s => find_from s k O
  | None => None
  end.

Definition settings_create (h : Heap) : option Settings * Heap :=
  let (ok, h') := memory_malloc h in
  if ok then (Some [], h') else (None, h').

(** The length check of [settings_set_string]. *)
Definition too_long (k v : cstring) : bool :=
  (CONFIG_KEY_LENGTH <=? length k)%nat || (CONFIG_VALUE_LENGTH <=? length v)%nat.

(** The result, the store after the call and the allocator after it. *)
Definition settings_set_string (settings : option Settings) (k v : option cstring)
    (h : Heap) : Z * option Settings * Heap :=
  match settings, k, v with
  | Some s, Some k', Some v' =>
      if too_long k' v' then (0, settings, h)
      else
        match find_pair settings k with
        | Some (i, _) => (1, Some (update s i (copy_pair k' v')), h)
        | None =>
            match create_pair k v h with
            | (Some p, h') => (1, Some (s ++ [p]), h')
            | (None, h') => (0, settings, h')
            end
        end
  | _, _, _ => (0, settings, h)
  end.

Definition settings_get_string (settings : option Settings) (k dflt : option cstring)
    : option cstring :=
  match find_pair settings k with
  | Some (_, pr) => Some (value pr)
  | None => dflt
  end.

Definition settings_get_int (settings : option Settings) (k : option cstring) (dflt : Z) : Z :=
  match find_pair settings k with
  | Some (_, pr) => atoi (value pr)
  | None => dflt
  end.

(** [atof] is a parameter: no property below depends on what it computes. *)
Definition settings_get_float {F : Type} (atof : cstring -> F)
    (settings : option Settings) (k : option cstring) (dflt : F) : F :=
  match find_pair settings k with
  | Some (_, pr) => atof (value pr)
  | None => dflt
  end.

Definition settings_set_int (settings : option Settings) (k : option cstring) (v : Z)
    (h : Heap) : Z * option Settings * Heap :=
  let value_str := snprintf_d CONFIG_VALUE_LENGTH v in
  settings_set_string settings k (Some value_str) h.

Definition settings_remove (settings : option Settings) (k : option cstring)
    : Z * option Settings :=
  match settings, find_pair settings k with
  | Some s, Some (i, _) => (1, Some (firstn i s ++ skipn (S i) s))
  | _, _ => (0, settings)
  end.

(** The body of the loop of [settings_load], for one line read. *)
Definition load_line (settings : option Settings) (line : cstring) (h : Heap)
    : outcome (option Settings * Heap) :=
  match strchr line equals with
  | None => Ok (settings, h)
  | Some p =>
      let key_len := p in
      let val_len := (length line - p - 1)%nat in
      k <- strncpy (uninit CONFIG_LINE_LENGTH) line key_len ;;
      v <- strncpy (uninit CONFIG_LINE_LENGTH) (skipn (S p) line) val_len ;;
      k <- store k (wrap (Z.of_nat key_len - 1)) NUL ;;
      v <- store v (wrap (Z.of_nat val_len - 1)) NUL ;;
      k <- trim (Some k) ;;
      v <- trim (Some v) ;;
      match k, v with
      | Some k, Some v =>
          ks <- cstr k ;;
          vs <- cstr v ;;
          let '(_, settings', h') := settings_set_string settings (Some ks) (Some vs) h in
          Ok (settings', h')
      | _, _ => Undefined
      end
  end.

(** [while (fgets(line, CONFIG_LINE_LENGTH, f) != NULL) ...]: every turn
    takes at least one character from the stream. *)
Fixpoint load_loop (fuel : nat) (settings : option Settings) (f : list ascii) (h : Heap)
    : outcome (option Settings * Heap) :=
  match fuel with
  | O => OutOfFuel
  | S fuel' =>
      match fgets CONFIG_LINE_LENGTH f with
      | None => Ok (settings, h)
      | Some (chunk, f') =>
          '(settings', h') <- load_line settings (until_nul chunk) h ;;
          load_loop fuel' settings' f' h'
      end
  end.

Definition settings_load (settings : option Settings) (path : option cstring)
    (fs : FileSystem) (h : Heap) : outcome (Z * option Settings * Heap) :=
  match settings, path with
  | Some _, Some p =>
      match fopen_rt fs p with
      | None => Ok (0, settings, h)
      | Some f =>
          '(settings', h') <- load_loop (S (length f)) settings f h ;;
          Ok (1, settings', h')
      end
  | _, _ => Ok (0, settings, h)
  end.

(** The result, the store after the call and the file system after it. *)
Definition settings_save (settings : option Settings) (path : option cstring)
    (fs : FileSystem) : Z * option Settings * FileSystem :=
  match settings, path with
  | Some s, Some p =>
      if writable fs p then
        let data := fold_left (fun f pr => fprintf_pair f (key pr) (value pr)) s [] in
        (1, settings, fclose_wt fs p data)
      else (0, settings, fs)
  | _, _ => (0, settings, fs)
  end.

(** *** Notions used to state the properties of this variant *)

(** A pair as [settings_set_string] stores it: both strings are shorter
    than their arrays. *)
Definition valid_pair (p : Pair) : bool :=
  (length (key p) <? CONFIG_KEY_LENGTH)%nat && (length (value p) <? CONFIG_VALUE_LENGTH)%nat.

Definition keys (s : Settings) : list cstring := map key s.

Definition valid_store (s : Settings) : Prop :=
  forallb valid_pair s = true /\ NoDup (keys s).

(** A sequence of calls of [settings_set_string] on one store; the log
    holds the key and value of the calls that returned 1, the most recent
    first. *)
Fixpoint set_all (calls : list (option cstring * option cstring))
    (settings : option Settings) (h : Heap) (log : list (cstring * cstring))
    : option Settings * Heap * list (cstring * cstring) :=
  match calls with
  | [] => (settings, h, log)
  | (k, v) :: calls' =>
      let '(r, settings', h') := settings_set_string settings k v h in
      let log' := match k, v with
                  | Some k', Some v' => if r =? 1 then (k', v') :: log else log
                  | _, _ => log
                  end in
      set_all calls' settings' h' log'
  end.

(** The value of the first pair whose key is [k], byte for byte. *)
Definition lookup (s : Settings) (k : cstring) : option cstring :=
  option_map value (find (fun p => cstring_eqb (key p) k) s).

(** The line [settings_save] writes for a pair. *)
Definition line_of (p : Pair) : list ascii :=
  key p ++ str " = " ++ value p ++ [newline].

(** Keys and values that survive a save and a load: C strings without
    newline, the key without '=' and not empty, neither starting nor
    ending with white space, both short enough to be stored. *)
Definition portable (p : Pair) : bool :=
  is_cstring (key p) && is_cstring (value p)
  && negb (has_char equals (key p))
  && negb (has_char newline (key p)) && negb (has_char newline (value p))
  && trimmed (key p) && trimmed (value p)
  && negb (length (key p) =? 0)%nat
  && valid_pair p.

End Bounded.

(** ** The variant with heap-grown buffers *)

Module Dynamic.

(** [BUFSIZ] of <stdio.h>. *)
Definition BUFSIZ : nat := Z.to_nat 8192.

(** The spelling <limits.h> gives [INT_MAX] where [int] has 32 bits; the
    hexadecimal spelling 0x7fffffff has as many characters. *)
Definition INT_MAX_spelling : cstring := str "2147483647".

(** [NUM_DIGITS(x)] is [sizeof(STRINGIFY(x)) - 1]. *)
Definition NUM_DIGITS (spelling : cstring) : nat := length spelling.
Definition INT_DIGITS : nat := NUM_DIGITS INT_MAX_spelling + 1.

(** [struct Pair]: [key] and [value] point to heap arrays, or are NULL. *)
Record Pair := { key : option buffer; value : option buffer }.

Abbreviation Settings := (list Pair) (only parsing).

(** [memory_realloc(array, size)]: on success the first bytes of the old
    array are kept and the new ones were never written; on failure NULL is
    returned (and the old array stays as it was). *)
Definition memory_realloc (array : option buffer) (size : nat) (h : Heap)
    : option buffer * Heap :=
  let (ok, h') := memory_malloc h in
  if ok then
    match array with
    | Some a => (Some (firstn size a ++ uninit (size - length a)), h')
    | None => (Some (uninit size), h')
    end
  else (None, h').

Definition resize (array : option buffer) (size : Z) (h : Heap)
    : outcome (option buffer * Heap) :=
  let size := wrap (size + 1) in
  grow <- match array with
          | None => Ok true
          | Some a => len <- strlen a ;; Ok (len <=? size)
          end ;;
  if grow : bool then
    match memory_realloc array (Z.to_nat size) h with
    | (Some a, h') => a' <- store a (wrap (size - 1)) NUL ;; Ok (Some a', h')
    | (None, h') => Ok (None, h')
    end
  else Ok (array, h).

(** The result and the two destination arrays after the call. *)
Definition copy_pair (dst_key dst_val : option buffer) (src_key src_val : cstring)
    : outcome (Z * option buffer * option buffer) :=
  match dst_key, dst_val with
  | Some dk, Some dv =>
      let key_len := wrap (Z.of_nat (length src_key) + 1) in
      let val_len := wrap (Z.of_nat (length src_val) + 1) in
      dk <- strncpy dk src_key (Z.to_nat key_len) ;;
      dv <- strncpy dv src_val (Z.to_nat val_len) ;;
      dk <- store dk (wrap (key_len - 1)) NUL ;;
      dv <- store dv (wrap (val_len - 1)) NUL ;;
      Ok (1, Some dk, Some dv)
  | _, _ => Ok (0, dst_key, dst_val)
  end.

Definition create_pair (k v : option cstring) (h : Heap)
    : outcome (option Pair * Heap) :=
  match k, v with
  | Some k', Some v' =>
      let (ok, h) := memory_malloc h in
      if ok then
        '(pk, h) <- resize None (Z.of_nat (length k')) h ;;
        '(pv, h) <- resize None (Z.of_nat (length v')) h ;;
        '(r, pk, pv) <- copy_pair pk pv k' v' ;;
        if r =? 0 then Ok (None, h)
        else Ok (Some {| key := pk; value := pv |}, h)
      else Ok (None, h)
  | _, _ => Ok (None, h)
  end.

Definition keys_match (key1 : option buffer) (key2 : option cstring) : outcome bool :=
  match key1, key2 with
  | Some b1, Some k2 => k1 <- cstr b1 ;; Ok (strcmp_eq k1 k2)
  | _, _ => Ok false
  end.

Fixpoint find_from (pairs : list Pair) (k : option cstring) (pos : nat)
    : outcome (option (nat * Pair)) :=
  match pairs with
  | [] => Ok None
  | p :: rest =>
      m <- keys_match (key p) k ;;
      if m : bool then Ok (Some (pos, p)) else find_from rest k (S pos)
  end.

Definition find_pair (settings : option Settings) (k : option cstring)
    : outcome (option (nat * Pair)) :=
  match settings with
  | Some s => find_from s k O
  | None => Ok None
  end.

Definition settings_create (h : Heap) : option Settings * Heap :=
  let (ok, h') := memory_malloc h in
  if ok then (Some [], h') else (None, h').

Definition settings_set_string (settings : option Settings) (k v : option cstring)
    (h : Heap) : outcome (Z * option Settings * Heap) :=
  match settings, k, v with
  | Some s, Some k', Some v' =>
      found <- find_pair settings k ;;
      match found with
      | Some (i, pr) =>
          '(pk, h) <- resize (key pr) (Z.of_nat (length k')) h ;;
          '(pv, h) <- resize (value pr) (Z.of_nat (length v')) h ;;
          '(result, pk, pv) <- copy_pair pk pv k' v' ;;
          Ok (result, Some (update s i {| key := pk; value := pv |}), h)
      | None =>
          '(created, h) <- create_pair k v h ;;
          match created with
          | Some pr => Ok (1, Some (s ++ [pr]), h)
          | None => Ok (0, settings, h)
          end
      end
  | _, _, _ => Ok (0, settings, h)
  end.

(** [pair->value] as the caller reads it. *)
Definition read_string (p : option buffer) : outcome (option cstring) :=
  match p with
  | Some b => s <- cstr b ;; Ok (Some s)
  | None => Ok None
  end.

Definition settings_get_string (settings : option Settings) (k dflt : option cstring)
    : outcome (option cstring) :=
  found <- find_pair settings k ;;
  match found with
  | Some (_, pr) => read_string (value pr)
  | None => Ok dflt
  end.

Definition settings_get_int (settings : option Settings) (k : option cstring) (dflt : Z)
    : outcome Z :=
  found <- find_pair settings k ;;
  match found with
  | Some (_, pr) =>
      match value pr with
      | Some b => s <- cstr b ;; Ok (atoi s)
      | None => Undefined
      end
  | None => Ok dflt
  end.

Definition settings_get_float {F : Type} (atof : cstring -> F)
    (settings : option Settings) (k : option cstring) (dflt : F) : outcome F :=
  found <- find_pair settings k ;;
  match found with
  | Some (_, pr) =>
      match value pr with
      | Some b => s <- cstr b ;; Ok (atof s)
      | None => Undefined
      end
  | None => Ok dflt
  end.

Definition settings_set_int (settings : option Settings) (k : option cstring) (v : Z)
    (h : Heap) : outcome (Z * option Settings * Heap) :=
  let value_str := snprintf_d INT_DIGITS v in
  settings_set_string settings k (Some value_str) h.

Definition settings_remove (settings : option Settings) (k : option cstring)
    : outcome (Z * option Settings) :=
  found <- find_pair settings k ;;
  match settings, found with
  | Some s, Some (i, _) => Ok (1, Some (firstn i s ++ skipn (S i) s))
  | _, _ => Ok (0, settings)
  end.

(** The loop of [get_line]: [buf] is the string read so far, [size] the
    size of its array.  A failed [memory_realloc] makes the next [fgets]
    write through a null pointer. *)
Fixpoint get_line_loop (fuel : nat) (size : nat) (buf : cstring) (f : list ascii)
    (h : Heap) : outcome (cstring * list ascii * Heap) :=
  match fuel with
  | O => OutOfFuel
  | S fuel' =>
      match strchr buf newline with
      | Some _ => Ok (buf, f, h)
      | None =>
          let size := (size + BUFSIZ)%nat in
          let (ok, h) := memory_malloc h in
          if ok then
            match fgets (size - length buf) f with
            | None => Ok (buf, f, h)
            | Some (chunk, f') => get_line_loop fuel' size (buf ++ until_nul chunk) f' h
            end
          else Undefined
      end
  end.

(** [get_line(f)]: the line, or [None] for NULL, with the rest of the stream. *)
Definition get_line (f : list ascii) (h : Heap)
    : outcome (option cstring * list ascii * Heap) :=
  let (ok, h) := memory_malloc h in
  if ok then
    match fgets BUFSIZ f with
    | None => Ok (None, f, h)
    | Some (chunk, f') =>
        '(buf, f'', h) <- get_line_loop (S (length f')) BUFSIZ (until_nul chunk) f' h ;;
        Ok (Some buf, f'', h)
    end
  else Ok (None, f, h).

(** The body of the loop of [settings_load], for one line read; [key] and
    [val] are arrays of [key_len] and [val_len] bytes. *)
Definition load_line (settings : option Settings) (line : cstring) (h : Heap)
    : outcome (option Settings * Heap) :=
  match strchr line equals with
  | None => Ok (settings, h)
  | Some p =>
      let key_len := p in
      let val_len := (length line - p - 1)%nat in
      k <- strncpy (uninit key_len) line key_len ;;
      v <- strncpy (uninit val_len) (skipn (S p) line) val_len ;;
      k <- store k (wrap (Z.of_nat key_len - 1)) NUL ;;
      v <- store v (wrap (Z.of_nat val_len - 1)) NUL ;;
      k <- trim (Some k) ;;
      v <- trim (Some v) ;;
      match k, v with
      | Some k, Some v =>
          ks <- cstr k ;;
          vs <- cstr v ;;
          '(_, settings', h') <- settings_set_string settings (Some ks) (Some vs) h ;;
          Ok (settings', h')
      | _, _ => Undefined
      end
  end.

(** [while ((line = get_line(f)) != NULL) ...] *)
Fixpoint load_loop (fuel : nat) (settings : option Settings) (f : list ascii) (h : Heap)
    : outcome (option Settings * Heap) :=
  match fuel with
  | O => OutOfFuel
  | S fuel' =>
      '(line, f', h) <- get_line f h ;;
      match line with
      | None => Ok (settings, h)
      | Some l =>
          '(settings', h') <- load_line settings l h ;;
          load_loop fuel' settings' f' h'
      end
  end.

Definition settings_load (settings : option Settings) (path : option cstring)
    (fs : FileSystem) (h : Heap) : outcome (Z * option Settings * Heap) :=
  match settings, path with
  | Some _, Some p =>
      match fopen_rt fs p with
      | None => Ok (0, settings, h)
      | Some f =>
          '(settings', h') <- load_loop (S (length f)) settings f h ;;
          Ok (1, settings', h')
      end
  | _, _ => Ok (0, settings, h)
  end.

(** The text of the pairs; a NULL key or value given to "%s" is
    undefined behaviour. *)
Fixpoint save_loop (pairs : list Pair) (f : list ascii) : outcome (list ascii) :=
  match pairs with
  | [] => Ok f
  | pr :: rest =>
      match key pr, value pr with
      | Some bk, Some bv =>
          k <- cstr bk ;;
          v <- cstr bv ;;
          save_loop rest (fprintf_pair f k v)
      | _, _ => Undefined
      end
  end.

Definition settings_save (settings : option Settings) (path : option cstring)
    (fs : FileSystem) : outcome (Z * option Settings * FileSystem) :=
  match settings, path with
  | Some s, Some p =>
      if writable fs p then
        data <- save_loop s [] ;;
        Ok (1, settings, fclose_wt fs p data)
      else Ok (0, settings, fs)
  | _, _ => Ok (0, settings, fs)
  end.

(** *** Notions used to state the properties of this variant *)

Definition is_ok {A : Type} (m : outcome A) : bool :=
  match m with
  | Ok _ => true
  | _ => false
  end.

(** Both pointers of the pair point to terminated strings. *)
Definition holds_strings (p : Pair) : bool :=
  match key p, value p with
  | Some bk, Some bv => is_ok (cstr bk) && is_ok (cstr bv)
  | _, _ => false
  end.

(** A sequence of calls of [settings_set_string] on one store; the log
    holds the key and value of the calls that returned 1, the most recent
    first. *)
Fixpoint set_all (calls : list (option cstring * option cstring))
    (settings : option Settings) (h : Heap) (log : list (cstring * cstring))
    : outcome (option Settings * Heap * list (cstring * cstring)) :=
  match calls with
  | [] => Ok (settings, h, log)
  | (k, v) :: calls' =>
      '(r, settings', h') <- settings_set_string settings k v h ;;
      let log' := match k, v with
                  | Some k', Some v' => if r =? 1 then (k', v') :: log else log
                  | _, _ => log
                  end in
      set_all calls' settings' h' log'
  end.

(** The strings a pair holds, when both its pointers point to
    terminated strings. *)
Definition strings_of (p : Pair) : option (cstring * cstring) :=
  match key p, value p with
  | Some bk, Some bv =>
      match cstr bk, cstr bv with
      | Ok k, Ok v => Some (k, v)
      | _, _ => None
      end
  | _, _ => None
  end.

(** The store holds the keys and values of [al], in order. *)
Definition holds (l : Settings) (al : list (cstring * cstring)) : Prop :=
  Forall2 (fun p kv => strings_of p = Some kv) l al.

(** An argument a caller can pass: null, or a C string that fits the
    address space with its terminator. *)
Definition arg_ok (a : option cstring) : bool :=
  match a with
  | None => true
  | Some s => is_cstring s && (Z.of_nat (length s) + 1 <? 2 ^ 64)
  end.

Definition call_ok (c : option cstring * option cstring) : bool :=
  arg_ok (fst c) && arg_ok (snd c).

(** The invariant of the store under calls whose allocations succeed. *)
Definition store_ok (l : Settings) (al : list (cstring * cstring)) : Prop :=
  holds l al /\ NoDup (map fst al) /\
  forallb (fun kv => call_ok (Some (fst kv), Some (snd kv))) al = true.

(** A pair holding the strings [k] and [v] in arrays of their size. *)
Definition pair_of (k v : cstring) : Pair :=
  {| key := Some (cells k ++ [Some NUL]); value := Some (cells v ++ [Some NUL]) |}.

End Dynamic.

(** ** The round trip as the specification states it *)

(** The round trip as the specification words it: keys and values free
    of '=' and of newline, in a store [settings_set_string] can build,
    holding C strings, with an allocator that never fails. *)
Definition round_trip_as_stated : Prop :=
  forall (s : Bounded.Settings) (path : cstring) (fs : FileSystem) (h : Heap),
    Bounded.valid_store s ->
    (forall p : Bounded.Pair, In p s ->
       is_cstring (Bounded.key p) = true /\ is_cstring (Bounded.value p) = true /\
       has_char equals (Bounded.key p) = false /\
       has_char equals (Bounded.value p) = false /\
       has_char newline (Bounded.key p) = false /\
       has_char newline (Bounded.value p) = false) ->
    writable fs path = true ->
    generous h = true ->
    exists (s' : Bounded.Settings) (h' : Heap),
      Bounded.settings_load (Some []) (Some path)
        (snd (Bounded.settings_save (Some s) (Some path) fs)) h
      = Ok (1, Some s', h') /\
      forall (k : cstring) (d : option cstring),
        Bounded.settings_get_string (Some s') (Some k) d
        = Bounded.settings_get_string (Some s) (Some k) d.

(** ** Notions for the dynamic store under any allocator *)

(** A pointer of a pair: null, or to an array that holds a terminated
    string. *)
Definition terminated (p : option buffer) : bool :=
  match p with
  | None => true
  | Some b => Dynamic.is_ok (cstr b)
  end.

(** A pair no function of the module reads outside an array of: its key
    is null (the pair is never found, its value never read), or its key
    and its value are null or terminated. *)
Definition sound_pair (p : Dynamic.Pair) : bool :=
  match Dynamic.key p with
  | None => true
  | Some _ => terminated (Dynamic.key p) && terminated (Dynamic.value p)
  end.

(** ** Notions for saving and loading the dynamic store *)

(** The line [settings_save] writes for a key and its value. *)
Definition line_of_strings (kv : cstring * cstring) : list ascii :=
  fst kv ++ str " = " ++ snd kv ++ [newline].

(** Keys and values that survive a save and a load of the dynamic store:
    C strings without newline, the key without '=' and not empty, neither
    starting nor ending with white space; their line fits the address
    space. *)
Definition portable_strings (kv : cstring * cstring) : bool :=
  is_cstring (fst kv) && is_cstring (snd kv)
  && negb (has_char equals (fst kv))
  && negb (has_char newline (fst kv)) && negb (has_char newline (snd kv))
  && trimmed (fst kv) && trimmed (snd kv)
  && negb (length (fst kv) =? 0)%nat
  && (Z.of_nat (length (fst kv) + length (snd kv)) + 5 <? 2 ^ 64).

(** A key and a value whose line [settings_load] of the bounded variant
    reads back as they are: C strings without newline, the key without
    '=' and not empty, neither starting nor ending with white space, the
    line shorter than the line array. *)
Definition loadable (kv : cstring * cstring) : bool :=
  is_cstring (fst kv) && is_cstring (snd kv)
  && negb (has_char equals (fst kv))
  && negb (has_char newline (fst kv)) && negb (has_char newline (snd kv))
  && trimmed (fst kv) && trimmed (snd kv)
  && negb (length (fst kv) =? 0)%nat
  && (length (line_of_strings kv) <? Bounded.CONFIG_LINE_LENGTH)%nat.

(** The calls of [settings_set_string] for a list of keys and values. *)
Definition calls_of (kvs : list (cstring * cstring))
    : list (option cstring * option cstring) :=
  map (fun kv => (Some (fst kv), Some (snd kv))) kvs.

(** ** The allocation wrappers of the test harness (test.h) *)

Module Harness.

(** [long] is 64 bits wide. *)
Definition LONG_MAX : Z := 2 ^ 63 - 1.

(** [test_malloc_call_count] and [test_malloc_fail_after], and the two
    counters of [realloc]. *)
Record Counters := {
  test_malloc_call_count : Z;
  test_malloc_fail_after_ : Z;
  test_realloc_call_count : Z;
  test_realloc_fail_after_ : Z
}.

(** The initial values of the four variables. *)
Definition initial : Counters :=
  {| test_malloc_call_count := 0; test_malloc_fail_after_ := -1;
     test_realloc_call_count := 0; test_realloc_fail_after_ := -1 |}.

(** [__wrap_malloc]: [real] is whether [__real_malloc] returns memory;
    the result is whether the wrapper does.  Incrementing the counter at
    [LONG_MAX] overflows. *)
Definition wrap_malloc (real : bool) (c : Counters) : outcome (bool * Counters) :=
  let count := test_malloc_call_count c in
  if LONG_MAX <=? count then Undefined
  else
    let c' := {| test_malloc_call_count := count + 1;
                 test_malloc_fail_after_ := test_malloc_fail_after_ c;
                 test_realloc_call_count := test_realloc_call_count c;
                 test_realloc_fail_after_ := test_realloc_fail_after_ c |} in
    if (count <? test_malloc_fail_after_ c) || (test_malloc_fail_after_ c <? 0)
    then Ok (real, c')
    else Ok (false, c').

(** [__wrap_realloc] *)
Definition wrap_realloc (real : bool) (c : Counters) : outcome (bool * Counters) :=
  let count := test_realloc_call_count c in
  if LONG_MAX <=? count then Undefined
  else
    let c' := {| test_malloc_call_count := test_malloc_call_count c;
                 test_malloc_fail_after_ := test_malloc_fail_after_ c;
                 test_realloc_call_count := count + 1;
                 test_realloc_fail_after_ := test_realloc_fail_after_ c |} in
    if (count <? test_realloc_fail_after_ c) || (test_realloc_fail_after_ c <? 0)
    then Ok (real, c')
    else Ok (false, c').

(** The macro [test_malloc_fail_after(n)] *)
Definition test_malloc_fail_after (n : Z) (c : Counters) : Counters :=
  {| test_malloc_call_count := 0; test_malloc_fail_after_ := n;
     test_realloc_call_count := test_realloc_call_count c;
     test_realloc_fail_after_ := test_realloc_fail_after_ c |}.

Definition test_malloc_enable : Counters -> Counters := test_malloc_fail_after (-1).
Definition test_malloc_disable : Counters -> Counters := test_malloc_fail_after 0.

(** The macro [test_realloc_fail_after(n)] *)
Definition test_realloc_fail_after (n : Z) (c : Counters) : Counters :=
  {| test_malloc_call_count := test_malloc_call_count c;
     test_malloc_fail_after_ := test_malloc_fail_after_ c;
     test_realloc_call_count := 0; test_realloc_fail_after_ := n |}.

Definition test_realloc_enable : Counters -> Counters := test_realloc_fail_after (-1).
Definition test_realloc_disable : Counters -> Counters := test_realloc_fail_after 0.

(** A sequence of calls of [malloc] through the wrapper, [reals] being
    what [__real_malloc] would return to each; and the same for
    [realloc]. *)
Fixpoint mallocs (reals : list bool) (c : Counters) : outcome (list bool * Counters) :=
  match reals with
  | [] => Ok ([], c)
  | real :: reals' =>
      '(r, c) <- wrap_malloc real c ;;
      '(rs, c) <- mallocs reals' c ;;
      Ok (r :: rs, c)
  end.

Fixpoint reallocs (reals : list bool) (c : Counters) : outcome (list bool * Counters) :=
  match reals with
  | [] => Ok ([], c)
  | real :: reals' =>
      '(r, c) <- wrap_realloc real c ;;
      '(rs, c) <- reallocs reals' c ;;
      Ok (r :: rs, c)
  end.

End Harness.

(** The keys and values once [k] is set to [v]: the value of the first
    pair with the key replaced, or the pair added at the end. *)
Fixpoint set_assoc (al : list (cstring * cstring)) (k v : cstring)
    : list (cstring * cstring) :=
  match al with
  | [] => [(k, v)]
  | kv :: rest =>
      if cstring_eqb (fst kv) k then (k, v) :: rest else kv :: set_assoc rest k v
  end.

(** ** The linked list of settings.c, pointer by pointer *)

(** The functions of settings.c once more, with the blocks [malloc]
    returns and the [next] and [prev] pointers of the pairs.  An address
    is the index of a block in the memory; the null pointer is [None]; a
    freed block is [None] in the memory.  [malloc] returns an address it
    never returned before. *)
Module Pointers.

(** [struct Pair] *)
Record PairBlock := {
  pair : Bounded.Pair;
  next : option nat;
  prev : option nat
}.

(** [struct Settings] *)
Record SettingsBlock := {
  first : option nat;
  last : option nat
}.

Inductive Block :=
| PairB (b : PairBlock)
| SettingsB (s : SettingsBlock).

Abbreviation Memory := (list (option Block)) (only parsing).

(** Reading through a pointer to a pair, or to the settings; a pointer
    to a freed block, or to a block of the other type, is undefined
    behaviour. *)
Definition deref_pair (m : Memory) (p : nat) : outcome PairBlock :=
  match nth_error m p with
  | Some (Some (PairB b)) => Ok b
  | _ => Undefined
  end.

Definition deref_settings (m : Memory) (p : nat) : outcome SettingsBlock :=
  match nth_error m p with
  | Some (Some (SettingsB s)) => Ok s
  | _ => Undefined
  end.

(** Writing the fields of a block. *)
Definition write (m : Memory) (p : nat) (b : Block) : Memory := update m p (Some b).

(** [memory_malloc], the block being filled by the caller. *)
Definition malloc (m : Memory) (b : Block) (h : Heap) : option nat * Memory * Heap :=
  let (ok, h') := memory_malloc h in
  if ok then (Some (length m), m ++ [Some b], h') else (None, m, h').

(** [memory_free] of a pointer that is not null. *)
Definition memory_free (m : Memory) (p : nat) : outcome Memory :=
  match nth_error m p with
  | Some (Some _) => Ok (update m p None)
  | _ => Undefined
  end.

Definition create_pair (k v : option cstring) (m : Memory) (h : Heap)
    : option nat * Memory * Heap :=
  match k, v with
  | Some k', Some v' =>
      malloc m (PairB {| pair := Bounded.copy_pair k' v'; next := None; prev := None |}) h
  | _, _ => (None, m, h)
  end.

(** [while (pair != NULL) { if (keys_match(pair->key, key)) return pair;
    pair = pair->next; }] *)
Fixpoint find_loop (fuel : nat) (m : Memory) (p : option nat) (k : option cstring)
    : outcome (option nat) :=
  match fuel with
  | O => OutOfFuel
  | S fuel' =>
      match p with
      | None => Ok None
      | Some a =>
          b <- deref_pair m a ;;
          if Bounded.keys_match (Some (Bounded.key (pair b))) k then Ok (Some a)
          else find_loop fuel' m (next b) k
      end
  end.

(** A list without a cycle has at most as many pairs as the memory has
    blocks. *)
Definition find_pair (m : Memory) (settings : option nat) (k : option cstring)
    : outcome (option nat) :=
  match settings with
  | Some sp => s <- deref_settings m sp ;; find_loop (S (length m)) m (first s) k
  | None => Ok None
  end.

Definition settings_create (m : Memory) (h : Heap) : option nat * Memory * Heap :=
  malloc m (SettingsB {| first := None; last := None |}) h.

(** [while (pair != NULL) { next = pair->next; memory_free(pair);
    pair = next; }] *)
Fixpoint free_loop (fuel : nat) (m : Memory) (p : option nat) : outcome Memory :=
  match fuel with
  | O => OutOfFuel
  | S fuel' =>
      match p with
      | None => Ok m
      | Some a =>
          b <- deref_pair m a ;;
          m' <- memory_free m a ;;
          free_loop fuel' m' (next b)
      end
  end.

Definition settings_free (m : Memory) (settings : option nat) : outcome Memory :=
  match settings with
  | Some sp => s <- deref_settings m sp ;; free_loop (S (length m)) m (first s)
  | None => Ok m
  end.

Definition settings_get_string (m : Memory) (settings : option nat)
    (k dflt : option cstring) : outcome (option cstring) :=
  found <- find_pair m settings k ;;
  match found with
  | Some a => b <- deref_pair m a ;; Ok (Some (Bounded.value (pair b)))
  | None => Ok dflt
  end.

(** The new pair is linked after the last one. *)
Definition link_last (m : Memory) (sp a : nat) : outcome Memory :=
  s <- deref_settings m sp ;;
  (* if (settings->first == NULL) settings->first = pair; *)
  let m := match first s with
           | None => write m sp (SettingsB {| first := Some a; last := last s |})
           | Some _ => m
           end in
  s <- deref_settings m sp ;;
  match last s with
  | None =>
      (* settings->last = pair; *)
      Ok (write m sp (SettingsB {| first := first s; last := Some a |}))
  | Some l =>
      (* settings->last->next = pair; *)
      lb <- deref_pair m l ;;
      let m := write m l (PairB {| pair := pair lb; next := Some a; prev := prev lb |}) in
      (* pair->prev = settings->last; *)
      ab <- deref_pair m a ;;
      let m := write m a (PairB {| pair := pair ab; next := next ab; prev := Some l |}) in
      (* settings->last = pair; *)
      s <- deref_settings m sp ;;
      Ok (write m sp (SettingsB {| first := first s; last := Some a |}))
  end.

Definition settings_set_string (m : Memory) (settings : option nat)
    (k v : option cstring) (h : Heap) : outcome (Z * Memory * Heap) :=
  match settings, k, v with
  | Some sp, Some k', Some v' =>
      if Bounded.too_long k' v' then Ok (0, m, h)
      else
        found <- find_pair m settings k ;;
        match found with
        | Some a =>
            b <- deref_pair m a ;;
            Ok (1, write m a (PairB {| pair := Bounded.copy_pair k' v';
                                       next := next b; prev := prev b |}), h)
        | None =>
            let '(created, m, h) := create_pair k v m h in
            match created with
            | Some a => m <- link_last m sp a ;; Ok (1, m, h)
            | None => Ok (0, m, h)
            end
        end
  | _, _, _ => Ok (0, m, h)
  end.

(** The pair is taken out of the list and freed. *)
Definition unlink (m : Memory) (sp a : nat) : outcome Memory :=
  b <- deref_pair m a ;;
  m <- match next b with
       | Some n =>
           (* pair->next->prev = pair->prev; *)
           nb <- deref_pair m n ;;
           Ok (write m n (PairB {| pair := pair nb; next := next nb; prev := prev b |}))
       | None =>
           (* settings->last = pair->prev; *)
           s <- deref_settings m sp ;;
           Ok (write m sp (SettingsB {| first := first s; last := prev b |}))
       end ;;
  b <- deref_pair m a ;;
  m <- match prev b with
       | Some q =>
           (* pair->prev->next = pair->next; *)
           qb <- deref_pair m q ;;
           Ok (write m q (PairB {| pair := pair qb; next := next b; prev := prev qb |}))
       | None =>
           (* settings->first = pair->next; *)
           s <- deref_settings m sp ;;
           Ok (write m sp (SettingsB {| first := next b; last := last s |}))
       end ;;
  memory_free m a.

Definition settings_remove (m : Memory) (settings : option nat) (k : option cstring)
    : outcome (Z * Memory) :=
  found <- find_pair m settings k ;;
  match settings, found with
  | Some sp, Some a => m <- unlink m sp a ;; Ok (1, m)
  | _, _ => Ok (0, m)
  end.

(** *** The list a memory holds *)

Definition first_or (ps : list nat) (d : option nat) : option nat :=
  match ps with
  | [] => d
  | p :: _ => Some p
  end.

Fixpoint last_or (ps : list nat) (d : option nat) : option nat :=
  match ps with
  | [] => d
  | p :: ps' => last_or ps' (Some p)
  end.

(** The blocks at the addresses [ps] hold the pairs [xs], each pointing
    to the next and to the previous one; [before] is what the first
    points back to and [after] what the last points on to. *)
Fixpoint chain (m : Memory) (before : option nat) (ps : list nat)
    (xs : list Bounded.Pair) (after : option nat) : Prop :=
  match ps, xs with
  | [], [] => True
  | p :: ps', x :: xs' =>
      nth_error m p
      = Some (Some (PairB {| pair := x; next := first_or ps' after; prev := before |}))
      /\ chain m (Some p) ps' xs' after
  | _, _ => False
  end.

(** The settings at [sp] hold the pairs [xs], in the blocks at [ps]. *)
Definition represents (m : Memory) (sp : nat) (ps : list nat) (xs : list Bounded.Pair)
    : Prop :=
  NoDup ps /\
  nth_error m sp
  = Some (Some (SettingsB {| first := first_or ps None; last := last_or ps None |})) /\
  chain m None ps xs None.

End Pointers.

(** *** Sequences of calls, on the list and on the pointers *)

Inductive Call :=
| Set_string (k v : option cstring)
| Remove (k : option cstring).

(** The results of the calls, with the list and the allocator they
    leave. *)
Fixpoint run_list (calls : list Call) (settings : option Bounded.Settings) (h : Heap)
    : list Z * option Bounded.Settings * Heap :=
  match calls with
  | [] => ([], settings, h)
  | Set_string k v :: calls' =>
      let '(r, settings', h') := Bounded.settings_set_string settings k v h in
      let '(rs, settings'', h'') := run_list calls' settings' h' in
      (r :: rs, settings'', h'')
  | Remove k :: calls' =>
      let '(r, settings') := Bounded.settings_remove settings k in
      let '(rs, settings'', h'') := run_list calls' settings' h in
      (r :: rs, settings'', h'')
  end.

(** The results of the calls, with the memory and the allocator they
    leave. *)
Fixpoint run_pointers (calls : list Call) (m : list (option Pointers.Block))
    (settings : option nat) (h : Heap)
    : outcome (list Z * list (option Pointers.Block) * Heap) :=
  match calls with
  | [] => Ok ([], m, h)
  | Set_string k v :: calls' =>
      '(r, m', h') <- Pointers.settings_set_string m settings k v h ;;
      '(rs, m'', h'') <- run_pointers calls' m' settings h' ;;
      Ok (r :: rs, m'', h'')
  | Remove k :: calls' =>
      '(r, m') <- Pointers.settings_remove m settings k ;;
      '(rs, m'', h'') <- run_pointers calls' m' settings h ;;
      Ok (r :: rs, m'', h'')
  end.

(** * Properties of the code *)

(** ** Arrays *)

Lemma wrap_small (z : Z) : 0 <= z < 2 ^ 64 -> wrap z = z.
Proof. intros H. unfold wrap. now apply Z.mod_small. Qed.

Lemma cstring_eqb_eq (a b : cstring) : cstring_eqb a b = true <-> a = b.
Proof.
  revert b. induction a as [|x a IH]; intros [|y b]; simpl; split; intros H;
    try reflexivity; try discriminate.
  - apply andb_true_iff in H. destruct H as [H1 H2].
    apply Ascii.eqb_eq in H1. apply IH in H2. now subst.
  - injection H as -> ->. rewrite Ascii.eqb_refl. simpl. now apply IH.
Qed.

Lemma cstring_eqb_refl (a : cstring) : cstring_eqb a a = true.
Proof. now apply cstring_eqb_eq. Qed.

Lemma cstring_eqb_neq (a b : cstring) : a <> b -> cstring_eqb a b = false.
Proof.
  intros H. destruct (cstring_eqb a b) eqn:E; [|reflexivity].
  apply cstring_eqb_eq in E. contradiction.
Qed.

Lemma nth_error_middle {A : Type} (pre : list A) (x : A) (post : list A) :
  nth_error (pre ++ x :: post) (length pre) = Some x.
Proof. induction pre; simpl; auto. Qed.

Lemma update_middle {A : Type} (pre : list A) (x y : A) (post : list A) :
  update (pre ++ x :: post) (length pre) y = pre ++ y :: post.
Proof. induction pre; simpl; [reflexivity|]. now rewrite IHpre. Qed.

Lemma update_length {A : Type} (l : list A) (n : nat) (x : A) :
  length (update l n x) = length l.
Proof. revert n. induction l; intros [|n]; simpl; auto. Qed.

Lemma load_middle (pre : buffer) (c : ascii) (post : buffer) :
  load (pre ++ Some c :: post) (Z.of_nat (length pre)) = Ok c.
Proof.
  unfold load. rewrite length_app. simpl length.
  replace (Z.of_nat (length pre) <? 0) with false by (symmetry; apply Z.ltb_ge; lia).
  replace (Z.of_nat (length pre + S (length post)) <=? Z.of_nat (length pre))
    with false by (symmetry; apply Z.leb_gt; lia).
  simpl. now rewrite Nat2Z.id, nth_error_middle.
Qed.

Lemma store_middle (pre : buffer) (x : option ascii) (post : buffer) (c : ascii) :
  store (pre ++ x :: post) (Z.of_nat (length pre)) c = Ok (pre ++ Some c :: post).
Proof.
  unfold store. rewrite length_app. simpl length.
  replace (Z.of_nat (length pre) <? 0) with false by (symmetry; apply Z.ltb_ge; lia).
  replace (Z.of_nat (length pre + S (length post)) <=? Z.of_nat (length pre))
    with false by (symmetry; apply Z.leb_gt; lia).
  simpl. now rewrite Nat2Z.id, update_middle.
Qed.



Lemma cells_app (a b : list ascii) : cells (a ++ b) = cells a ++ cells b.
Proof. apply map_app. Qed.

Lemma cells_length (a : list ascii) : length (cells a) = length a.
Proof. apply length_map. Qed.

Lemma is_cstring_app (a b : list ascii) :
  is_cstring (a ++ b) = is_cstring a && is_cstring b.
Proof. apply forallb_app. Qed.

Lemma cstr_cells (s : cstring) (rest : buffer) :
  is_cstring s = true -> cstr (cells s ++ Some NUL :: rest) = Ok s.
Proof.
  induction s as [|c s IH]; simpl; intros H; [reflexivity|].
  apply andb_true_iff in H. destruct H as [Hc Hs].
  apply negb_true_iff in Hc. rewrite Hc. now rewrite (IH Hs).
Qed.

Lemma isspace_NUL : isspace NUL = false.
Proof. reflexivity. Qed.

Lemma all_spaces_is_cstring (ws : list ascii) :
  all_spaces ws = true -> is_cstring ws = true.
Proof.
  induction ws as [|c ws IH]; simpl; intros H; [reflexivity|].
  apply andb_true_iff in H. destruct H as [Hc Hs].
  rewrite (IH Hs), andb_true_r. apply negb_true_iff.
  destruct (Ascii.eqb c NUL) eqn:E; [|reflexivity].
  apply Ascii.eqb_eq in E. subst c. discriminate.
Qed.

Lemma malloc_generous (h : Heap) :
  generous h = true ->
  fst (memory_malloc h) = true /\ generous (snd (memory_malloc h)) = true.
Proof.
  destruct h as [|ok h]; simpl; [auto|].
  intros H. apply andb_true_iff in H. destruct H as [-> H]. auto.
Qed.

(** ** The loops of [trim] *)

Lemma trim_leading_spaces (ws : list ascii) :
  forall (pre : buffer) (c : ascii) (post : buffer) (fuel : nat),
    all_spaces ws = true -> isspace c = false ->
    (length ws < fuel)%nat ->
    Z.of_nat (length pre + length ws) < 2 ^ 64 ->
    trim_leading fuel (pre ++ cells ws ++ Some c :: post) (Z.of_nat (length pre))
    = Ok (Z.of_nat (length pre + length ws)).
Proof.
  induction ws as [|w ws IH]; intros pre c post fuel Hws Hc Hfuel Hsize;
    (destruct fuel as [|fuel]; [simpl in Hfuel; lia|]).
  - simpl. rewrite load_middle. simpl. rewrite Hc. f_equal. lia.
  - simpl in Hws. apply andb_true_iff in Hws. destruct Hws as [Hw Hws].
    cbn [trim_leading cells map app]. rewrite load_middle. cbn [bind]. rewrite Hw.
    rewrite wrap_small by (simpl length in Hsize; lia).
    specialize (IH (pre ++ [Some w]) c post fuel Hws Hc).
    rewrite length_app in IH. simpl length in IH.
    replace (Z.of_nat (length pre) + 1) with (Z.of_nat (length pre + 1)) by lia.
    rewrite <- app_assoc in IH. simpl app in IH. unfold cells in IH.
    rewrite IH; [f_equal; simpl; lia | simpl in Hfuel; lia | simpl length in Hsize; lia].
Qed.

Lemma trim_trailing_spaces (ws : list ascii) :
  forall (pre : buffer) (c : ascii) (post : buffer) (fuel : nat) (begin : Z),
    all_spaces ws = true -> isspace c = false ->
    (length ws < fuel)%nat ->
    0 <= begin <= Z.of_nat (length pre) ->
    Z.of_nat (length pre + length ws) < 2 ^ 64 ->
    trim_trailing fuel (pre ++ Some c :: cells ws ++ post) begin
      (Z.of_nat (length pre + length ws))
    = Ok (Z.of_nat (length pre)).
Proof.
  induction ws as [|w ws IH] using rev_ind;
    intros pre c post fuel begin Hws Hc Hfuel Hbegin Hsize;
    (destruct fuel as [|fuel]; [simpl in Hfuel; lia|]).
  - simpl. rewrite Nat.add_0_r.
    replace (Z.of_nat (length pre) >=? begin) with true
      by (symmetry; apply Z.geb_le; lia).
    rewrite load_middle. simpl. now rewrite Hc.
  - unfold all_spaces in Hws. rewrite forallb_app in Hws.
    apply andb_true_iff in Hws. destruct Hws as [Hws Hw]. simpl in Hw.
    rewrite andb_true_r in Hw. rewrite length_app in *. simpl length in *.
    cbn [trim_trailing].
    replace (Z.of_nat (length pre + (length ws + 1)) >=? begin) with true
      by (symmetry; apply Z.geb_le; lia).
    rewrite cells_app. simpl cells.
    replace (pre ++ Some c :: (cells ws ++ [Some w]) ++ post)
      with ((pre ++ Some c :: cells ws) ++ Some w :: post)
      by (rewrite <- !app_assoc; reflexivity).
    replace (Z.of_nat (length pre + (length ws + 1)))
      with (Z.of_nat (length (pre ++ Some c :: cells ws)))
      by (rewrite length_app; simpl; rewrite cells_length; lia).
    rewrite load_middle. cbn [bind]. rewrite Hw.
    rewrite length_app. simpl length. rewrite cells_length.
    rewrite wrap_small by lia.
    replace (Z.of_nat (length pre + S (length ws)) - 1)
      with (Z.of_nat (length pre + length ws)) by lia.
    rewrite <- app_assoc. simpl app.
    apply IH; auto; lia.
Qed.

Lemma trim_shift_copies (todo : list ascii) :
  forall (done : list ascii) (gap tail : buffer) (fuel : nat),
    (length todo < fuel)%nat ->
    Z.of_nat (length done + length gap + length todo) < 2 ^ 64 ->
    exists gap' : buffer,
      length gap' = length gap /\
      trim_shift fuel (cells done ++ gap ++ cells todo ++ tail)
        (Z.of_nat (length gap))
        (Z.of_nat (length done + length gap + length todo) - 1)
        (Z.of_nat (length done + length gap))
      = Ok (cells (done ++ todo) ++ gap' ++ tail,
            Z.of_nat (length done + length gap + length todo)).
Proof.
  induction todo as [|c todo IH]; intros done gap tail fuel Hfuel Hsize;
    (destruct fuel as [|fuel]; [simpl in Hfuel; lia|]).
  - exists gap. split; [reflexivity|]. simpl. rewrite Nat.add_0_r.
    replace (Z.of_nat (length done + length gap) <=? Z.of_nat (length done + length gap) - 1)
      with false by (symmetry; apply Z.leb_gt; lia).
    now rewrite app_nil_r.
  - simpl length in *. cbn [trim_shift].
    replace (Z.of_nat (length done + length gap) <=?
             Z.of_nat (length done + length gap + S (length todo)) - 1)
      with true by (symmetry; apply Z.leb_le; lia).
    replace (cells done ++ gap ++ cells (c :: todo) ++ tail)
      with ((cells done ++ gap) ++ Some c :: cells todo ++ tail)
      by (rewrite <- app_assoc; reflexivity).
    replace (Z.of_nat (length done + length gap))
      with (Z.of_nat (length (cells done ++ gap)))
      by (rewrite length_app, cells_length; reflexivity).
    rewrite load_middle. cbn [bind].
    rewrite length_app, cells_length.
    rewrite wrap_small by lia.
    replace (Z.of_nat (length done + length gap) - Z.of_nat (length gap))
      with (Z.of_nat (length (cells done))) by (rewrite cells_length; lia).
    rewrite wrap_small by lia.
    destruct gap as [|g gap].
    + (* the string does not move: each character is written onto itself *)
      simpl app. rewrite app_nil_r. rewrite store_middle. cbn [bind].
      destruct (IH (done ++ [c]) [] tail fuel) as [gap' [Hlen Hrun]].
      { lia. }
      { rewrite length_app. simpl. simpl in Hsize. lia. }
      exists gap'. split; [exact Hlen|].
      rewrite length_app in Hrun. simpl length in Hrun.
      rewrite cells_app in Hrun. simpl cells in Hrun.
      rewrite <- !app_assoc in Hrun. simpl app in Hrun.
      simpl length. rewrite !Nat.add_0_r in *.
      replace (Z.of_nat (length done + 1 + length todo))
        with (Z.of_nat (length done + S (length todo))) in Hrun by lia.
      replace (Z.of_nat (length done) + 1) with (Z.of_nat (length done + 1)) by lia.
      exact Hrun.
    + rewrite <- app_assoc. simpl app. rewrite store_middle. cbn [bind].
      destruct (IH (done ++ [c]) (gap ++ [Some c]) tail fuel) as [gap' [Hlen Hrun]].
      { lia. }
      { rewrite !length_app. simpl. simpl in Hsize. lia. }
      exists gap'. split.
      { rewrite Hlen, length_app. simpl. lia. }
      rewrite !length_app in Hrun. simpl length in Hrun.
      rewrite cells_app in Hrun. simpl cells in Hrun.
      rewrite <- !app_assoc in Hrun. simpl app in Hrun.
      simpl length.
      replace (Z.of_nat (length gap + 1)) with (Z.of_nat (S (length gap))) in Hrun by lia.
      replace (Z.of_nat (length done + 1 + (length gap + 1) + length todo))
        with (Z.of_nat (length done + S (length gap) + S (length todo))) in Hrun by lia.
      replace (Z.of_nat (length done + 1 + (length gap + 1)))
        with (Z.of_nat (length done + S (length gap)) + 1) in Hrun by lia.
      exact Hrun.
Qed.

Lemma strlen_cells (s : cstring) (rest : buffer) :
  is_cstring s = true -> Z.of_nat (length s) < 2 ^ 64 ->
  strlen (cells s ++ Some NUL :: rest) = Ok (Z.of_nat (length s)).
Proof.
  intros Hs Hsize. unfold strlen. rewrite cstr_cells by assumption.
  simpl. now rewrite wrap_small by lia.
Qed.

(** [trim] on a string made of white space only. *)
Lemma trim_all_spaces (ws : list ascii) (rest : buffer) :
  ws <> [] -> all_spaces ws = true ->
  Z.of_nat (length ws) < 2 ^ 64 ->
  exists rest' : buffer,
    length rest' = (length ws + length rest)%nat /\
    trim (Some (cells ws ++ Some NUL :: rest)) = Ok (Some (Some NUL :: rest')).
Proof.
  intros Hne Hws Hsize. unfold trim.
  rewrite strlen_cells by (auto using all_spaces_is_cstring).
  cbn [bind].
  pose proof (trim_leading_spaces ws [] NUL rest
                (S (length (cells ws ++ Some NUL :: rest))) Hws isspace_NUL) as Hlead.
  simpl app in Hlead. simpl length in Hlead. change (Z.of_nat 0) with 0 in Hlead.
  rewrite Nat.add_0_l in Hlead. rewrite Hlead; clear Hlead.
  2:{ rewrite length_app, cells_length. simpl. lia. }
  2:{ lia. }
  cbn [bind].
  assert (Hlen : (0 < length ws)%nat) by (destruct ws; [contradiction|simpl; lia]).
  rewrite wrap_small by lia.
  cbn [trim_trailing].
  replace (Z.of_nat (length ws) - 1 >=? Z.of_nat (length ws)) with false
    by (symmetry; rewrite Z.geb_leb; apply Z.leb_gt; lia).
  cbn [bind trim_shift].
  replace (Z.of_nat (length ws) <=? Z.of_nat (length ws) - 1) with false
    by (symmetry; apply Z.leb_gt; lia).
  cbn [bind]. rewrite Z.sub_diag. rewrite wrap_small by lia.
  destruct ws as [|w ws]; [contradiction|]. simpl cells. simpl app.
  exists (cells ws ++ Some NUL :: rest). split.
  - rewrite length_app, cells_length. simpl. lia.
  - reflexivity.
Qed.

Lemma trimmed_ends (core : cstring) :
  core <> [] -> trimmed core = true ->
  exists (c0 cl : ascii) (core' init : list ascii),
    core = c0 :: core' /\ core = init ++ [cl] /\
    isspace c0 = false /\ isspace cl = false.
Proof.
  intros Hne Ht. destruct core as [|c0 core']; [contradiction|].
  unfold trimmed in Ht. apply andb_true_iff in Ht. destruct Ht as [H0 Hl].
  apply negb_true_iff in H0. apply negb_true_iff in Hl.
  exists c0, (last (c0 :: core') c0), core', (removelast (c0 :: core')).
  repeat split; auto.
  apply app_removelast_last. discriminate.
Qed.

(** [trim] on white space, then a string that neither starts nor ends
    with white space, then white space. *)
Lemma trim_core (ws1 core ws2 : list ascii) (rest : buffer) :
  all_spaces ws1 = true -> all_spaces ws2 = true ->
  core <> [] -> trimmed core = true -> is_cstring core = true ->
  Z.of_nat (length (ws1 ++ core ++ ws2)) < 2 ^ 64 ->
  exists rest' : buffer,
    length rest' = (length ws1 + length ws2 + length rest)%nat /\
    trim (Some (cells (ws1 ++ core ++ ws2) ++ Some NUL :: rest))
    = Ok (Some (cells core ++ Some NUL :: rest')).
Proof.
  intros Hws1 Hws2 Hne Htrim Hcore Hsize.
  destruct (trimmed_ends core Hne Htrim) as (c0 & cl & core' & init & E0 & El & Hc0 & Hcl).
  rewrite !length_app in Hsize.
  unfold trim.
  rewrite strlen_cells.
  2:{ rewrite !is_cstring_app, Hcore.
      now rewrite !all_spaces_is_cstring by assumption. }
  2:{ rewrite !length_app. lia. }
  cbn [bind].
  set (fuel := S (length (cells (ws1 ++ core ++ ws2) ++ Some NUL :: rest))).
  assert (Hfuel : (length ws1 + length core + length ws2 < fuel)%nat).
  { unfold fuel. rewrite length_app, cells_length, !length_app. simpl. lia. }
  (* the first loop stops on the first character of [core] *)
  assert (Hlead : trim_leading fuel (cells (ws1 ++ core ++ ws2) ++ Some NUL :: rest) 0
                  = Ok (Z.of_nat (length ws1))).
  { pose proof (trim_leading_spaces ws1 [] c0
                  (cells core' ++ cells ws2 ++ Some NUL :: rest) fuel Hws1 Hc0) as H.
    simpl app in H. simpl length in H. change (Z.of_nat 0) with 0 in H.
    rewrite Nat.add_0_l in H.
    rewrite !cells_app, E0. simpl cells. rewrite <- !app_assoc. simpl app.
    apply H; lia. }
  rewrite Hlead. cbn [bind].
  (* the second loop stops on the last character of [core] *)
  assert (Hcl_len : length core = S (length init)).
  { rewrite El, length_app. simpl. lia. }
  assert (Htrail : trim_trailing fuel (cells (ws1 ++ core ++ ws2) ++ Some NUL :: rest)
                     (Z.of_nat (length ws1))
                     (wrap (Z.of_nat (length (ws1 ++ core ++ ws2)) - 1))
                   = Ok (Z.of_nat (length ws1 + length init))).
  { rewrite !length_app, wrap_small by lia.
    pose proof (trim_trailing_spaces ws2 (cells ws1 ++ cells init) cl
                  (Some NUL :: rest) fuel (Z.of_nat (length ws1)) Hws2 Hcl) as H.
    rewrite length_app, !cells_length in H.
    rewrite !cells_app. rewrite El at 1. rewrite cells_app. simpl cells.
    rewrite <- !app_assoc. simpl app. rewrite <- !app_assoc in H.
    replace (Z.of_nat (length ws1 + (length core + length ws2)) - 1)
      with (Z.of_nat (length ws1 + length init + length ws2)) by lia.
    apply H; lia. }
  rewrite Htrail. cbn [bind].
  (* the third loop moves [core] to the start of the array *)
  destruct (trim_shift_copies core [] (cells ws1) (cells ws2 ++ Some NUL :: rest) fuel)
    as [gap' [Hgap Hshift]].
  { lia. }
  { simpl. rewrite cells_length. lia. }
  simpl length in Hshift. simpl app in Hshift. rewrite cells_length in Hshift, Hgap.
  replace (Z.of_nat (0 + length ws1 + length core) - 1)
    with (Z.of_nat (length ws1 + length init)) in Hshift by lia.
  rewrite !cells_app, <- !app_assoc.
  rewrite Nat.add_0_l in Hshift.
  rewrite Hshift. cbn [bind].
  replace (Z.of_nat (length ws1 + length core) - Z.of_nat (length ws1))
    with (Z.of_nat (length (cells core))) by (rewrite cells_length; lia).
  rewrite wrap_small by (rewrite cells_length; lia).
  destruct (gap' ++ cells ws2 ++ Some NUL :: rest) as [|x tl] eqn:Etl.
  { destruct gap'; [destruct ws2|]; discriminate. }
  rewrite store_middle. cbn [bind].
  exists tl. split; [|reflexivity].
  apply (f_equal (@length _)) in Etl.
  rewrite !length_app, cells_length in Etl. simpl in Etl. lia.
Qed.

(** ** [trim] against its specification *)

Lemma drop_spaces_split (s : cstring) :
  exists ws : list ascii, s = ws ++ drop_spaces s /\ all_spaces ws = true.
Proof.
  induction s as [|c s [ws [E Hws]]]; simpl.
  - now exists [].
  - destruct (isspace c) eqn:Hc.
    + exists (c :: ws). split; [simpl; now rewrite <- E|]. simpl. now rewrite Hc.
    + now exists [].
Qed.

Lemma drop_spaces_head (s : cstring) :
  match drop_spaces s with
  | [] => True
  | c :: _ => isspace c = false
  end.
Proof.
  induction s as [|c s IH]; simpl; [exact I|].
  destruct (isspace c) eqn:Hc; [exact IH|exact Hc].
Qed.

Lemma all_spaces_rev (ws : list ascii) : all_spaces (rev ws) = all_spaces ws.
Proof.
  unfold all_spaces. induction ws as [|w ws IH]; simpl; [reflexivity|].
  rewrite forallb_app, IH. simpl. rewrite andb_true_r. apply andb_comm.
Qed.

Theorem trim_refines_spec (s : cstring) (rest : buffer) :
  s <> [] -> is_cstring s = true -> Z.of_nat (length s) < 2 ^ 64 ->
  exists rest' : buffer,
    trim (Some (cells s ++ Some NUL :: rest))
    = Ok (Some (cells (trim_spec s) ++ Some NUL :: rest')).
Proof.
  intros Hne Hs Hsize. unfold trim_spec.
  destruct (drop_spaces_split s) as [ws1 [E1 Hws1]].
  destruct (drop_spaces_split (rev (drop_spaces s))) as [ws' [E2 Hws']].
  pose proof (drop_spaces_head s) as Hhead.
  pose proof (drop_spaces_head (rev (drop_spaces s))) as Hlast.
  set (t := drop_spaces s) in *.
  set (u := drop_spaces (rev t)) in *.
  assert (Et : t = rev u ++ rev ws').
  { rewrite <- rev_app_distr, <- E2. now rewrite rev_involutive. }
  destruct u as [|cl u'] eqn:Eu.
  - (* nothing but white space *)
    simpl in Et. simpl rev.
    assert (t = []) as Ht.
    { destruct t as [|c t']; [reflexivity|].
      assert (Hc : all_spaces (c :: t') = true)
        by (rewrite Et, all_spaces_rev; exact Hws').
      simpl in Hc. rewrite Hhead in Hc. discriminate. }
    rewrite Ht, app_nil_r in E1. subst s.
    destruct (trim_all_spaces ws1 rest Hne Hws1 Hsize) as [rest' [_ H]].
    now exists rest'.
  - rewrite E1, Et in *.
    assert (Hcore : rev (cl :: u') <> []).
    { simpl. intros H. now apply app_eq_nil in H as [_ H]. }
    assert (Htrim : trimmed (rev (cl :: u')) = true).
    { destruct (rev (cl :: u')) as [|c0 r] eqn:Er; [reflexivity|].
      unfold trimmed. rewrite <- Er at 1. simpl rev. rewrite last_last.
      simpl in Hhead. rewrite Hhead, Hlast. reflexivity. }
    rewrite !is_cstring_app in Hs.
    apply andb_true_iff in Hs. destruct Hs as [_ Hs].
    apply andb_true_iff in Hs. destruct Hs as [Hs _].
    destruct (trim_core ws1 (rev (cl :: u')) (rev ws') rest)
      as [rest' [_ H]]; auto.
    { now rewrite all_spaces_rev. }
    now exists rest'.
Qed.

(** A null argument is left alone. *)
Lemma trim_null : trim None = Ok None.
Proof. reflexivity. Qed.


(** X1: [trim] on an array that holds a non-empty string leaves it holding
    the string without its leading and trailing white space, which is the
    empty string when there is nothing else. *)
Theorem trim_nonempty_string (s : cstring) (rest : buffer) :
  s <> [] -> is_cstring s = true -> Z.of_nat (length s) < 2 ^ 64 ->
  exists (rest' : buffer) (ws1 ws2 : list ascii),
    trim (Some (cells s ++ Some NUL :: rest))
    = Ok (Some (cells (trim_spec s) ++ Some NUL :: rest')) /\
    s = ws1 ++ trim_spec s ++ ws2 /\
    all_spaces ws1 = true /\ all_spaces ws2 = true /\
    trimmed (trim_spec s) = true /\
    (all_spaces s = true -> trim_spec s = []).
Proof.
  intros Hne Hs Hsize.
  destruct (trim_refines_spec s rest Hne Hs Hsize) as [rest' Htrim].
  destruct (drop_spaces_split s) as [ws1 [E1 Hws1]].
  destruct (drop_spaces_split (rev (drop_spaces s))) as [ws' [E2 Hws']].
  pose proof (drop_spaces_head s) as Hhead.
  pose proof (drop_spaces_head (rev (drop_spaces s))) as Hlast.
  assert (Et : drop_spaces s = trim_spec s ++ rev ws').
  { unfold trim_spec. rewrite <- rev_app_distr, <- E2. now rewrite rev_involutive. }
  exists rest', ws1, (rev ws'). repeat split; auto.
  - now rewrite <- Et.
  - now rewrite all_spaces_rev.
  - unfold trim_spec in *.
    destruct (drop_spaces (rev (drop_spaces s))) as [|cl u] eqn:Eu; [reflexivity|].
    destruct (rev (cl :: u)) as [|c0 r] eqn:Er; [reflexivity|].
    unfold trimmed. rewrite <- Er at 1. simpl rev. rewrite last_last.
    rewrite Et in Hhead. simpl in Hhead. now rewrite Hhead, Hlast.
  - intros Hall. unfold trim_spec.
    assert (Hd : drop_spaces s = []).
    { clear - Hall. induction s as [|c s IH]; simpl in *; [reflexivity|].
      apply andb_true_iff in Hall. destruct Hall as [Hc Hs]. rewrite Hc. auto. }
    now rewrite Hd.
Qed.

Lemma trim_nonempty_string_witness :
  exists (rest' : buffer) (ws1 ws2 : list ascii),
    trim (Some (cells (str "  foo  bar  ") ++ Some NUL :: uninit 4))
    = Ok (Some (cells (trim_spec (str "  foo  bar  ")) ++ Some NUL :: rest')) /\
    str "  foo  bar  " = ws1 ++ trim_spec (str "  foo  bar  ") ++ ws2 /\
    all_spaces ws1 = true /\ all_spaces ws2 = true /\
    trimmed (trim_spec (str "  foo  bar  ")) = true /\
    (all_spaces (str "  foo  bar  ") = true -> trim_spec (str "  foo  bar  ") = []).
Proof.
  apply trim_nonempty_string.
  - discriminate.
  - reflexivity.
  - reflexivity.
Defined.

(** ** The fuel of [trim] is enough *)

Lemma bind_fuel {A B : Type} (m : outcome A) (k : A -> outcome B) :
  m <> OutOfFuel -> (forall a : A, m = Ok a -> k a <> OutOfFuel) ->
  bind m k <> OutOfFuel.
Proof.
  intros Hm Hk. destruct m as [a| |]; cbn [bind]; [now apply Hk|discriminate|contradiction].
Qed.

Lemma load_fuel (s : buffer) (i : Z) : load s i <> OutOfFuel.
Proof.
  unfold load. destruct ((i <? 0) || (Z.of_nat (length s) <=? i)); [discriminate|].
  destruct (nth_error s (Z.to_nat i)) as [[c|]|]; discriminate.
Qed.

Lemma load_in_bounds (s : buffer) (i : Z) (c : ascii) :
  load s i = Ok c -> 0 <= i < Z.of_nat (length s).
Proof.
  unfold load.
  destruct (i <? 0) eqn:H0; [discriminate|].
  destruct (Z.of_nat (length s) <=? i) eqn:H1; [discriminate|].
  intros _. apply Z.ltb_ge in H0. apply Z.leb_gt in H1. lia.
Qed.

Lemma store_fuel (s : buffer) (i : Z) (c : ascii) : store s i c <> OutOfFuel.
Proof.
  unfold store. destruct ((i <? 0) || (Z.of_nat (length s) <=? i)); discriminate.
Qed.

Lemma store_length (s s' : buffer) (i : Z) (c : ascii) :
  store s i c = Ok s' -> length s' = length s.
Proof.
  unfold store. destruct ((i <? 0) || (Z.of_nat (length s) <=? i)); [discriminate|].
  intros H. injection H as <-. apply update_length.
Qed.

Lemma cstr_fuel (s : buffer) : cstr s <> OutOfFuel.
Proof.
  induction s as [|[c|] s IH]; cbn [cstr]; try discriminate.
  destruct (Ascii.eqb c NUL); [discriminate|].
  destruct (cstr s); cbn [bind]; [discriminate|discriminate|contradiction].
Qed.

Lemma strlen_fuel (s : buffer) : strlen s <> OutOfFuel.
Proof.
  unfold strlen. apply bind_fuel; [apply cstr_fuel|discriminate].
Qed.

Lemma wrap_range (z : Z) : 0 <= wrap z < 2 ^ 64.
Proof. unfold wrap. apply Z.mod_pos_bound. lia. Qed.

Lemma trim_leading_fuel (fuel : nat) :
  forall (s : buffer) (begin : Z),
    Z.of_nat (length s) < 2 ^ 64 ->
    (0 < fuel)%nat -> Z.of_nat (length s) - begin < Z.of_nat fuel ->
    trim_leading fuel s begin <> OutOfFuel.
Proof.
  induction fuel as [|fuel IH]; intros s begin Hsize Hpos Hfuel; [lia|].
  cbn [trim_leading]. apply bind_fuel; [apply load_fuel|].
  intros c Hc. apply load_in_bounds in Hc.
  destruct (isspace c); [|discriminate].
  rewrite wrap_small by lia. apply IH; lia.
Qed.

Lemma trim_leading_range (fuel : nat) :
  forall (s : buffer) (begin b : Z),
    0 <= begin -> trim_leading fuel s begin = Ok b -> 0 <= b < Z.of_nat (length s).
Proof.
  induction fuel as [|fuel IH]; intros s begin b Hb H; cbn [trim_leading] in H;
    [discriminate|].
  destruct (load s begin) as [c| |] eqn:Hc; cbn [bind] in H; try discriminate.
  apply load_in_bounds in Hc.
  destruct (isspace c).
  - apply IH in H; [exact H|]. pose proof (wrap_range (begin + 1)). lia.
  - injection H as <-. exact Hc.
Qed.

Lemma trim_trailing_fuel (fuel : nat) :
  forall (s : buffer) (begin end_ : Z),
    Z.of_nat (length s) < 2 ^ 64 ->
    (0 < fuel)%nat ->
    (end_ < Z.of_nat (length s) -> end_ + 1 < Z.of_nat fuel) ->
    trim_trailing fuel s begin end_ <> OutOfFuel.
Proof.
  induction fuel as [|fuel IH]; intros s begin end_ Hsize Hpos Hfuel; [lia|].
  cbn [trim_trailing]. destruct (end_ >=? begin); [|discriminate].
  apply bind_fuel; [apply load_fuel|].
  intros c Hc. apply load_in_bounds in Hc.
  destruct (isspace c); [|discriminate].
  assert (Hf : end_ + 1 < Z.of_nat (S fuel)) by (apply Hfuel; lia).
  apply IH; [exact Hsize|lia|].
  destruct (Z.eq_dec end_ 0) as [->|Hne].
  - change (wrap (0 - 1)) with (2 ^ 64 - 1). lia.
  - rewrite wrap_small by lia. lia.
Qed.

Lemma trim_shift_fuel (fuel : nat) :
  forall (s : buffer) (begin end_ i : Z),
    Z.of_nat (length s) < 2 ^ 64 ->
    (0 < fuel)%nat -> Z.of_nat (length s) - i < Z.of_nat fuel ->
    trim_shift fuel s begin end_ i <> OutOfFuel.
Proof.
  induction fuel as [|fuel IH]; intros s begin end_ i Hsize Hpos Hfuel; [lia|].
  cbn [trim_shift]. destruct (i <=? end_); [|discriminate].
  apply bind_fuel; [apply load_fuel|].
  intros c Hc. apply load_in_bounds in Hc.
  apply bind_fuel; [apply store_fuel|].
  intros s' Hs'. apply store_length in Hs'.
  rewrite wrap_small by lia. apply IH; rewrite ?Hs'; lia.
Qed.

(** [trim] returns or is undefined: its loops never use up the fuel the
    model gives them. *)
Lemma trim_fuel (str : option buffer) :
  (forall s : buffer, str = Some s -> Z.of_nat (length s) < 2 ^ 64) ->
  trim str <> OutOfFuel.
Proof.
  intros Hsize. destruct str as [s|]; [|discriminate].
  specialize (Hsize s eq_refl). unfold trim.
  apply bind_fuel; [apply strlen_fuel|]. intros len _.
  apply bind_fuel; [apply trim_leading_fuel; lia|]. intros begin Hbegin.
  apply trim_leading_range in Hbegin; [|lia].
  apply bind_fuel.
  { apply trim_trailing_fuel; [exact Hsize|lia|].
    pose proof (wrap_range (len - 1)). lia. }
  intros end_ _.
  apply bind_fuel; [apply trim_shift_fuel; lia|].
  intros [s' i] _. apply bind_fuel; [apply store_fuel|discriminate].
Qed.

(** ** The bounded store *)

Module BoundedFacts.
Import Bounded.

Lemma firstn_short {A : Type} (n : nat) (l : list A) :
  (length l <= n)%nat -> firstn n l = l.
Proof. apply firstn_all2. Qed.

(** Against a stored key, which is shorter than [CONFIG_KEY_LENGTH],
    [strncmp] compares whole strings. *)
Lemma strncmp_eq_short (a b : cstring) (n : nat) :
  (length a < n)%nat -> strncmp_eq a b n = cstring_eqb a b.
Proof.
  intros Ha. unfold strncmp_eq. rewrite (firstn_short n a) by lia.
  destruct (cstring_eqb a b) eqn:E.
  - apply cstring_eqb_eq in E. subst b. rewrite firstn_short by lia.
    apply cstring_eqb_refl.
  - apply cstring_eqb_neq. intros H.
    assert (Hlen : length (firstn n b) = length a) by now rewrite <- H.
    rewrite length_firstn in Hlen.
    assert (Hb : firstn n b = b) by (apply firstn_short; lia).
    rewrite Hb in H. subst b. now rewrite cstring_eqb_refl in E.
Qed.

Lemma too_long_false (k v : cstring) :
  too_long k v = false <->
  (length k < CONFIG_KEY_LENGTH)%nat /\ (length v < CONFIG_VALUE_LENGTH)%nat.
Proof.
  unfold too_long. rewrite orb_false_iff, !Nat.leb_gt. tauto.
Qed.

Lemma copy_pair_short (k v : cstring) :
  too_long k v = false -> copy_pair k v = {| key := k; value := v |}.
Proof.
  intros H. apply too_long_false in H. destruct H as [Hk Hv].
  unfold copy_pair, CONFIG_KEY_LENGTH, CONFIG_VALUE_LENGTH in *.
  rewrite !firstn_short by lia. reflexivity.
Qed.

Lemma valid_pair_lengths (p : Pair) :
  valid_pair p = true <->
  (length (key p) < CONFIG_KEY_LENGTH)%nat /\ (length (value p) < CONFIG_VALUE_LENGTH)%nat.
Proof.
  unfold valid_pair. rewrite andb_true_iff, !Nat.ltb_lt. tauto.
Qed.

(** [find_from] finds nothing exactly when no stored key is the key. *)
Lemma find_from_none (s : Settings) (k : cstring) (pos : nat) :
  forallb valid_pair s = true ->
  (find_from s (Some k) pos = None <-> ~ In k (keys s)).
Proof.
  revert pos. induction s as [|p s IH]; intros pos Hv; simpl.
  - tauto.
  - simpl in Hv. apply andb_true_iff in Hv. destruct Hv as [Hp Hs].
    apply valid_pair_lengths in Hp. destruct Hp as [Hp _].
    rewrite strncmp_eq_short by exact Hp.
    destruct (cstring_eqb (key p) k) eqn:E.
    + apply cstring_eqb_eq in E. split; [discriminate|]. intros H. exfalso. auto.
    + rewrite (IH (S pos) Hs). split.
      * intros H [H'|H']; [|auto]. subst k. now rewrite cstring_eqb_refl in E.
      * auto.
Qed.

(** What [find_from] finds is the first pair with the key. *)
Lemma find_from_some (s : Settings) (k : cstring) (pos i : nat) (p : Pair) :
  forallb valid_pair s = true ->
  find_from s (Some k) pos = Some (i, p) ->
  exists (pre post : Settings),
    s = pre ++ p :: post /\ i = (pos + length pre)%nat /\
    key p = k /\ ~ In k (keys pre).
Proof.
  revert pos. induction s as [|q s IH]; intros pos Hv H; simpl in H.
  - discriminate.
  - simpl in Hv. apply andb_true_iff in Hv. destruct Hv as [Hq Hs].
    apply valid_pair_lengths in Hq. destruct Hq as [Hq _].
    rewrite strncmp_eq_short in H by exact Hq.
    destruct (cstring_eqb (key q) k) eqn:E.
    + injection H as <- <-. apply cstring_eqb_eq in E.
      exists [], s. simpl. repeat split; auto; lia.
    + destruct (IH (S pos) Hs H) as (pre & post & -> & -> & Hk & Hnot).
      exists (q :: pre), post. simpl. repeat split; auto; try lia.
      intros [H'|H']; [|auto]. rewrite H' in E.
      now rewrite cstring_eqb_refl in E.
Qed.

(** The key is found where it is stored. *)
Lemma find_from_middle (pre post : Settings) (p : Pair) (pos : nat) :
  forallb valid_pair (pre ++ [p]) = true ->
  ~ In (key p) (keys pre) ->
  find_from (pre ++ p :: post) (Some (key p)) pos = Some ((pos + length pre)%nat, p).
Proof.
  revert pos. induction pre as [|q pre IH]; intros pos Hv Hnot; simpl in *.
  - rewrite andb_true_r in Hv. apply valid_pair_lengths in Hv. destruct Hv as [Hp _].
    rewrite strncmp_eq_short by exact Hp. rewrite cstring_eqb_refl.
    now rewrite Nat.add_0_r.
  - apply andb_true_iff in Hv. destruct Hv as [Hq Hs].
    apply valid_pair_lengths in Hq. destruct Hq as [Hq _].
    rewrite strncmp_eq_short by exact Hq.
    rewrite cstring_eqb_neq by (intros E; apply Hnot; now left).
    rewrite IH; [f_equal; f_equal; lia | exact Hs | tauto].
Qed.

Lemma find_from_lookup (s : Settings) (k : cstring) (pos : nat) :
  forallb valid_pair s = true ->
  option_map (fun ip => value (snd ip)) (find_from s (Some k) pos) = lookup s k.
Proof.
  revert pos. unfold lookup.
  induction s as [|p s IH]; intros pos Hv; simpl; [reflexivity|].
  simpl in Hv. apply andb_true_iff in Hv. destruct Hv as [Hp Hs].
  apply valid_pair_lengths in Hp. destruct Hp as [Hp _].
  rewrite strncmp_eq_short by exact Hp.
  destruct (cstring_eqb (key p) k); [reflexivity|]. now apply IH.
Qed.

Lemma get_string_lookup (s : Settings) (k : cstring) (d : option cstring) :
  forallb valid_pair s = true ->
  settings_get_string (Some s) (Some k) d
  = match lookup s k with Some v => Some v | None => d end.
Proof.
  intros Hv. unfold settings_get_string. simpl.
  rewrite <- (find_from_lookup s k 0 Hv).
  destruct (find_from s (Some k) 0) as [[i p]|]; reflexivity.
Qed.

Lemma lookup_app (a b : Settings) (k : cstring) :
  lookup (a ++ b) k
  = match lookup a k with Some v => Some v | None => lookup b k end.
Proof.
  unfold lookup. induction a as [|p a IH]; simpl; [reflexivity|].
  destruct (cstring_eqb (key p) k); [reflexivity|exact IH].
Qed.

Lemma lookup_absent (a : Settings) (k : cstring) :
  ~ In k (keys a) -> lookup a k = None.
Proof.
  unfold lookup. induction a as [|p a IH]; simpl; intros H; [reflexivity|].
  rewrite cstring_eqb_neq by tauto. apply IH. tauto.
Qed.

(** [settings_set_string] once its arguments passed the checks. *)
Lemma set_string_checked (s : Settings) (k v : cstring) (h : Heap) :
  too_long k v = false ->
  settings_set_string (Some s) (Some k) (Some v) h
  = match find_from s (Some k) 0 with
    | Some (i, _) => (1, Some (update s i {| key := k; value := v |}), h)
    | None =>
        if fst (memory_malloc h)
        then (1, Some (s ++ [{| key := k; value := v |}]), snd (memory_malloc h))
        else (0, Some s, snd (memory_malloc h))
    end.
Proof.
  intros Hlen. unfold settings_set_string, find_pair, create_pair. rewrite Hlen.
  rewrite (copy_pair_short k v Hlen).
  destruct (find_from s (Some k) 0) as [[i p]|]; [reflexivity|].
  destruct (memory_malloc h) as [[|] h']; reflexivity.
Qed.

(** A call that does not return 1 leaves the store as it was. *)
Lemma set_string_failure (settings : option Settings) (k v : option cstring) (h : Heap) :
  fst (fst (settings_set_string settings k v h)) <> 1 ->
  snd (fst (settings_set_string settings k v h)) = settings.
Proof.
  unfold settings_set_string.
  destruct settings as [s|], k as [k|], v as [v|]; try reflexivity.
  destruct (too_long k v); [reflexivity|].
  destruct (find_pair (Some s) (Some k)) as [[i p]|].
  - simpl. congruence.
  - destruct (create_pair (Some k) (Some v) h) as [[p|] h']; simpl; congruence.
Qed.

Lemma keys_app (a b : Settings) : keys (a ++ b) = keys a ++ keys b.
Proof. apply map_app. Qed.

(** What a successful call does to a valid store. *)
Lemma set_string_success (s s' : Settings) (k v : cstring) (h h' : Heap) :
  valid_store s ->
  settings_set_string (Some s) (Some k) (Some v) h = (1, Some s', h') ->
  valid_store s' /\
  (forall k' : cstring,
      lookup s' k' = if cstring_eqb k k' then Some v else lookup s k') /\
  (In k (keys s) ->
   exists (pre post : Settings) (p : Pair),
     s = pre ++ p :: post /\ key p = k /\
     s' = pre ++ {| key := k; value := v |} :: post) /\
  (~ In k (keys s) -> s' = s ++ [{| key := k; value := v |}]).
Proof.
  intros [Hv Hnd] Hset.
  destruct (too_long k v) eqn:Hlen.
  { unfold settings_set_string in Hset. rewrite Hlen in Hset. discriminate. }
  rewrite (set_string_checked s k v h Hlen) in Hset.
  assert (Hkv : valid_pair {| key := k; value := v |} = true).
  { apply valid_pair_lengths. simpl. now apply too_long_false. }
  destruct (find_from s (Some k) 0) as [[i p]|] eqn:Hfind.
  - destruct (find_from_some s k 0 i p Hv Hfind) as (pre & post & -> & -> & Hk & Hnot).
    simpl in Hset. rewrite update_middle in Hset. injection Hset as <- <-.
    assert (Hkeys : keys (pre ++ {| key := k; value := v |} :: post)
                    = keys (pre ++ p :: post)).
    { rewrite !keys_app. simpl. now rewrite Hk. }
    repeat split.
    + rewrite forallb_app in *. simpl in *.
      apply andb_true_iff in Hv. destruct Hv as [Hpre Hpost].
      apply andb_true_iff in Hpost. destruct Hpost as [_ Hpost].
      now rewrite Hpre, Hkv, Hpost.
    + now rewrite Hkeys.
    + intros k'. rewrite !lookup_app. unfold lookup at 2 4. simpl. rewrite Hk.
      destruct (cstring_eqb k k') eqn:E.
      * apply cstring_eqb_eq in E. subst k'. now rewrite (lookup_absent pre k Hnot).
      * reflexivity.
    + intros _. now exists pre, post, p.
    + intros Hnotin. exfalso. apply Hnotin. rewrite keys_app. apply in_or_app.
      right. now left.
  - apply (find_from_none s k 0 Hv) in Hfind.
    destruct (fst (memory_malloc h)); [|discriminate].
    injection Hset as <- <-.
    repeat split.
    + rewrite forallb_app. simpl. now rewrite Hv, Hkv.
    + rewrite keys_app. simpl. apply NoDup_app; auto.
      * constructor; [tauto|constructor].
      * intros x Hx [<-|[]]. contradiction.
    + intros k'. rewrite lookup_app. unfold lookup at 2. simpl.
      destruct (cstring_eqb k k') eqn:E.
      * apply cstring_eqb_eq in E. subst k'. now rewrite (lookup_absent s k Hfind).
      * now destruct (lookup s k').
    + intros Hin. contradiction.
Qed.

Lemma valid_store_empty : valid_store [].
Proof. split; [reflexivity|constructor]. Qed.

(** The invariant of a sequence of calls: the store stays valid and
    holds, for each key, the value of the most recent successful call. *)
Lemma set_all_invariant (calls : list (option cstring * option cstring)) :
  forall (l : Settings) (h : Heap) (log : list (cstring * cstring)),
    valid_store l ->
    (forall k : cstring, lookup l k = last_set log k) ->
    exists (l' : Settings) (h' : Heap) (log' : list (cstring * cstring)),
      set_all calls (Some l) h log = (Some l', h', log') /\
      valid_store l' /\
      (forall k : cstring, lookup l' k = last_set log' k).
Proof.
  induction calls as [|[k v] calls IH]; intros l h log Hvalid Hlog.
  - now exists l, h, log.
  - cbn [set_all].
    destruct (settings_set_string (Some l) k v h) as [[r s'] h'] eqn:Hset.
    destruct (Z.eq_dec r 1) as [->|Hr].
    + (* the call succeeded: both arguments were strings *)
      destruct k as [k|], v as [v|]; try discriminate.
      destruct s' as [l'|].
      2:{ unfold settings_set_string in Hset. destruct (too_long k v); [discriminate|].
          destruct (find_pair (Some l) (Some k)) as [[i p]|]; [discriminate|].
          destruct (create_pair (Some k) (Some v) h) as [[p|] h'']; discriminate. }
      destruct (set_string_success l l' k v h h' Hvalid Hset) as (Hvalid' & Hlook & _).
      apply IH; [exact Hvalid'|].
      intros k'. rewrite Hlook. unfold last_set. simpl.
      destruct (cstring_eqb k k'); [reflexivity|]. apply Hlog.
    + (* the call failed: nothing changed *)
      pose proof (set_string_failure (Some l) k v h) as Hsame.
      rewrite Hset in Hsame. simpl in Hsame. rewrite (Hsame Hr).
      replace (match k with
               | Some k' => match v with
                            | Some v' => if r =? 1 then (k', v') :: log else log
                            | None => log
                            end
               | None => log
               end) with log.
      * now apply IH.
      * destruct k, v; try reflexivity.
        now replace (r =? 1) with false by (symmetry; apply Z.eqb_neq; exact Hr).
Qed.

(** The file [settings_save] writes holds the lines of the pairs in the
    order of the list. *)
Lemma save_data (s : Settings) (f : list ascii) :
  fold_left (fun f pr => fprintf_pair f (key pr) (value pr)) s f
  = f ++ concat (map line_of s).
Proof.
  revert f. induction s as [|p s IH]; intros f; simpl.
  - now rewrite app_nil_r.
  - rewrite IH. unfold fprintf_pair, line_of. now rewrite <- !app_assoc.
Qed.

Lemma save_writes_lines (s : Settings) (path : cstring) (fs : FileSystem) :
  writable fs path = true ->
  settings_save (Some s) (Some path) fs
  = (1, Some s, fclose_wt fs path (concat (map line_of s))).
Proof.
  intros Hw. unfold settings_save. rewrite Hw. now rewrite save_data.
Qed.

End BoundedFacts.

(** X2: in the bounded variant every sequence of [settings_set_string] calls
    on a store created empty, whatever the allocator does, leaves a store
    without two pairs of the same key, where looking a key up returns the
    value of the most recent call for it that returned 1, and the default
    when there was none. *)
Theorem bounded_set_all_unique
    (calls : list (option cstring * option cstring)) (h : Heap) :
  exists (l : Bounded.Settings) (h' : Heap) (log : list (cstring * cstring)),
    Bounded.set_all calls (Some []) h [] = (Some l, h', log) /\
    NoDup (Bounded.keys l) /\
    forall (k : cstring) (d : option cstring),
      Bounded.settings_get_string (Some l) (Some k) d
      = match last_set log k with
        | Some v => Some v
        | None => d
        end.
Proof.
  destruct (BoundedFacts.set_all_invariant calls [] h [] BoundedFacts.valid_store_empty)
    as (l & h' & log & Hrun & [Hvalid Hnodup] & Hlook).
  { reflexivity. }
  exists l, h', log. repeat split; auto.
  intros k d. rewrite BoundedFacts.get_string_lookup by exact Hvalid.
  now rewrite Hlook.
Qed.

(** ** Integers as text *)

Lemma digit_char_facts (d : Z) :
  0 <= d < 10 ->
  isdigit (digit_char d) = true /\ digit_value (digit_char d) = d /\
  isspace (digit_char d) = false /\
  Ascii.eqb (digit_char d) "-"%char = false /\
  Ascii.eqb (digit_char d) "+"%char = false.
Proof.
  intros H.
  assert (d = 0 \/ d = 1 \/ d = 2 \/ d = 3 \/ d = 4 \/ d = 5 \/ d = 6 \/ d = 7
          \/ d = 8 \/ d = 9) as Hd by lia.
  repeat (destruct Hd as [->|Hd]; [repeat split; reflexivity|]).
  subst d. repeat split; reflexivity.
Qed.

(** [digits] yields the decimal digits of [n], the most significant
    first: parsing them back appends [n] to what was parsed so far. *)
Lemma digits_parse (fuel : nat) :
  forall (n : Z) (acc : cstring),
    (0 < fuel)%nat -> 0 <= n < 10 ^ Z.of_nat fuel ->
    exists (c : ascii) (ds : cstring),
      digits fuel n acc = (c :: ds) ++ acc /\
      isdigit c = true /\ isspace c = false /\
      Ascii.eqb c "-"%char = false /\ Ascii.eqb c "+"%char = false /\
      (length (c :: ds) <= fuel)%nat /\
      forall (rest : cstring) (a : Z),
        parse_digits ((c :: ds) ++ rest) a
        = parse_digits rest (a * 10 ^ Z.of_nat (length (c :: ds)) + n).
Proof.
  induction fuel as [|fuel IH]; intros n acc Hfuel Hn.
  - lia.
  - cbn [digits].
    assert (Hmod : 0 <= n mod 10 < 10) by (apply Z.mod_pos_bound; lia).
    destruct (digit_char_facts (n mod 10) Hmod) as (Hd & Hv & Hs & Hm & Hp).
    destruct (n <? 10) eqn:Hlt.
    + apply Z.ltb_lt in Hlt.
      exists (digit_char (n mod 10)), []. repeat split; auto.
      intros rest a. cbn [app parse_digits]. rewrite Hd, Hv.
      rewrite Z.mod_small by lia. simpl length.
      now replace (10 ^ Z.of_nat 1) with 10 by reflexivity.
    + apply Z.ltb_ge in Hlt.
      assert (Hdiv : 0 <= n / 10 < 10 ^ Z.of_nat fuel).
      { split; [apply Z.div_pos; lia|].
        apply Z.div_lt_upper_bound; [lia|].
        rewrite Nat2Z.inj_succ, Z.pow_succ_r in Hn by lia. lia. }
      assert (Hpos : (0 < fuel)%nat).
      { destruct fuel; [|lia]. simpl in Hdiv.
        assert (1 <= n / 10) by (apply Z.div_le_lower_bound; lia). lia. }
      destruct (IH (n / 10) (digit_char (n mod 10) :: acc) Hpos Hdiv)
        as (c & ds & E & Hc1 & Hc2 & Hc3 & Hc4 & Hlen & Hparse).
      exists c, (ds ++ [digit_char (n mod 10)]). repeat split; auto.
      * rewrite E. simpl. now rewrite <- app_assoc.
      * simpl in *. rewrite length_app. simpl. lia.
      * intros rest a.
        replace ((c :: ds ++ [digit_char (n mod 10)]) ++ rest)
          with ((c :: ds) ++ digit_char (n mod 10) :: rest)
          by (simpl; now rewrite <- app_assoc).
        rewrite Hparse. cbn [parse_digits]. rewrite Hd, Hv.
        f_equal. simpl length. rewrite length_app. simpl length.
        replace (Z.of_nat (S (length ds + 1))) with (Z.succ (Z.of_nat (S (length ds))))
          by lia.
        rewrite Z.pow_succ_r by lia.
        pose proof (Z.div_mod n 10). lia.
Qed.

Lemma to_int_small (v : Z) : INT_MIN <= v <= INT_MAX -> to_int v = v.
Proof.
  unfold INT_MIN, INT_MAX, to_int. intros H.
  rewrite Z.mod_small; lia.
Qed.

(** [atoi] reads back what "%d" printed. *)
Lemma atoi_format_d (v : Z) :
  INT_MIN <= v <= INT_MAX -> atoi (format_d v) = v.
Proof.
  intros Hv. pose proof Hv as Hrange. unfold INT_MIN, INT_MAX in Hrange.
  unfold format_d. destruct (v <? 0) eqn:Hneg.
  - apply Z.ltb_lt in Hneg.
    destruct (digits_parse 20 (- v) []) as (c & ds & E & _ & _ & _ & _ & _ & Hparse).
    { lia. }
    { change (10 ^ Z.of_nat 20) with 100000000000000000000. lia. }
    rewrite E. unfold atoi. cbn [skip_spaces].
    change (isspace "-"%char) with false. cbv iota.
    rewrite Ascii.eqb_refl. rewrite Hparse. cbn [parse_digits].
    rewrite Z.mul_0_l, Z.add_0_l, Z.opp_involutive. now apply to_int_small.
  - apply Z.ltb_ge in Hneg.
    destruct (digits_parse 20 v []) as (c & ds & E & _ & Hs & Hm & Hp & _ & Hparse).
    { lia. }
    { change (10 ^ Z.of_nat 20) with 100000000000000000000. lia. }
    rewrite E. unfold atoi. cbn [app skip_spaces]. rewrite Hs, Hm, Hp.
    specialize (Hparse [] 0). rewrite app_nil_r in Hparse. cbn [app] in Hparse.
    rewrite app_nil_r. rewrite Hparse. cbn [parse_digits].
    rewrite Z.mul_0_l, Z.add_0_l. now apply to_int_small.
Qed.

Lemma format_d_length (v : Z) :
  INT_MIN <= v <= INT_MAX -> (length (format_d v) <= 21)%nat.
Proof.
  intros Hv. unfold INT_MIN, INT_MAX in Hv. unfold format_d.
  destruct (v <? 0) eqn:Hneg.
  - apply Z.ltb_lt in Hneg.
    destruct (digits_parse 20 (- v) []) as (c & ds & E & _ & _ & _ & _ & Hlen & _).
    { lia. }
    { change (10 ^ Z.of_nat 20) with 100000000000000000000. lia. }
    rewrite E, app_nil_r. simpl in *. lia.
  - apply Z.ltb_ge in Hneg.
    destruct (digits_parse 20 v []) as (c & ds & E & _ & _ & _ & _ & Hlen & _).
    { lia. }
    { change (10 ^ Z.of_nat 20) with 100000000000000000000. lia. }
    rewrite E, app_nil_r. simpl in *. lia.
Qed.

(** ** Reading back what was set (bounded store) *)

Module BoundedLookup.
Import Bounded BoundedFacts.

Lemma find_from_ge (s : Settings) (k : option cstring) (pos i : nat) (p : Pair) :
  find_from s k pos = Some (i, p) -> (pos <= i)%nat.
Proof.
  revert pos. induction s as [|q s IH]; intros pos H; cbn [find_from] in H; [discriminate|].
  destruct (keys_match (Some (key q)) k).
  - injection H as <- _. lia.
  - apply IH in H. lia.
Qed.

Lemma find_from_update (s : Settings) (k : option cstring) (pos i : nat) (p x : Pair) :
  find_from s k pos = Some (i, p) ->
  keys_match (Some (key x)) k = true ->
  find_from (update s (i - pos) x) k pos = Some (i, x).
Proof.
  revert pos. induction s as [|q s IH]; intros pos H Hx; cbn [find_from] in H; [discriminate|].
  destruct (keys_match (Some (key q)) k) eqn:Hq.
  - injection H as <- _. rewrite Nat.sub_diag. cbn [update find_from]. now rewrite Hx.
  - pose proof (find_from_ge s k (S pos) i p H) as Hge.
    replace (i - pos)%nat with (S (i - S pos)) by lia.
    cbn [update find_from]. rewrite Hq. now apply IH.
Qed.

Lemma find_from_append (s : Settings) (k : option cstring) (pos : nat) (x : Pair) :
  find_from s k pos = None ->
  keys_match (Some (key x)) k = true ->
  find_from (s ++ [x]) k pos = Some ((pos + length s)%nat, x).
Proof.
  revert pos. induction s as [|q s IH]; intros pos H Hx; cbn [find_from app length] in *.
  - rewrite Hx. now rewrite Nat.add_0_r.
  - destruct (keys_match (Some (key q)) k); [discriminate|].
    rewrite IH by assumption. f_equal. f_equal. lia.
Qed.

(** After a call that returned 1 the key is found, with the value set:
    for every store, valid or not. *)
Lemma set_string_then_find (s : Settings) (s' : option Settings) (k v : cstring)
    (h h' : Heap) :
  settings_set_string (Some s) (Some k) (Some v) h = (1, s', h') ->
  exists i : nat, find_pair s' (Some k) = Some (i, {| key := k; value := v |}).
Proof.
  intros Hset.
  destruct (too_long k v) eqn:Hlen.
  { unfold settings_set_string in Hset. rewrite Hlen in Hset. discriminate. }
  rewrite (set_string_checked s k v h Hlen) in Hset.
  assert (Hmatch : keys_match (Some (key {| key := k; value := v |})) (Some k) = true).
  { simpl. apply too_long_false in Hlen. destruct Hlen as [Hk _].
    rewrite strncmp_eq_short by exact Hk. apply cstring_eqb_refl. }
  destruct (find_from s (Some k) 0) as [[i p]|] eqn:Hfind.
  - injection Hset as <- _. exists i. simpl.
    pose proof (find_from_update s (Some k) 0 i p _ Hfind Hmatch) as H.
    now rewrite Nat.sub_0_r in H.
  - destruct (fst (memory_malloc h)); [|discriminate].
    injection Hset as <- _. exists (length s). simpl.
    now rewrite (find_from_append s (Some k) 0 _ Hfind Hmatch).
Qed.

End BoundedLookup.

(** X3: in the bounded variant, for every store, key and [int] value, a
    [settings_set_int] that returns 1 stores the full decimal text of the
    value, and [settings_get_int] for that key then returns the value,
    whatever the default. *)
Theorem bounded_set_int_get_int
    (s : Bounded.Settings) (s' : option Bounded.Settings) (k : cstring) (v : Z)
    (h h' : Heap) :
  INT_MIN <= v <= INT_MAX ->
  Bounded.settings_set_int (Some s) (Some k) v h = (1, s', h') ->
  Bounded.settings_get_string s' (Some k) None = Some (format_d v) /\
  forall d : Z, Bounded.settings_get_int s' (Some k) d = v.
Proof.
  intros Hv Hset. unfold Bounded.settings_set_int in Hset.
  assert (Htext : snprintf_d Bounded.CONFIG_VALUE_LENGTH v = format_d v).
  { unfold snprintf_d. apply BoundedFacts.firstn_short.
    pose proof (format_d_length v Hv). unfold Bounded.CONFIG_VALUE_LENGTH. simpl. lia. }
  rewrite Htext in Hset.
  destruct (BoundedLookup.set_string_then_find s s' k (format_d v) h h' Hset) as [i Hfind].
  unfold Bounded.settings_get_string, Bounded.settings_get_int. rewrite Hfind.
  cbn [Bounded.value]. split; [reflexivity|].
  intros d. now apply atoi_format_d.
Qed.

Lemma bounded_set_int_get_int_witness :
  Bounded.settings_get_string
    (Some [{| Bounded.key := str "k"; Bounded.value := format_d (-2147483648) |}])
    (Some (str "k")) None
  = Some (format_d (-2147483648)) /\
  forall d : Z,
    Bounded.settings_get_int
      (Some [{| Bounded.key := str "k"; Bounded.value := format_d (-2147483648) |}])
      (Some (str "k")) d
    = -2147483648.
Proof.
  apply (bounded_set_int_get_int [] _ (str "k") (-2147483648) [] []).
  - unfold INT_MIN, INT_MAX. lia.
  - reflexivity.
Defined.

(** ** Reading lines *)

#[local] Arguments Ascii.eqb : simpl never.

Lemma firstn_exact {A : Type} (a b : list A) : firstn (length a) (a ++ b) = a.
Proof. induction a; simpl; [reflexivity|]. now rewrite IHa. Qed.

Lemma skipn_exact {A : Type} (a b : list A) : skipn (length a) (a ++ b) = b.
Proof. induction a; simpl; auto. Qed.

Lemma skipn_uninit (n N : nat) : skipn n (uninit N) = uninit (N - n).
Proof.
  unfold uninit. revert n. induction N as [|N IH]; intros [|n]; simpl; auto.
Qed.

Lemma uninit_length (N : nat) : length (uninit N) = N.
Proof. apply repeat_length. Qed.

(** Copying the first characters of a string into a fresh array. *)
Lemma strncpy_prefix (N : nat) (a b : list ascii) :
  (length a <= N)%nat ->
  strncpy (uninit N) (a ++ b) (length a) = Ok (cells a ++ uninit (N - length a)).
Proof.
  intros H. unfold strncpy. rewrite uninit_length.
  replace (N <? length a)%nat with false by (symmetry; apply Nat.ltb_ge; lia).
  now rewrite <- app_assoc, firstn_exact, skipn_uninit.
Qed.

Lemma until_nul_cstring (s : list ascii) : is_cstring s = true -> until_nul s = s.
Proof.
  induction s as [|c s IH]; simpl; intros H; [reflexivity|].
  apply andb_true_iff in H. destruct H as [Hc Hs].
  apply negb_true_iff in Hc. rewrite Hc. now rewrite IH.
Qed.

Lemma has_char_app (c : ascii) (a b : list ascii) :
  has_char c (a ++ b) = has_char c a || has_char c b.
Proof. apply existsb_app. Qed.

Lemma strchr_first (c : ascii) (pre post : list ascii) :
  has_char c pre = false -> strchr (pre ++ c :: post) c = Some (length pre).
Proof.
  induction pre as [|x pre IH]; simpl; intros H.
  - now rewrite Ascii.eqb_refl.
  - apply orb_false_iff in H. destruct H as [Hx Hpre].
    rewrite Ascii.eqb_sym, Hx. now rewrite IH.
Qed.

Lemma fgets_chars_line (l rest : list ascii) (n : nat) :
  has_char newline l = false -> (length l < n)%nat ->
  fgets_chars n (l ++ newline :: rest) = (l ++ [newline], rest).
Proof.
  revert n. induction l as [|c l IH]; intros n Hnl Hlen;
    (destruct n as [|n]; [simpl in Hlen; lia|]); simpl.
  - reflexivity.
  - simpl in Hnl. apply orb_false_iff in Hnl. destruct Hnl as [Hc Hl].
    rewrite Ascii.eqb_sym, Hc. rewrite IH; [reflexivity|exact Hl|simpl in Hlen; lia].
Qed.

Lemma fgets_line (l rest : list ascii) (size : nat) :
  has_char newline l = false -> (length l + 1 < size)%nat ->
  fgets size (l ++ newline :: rest) = Some (l ++ [newline], rest).
Proof.
  intros Hnl Hlen. unfold fgets. rewrite fgets_chars_line by (auto; lia).
  destruct l; reflexivity.
Qed.

Lemma skipn_past {A : Type} (a : list A) (x : A) (b : list A) :
  skipn (S (length a)) (a ++ x :: b) = b.
Proof. induction a; simpl; auto. Qed.

(** One part of the line after the split: [strncpy] of the part and the
    terminator written over its last character. *)
Lemma split_part (a : list ascii) (w : ascii) (more : list ascii) (N : nat) :
  (length a < N)%nat -> Z.of_nat N < 2 ^ 64 ->
  exists junk : buffer,
    strncpy (uninit N) ((a ++ [w]) ++ more) (length (a ++ [w]))
    = Ok (cells a ++ Some w :: junk) /\
    store (cells a ++ Some w :: junk) (wrap (Z.of_nat (length (a ++ [w])) - 1)) NUL
    = Ok (cells a ++ Some NUL :: junk).
Proof.
  intros Hlen HN. exists (uninit (N - length (a ++ [w]))).
  assert (Hl : length (a ++ [w]) = S (length a)) by (rewrite length_app; simpl; lia).
  split.
  - rewrite strncpy_prefix by lia.
    rewrite cells_app, <- app_assoc. reflexivity.
  - rewrite Hl.
    replace (Z.of_nat (S (length a)) - 1) with (Z.of_nat (length (cells a)))
      by (rewrite cells_length; lia).
    rewrite wrap_small by (rewrite cells_length; lia).
    apply store_middle.
Qed.

(** ** Loading what was saved (bounded store) *)

Module BoundedLoad.
Import Bounded BoundedFacts.

Lemma line_of_split (p : Pair) :
  line_of p = (key p ++ [sp]) ++ equals :: (sp :: value p) ++ [newline].
Proof.
  unfold line_of. change (str " = ") with ([sp] ++ equals :: [sp]).
  now rewrite <- !app_assoc.
Qed.

Lemma portable_facts (p : Pair) :
  portable p = true ->
  is_cstring (key p) = true /\ is_cstring (value p) = true /\
  has_char equals (key p) = false /\
  has_char newline (key p) = false /\ has_char newline (value p) = false /\
  trimmed (key p) = true /\ trimmed (value p) = true /\
  key p <> [] /\ valid_pair p = true.
Proof.
  unfold portable. rewrite !andb_true_iff, !negb_true_iff.
  intros [[[[[[[[H1 H2] H3] H4] H5] H6] H7] H8] H9].
  repeat split; auto.
  intros E. rewrite E in H8. discriminate.
Qed.

(** [trim] leaves a key that has no white space around it as it is. *)
Lemma trim_key (k : cstring) (junk : buffer) :
  k <> [] -> trimmed k = true -> is_cstring k = true ->
  Z.of_nat (length k) < 2 ^ 64 ->
  exists junk' : buffer,
    trim (Some (cells k ++ Some NUL :: junk)) = Ok (Some (cells k ++ Some NUL :: junk')).
Proof.
  intros Hne Ht Hc Hsize.
  destruct (trim_core [] k [] junk) as [junk' [_ H]]; auto.
  - simpl. now rewrite app_nil_r.
  - simpl in H. rewrite app_nil_r in H. now exists junk'.
Qed.

(** [trim] removes the space [settings_save] wrote after '='. *)
Lemma trim_value (v : cstring) (junk : buffer) :
  trimmed v = true -> is_cstring v = true ->
  Z.of_nat (length v) + 1 < 2 ^ 64 ->
  exists junk' : buffer,
    trim (Some (cells (sp :: v) ++ Some NUL :: junk))
    = Ok (Some (cells v ++ Some NUL :: junk')).
Proof.
  intros Ht Hc Hsize. destruct v as [|c v].
  - destruct (trim_all_spaces [sp] junk) as [junk' [_ H]]; try reflexivity.
    + discriminate.
    + now exists junk'.
  - destruct (trim_core [sp] (c :: v) [] junk) as [junk' [_ H]]; auto.
    + discriminate.
    + rewrite app_nil_r. simpl length in *. lia.
    + rewrite app_nil_r in H. now exists junk'.
Qed.

Lemma line_length_small : Z.of_nat CONFIG_LINE_LENGTH < 2 ^ 64.
Proof. reflexivity. Qed.

(** One saved line, read back: the pair is appended to the store. *)
Lemma load_line_portable (acc : Settings) (p : Pair) (h : Heap) :
  portable p = true -> forallb valid_pair acc = true ->
  ~ In (key p) (keys acc) -> generous h = true ->
  load_line (Some acc) (line_of p) h = Ok (Some (acc ++ [p]), snd (memory_malloc h)).
Proof.
  intros Hp Hacc Hnot Hgen.
  destruct (portable_facts p Hp) as (Hck & Hcv & Heq & Hnk & Hnv & Htk & Htv & Hne & Hvalid).
  pose proof Hvalid as Hlen. apply valid_pair_lengths in Hlen. destruct Hlen as [Hlk Hlv].
  unfold CONFIG_KEY_LENGTH, CONFIG_VALUE_LENGTH in Hlk, Hlv.
  unfold load_line. rewrite line_of_split.
  rewrite strchr_first by (rewrite has_char_app, Heq; reflexivity).
  cbv zeta.
  replace (length ((key p ++ [sp]) ++ equals :: (sp :: value p) ++ [newline])
           - length (key p ++ [sp]) - 1)%nat
    with (length ((sp :: value p) ++ [newline]))
    by (repeat (rewrite length_app || (progress simpl length)); lia).
  rewrite skipn_past.
  destruct (split_part (key p) sp (equals :: (sp :: value p) ++ [newline])
              CONFIG_LINE_LENGTH)
    as [jk [Ek1 Ek2]]; [unfold CONFIG_LINE_LENGTH; lia | apply line_length_small |].
  destruct (split_part (sp :: value p) newline [] CONFIG_LINE_LENGTH)
    as [jv [Ev1 Ev2]];
    [unfold CONFIG_LINE_LENGTH; simpl length; lia | apply line_length_small |].
  rewrite app_nil_r in Ev1.
  rewrite Ek1. cbn [bind]. rewrite Ev1. cbn [bind].
  rewrite Ek2. cbn [bind]. rewrite Ev2. cbn [bind].
  destruct (trim_key (key p) jk) as [jk' Etk]; auto; [lia|].
  destruct (trim_value (value p) jv) as [jv' Etv]; auto; [lia|].
  rewrite Etk. cbn [bind]. rewrite Etv. cbn [bind].
  rewrite !cstr_cells by assumption. cbn [bind].
  rewrite set_string_checked
    by (apply too_long_false; unfold CONFIG_KEY_LENGTH, CONFIG_VALUE_LENGTH; lia).
  apply (find_from_none acc (key p) 0 Hacc) in Hnot. rewrite Hnot.
  destruct (malloc_generous h Hgen) as [-> _].
  destruct p; reflexivity.
Qed.

(** The lines of a list of pairs, read back into a store that has none
    of their keys: the pairs are appended in order. *)
Lemma load_loop_lines (rest : Settings) :
  forall (acc : Settings) (h : Heap) (fuel : nat),
    forallb portable rest = true ->
    valid_store (acc ++ rest) ->
    generous h = true ->
    (length (concat (map line_of rest)) < fuel)%nat ->
    exists h' : Heap,
      load_loop fuel (Some acc) (concat (map line_of rest)) h
      = Ok (Some (acc ++ rest), h').
Proof.
  induction rest as [|p rest IH]; intros acc h fuel Hport Hvalid Hgen Hfuel;
    (destruct fuel as [|fuel]; [lia|]).
  - exists h. simpl. now rewrite app_nil_r.
  - simpl in Hport. apply andb_true_iff in Hport. destruct Hport as [Hp Hrest].
    destruct (portable_facts p Hp) as (Hck & Hcv & Heq & Hnk & Hnv & Htk & Htv & Hne & Hvp).
    pose proof Hvp as Hlen. apply valid_pair_lengths in Hlen. destruct Hlen as [Hlk Hlv].
    unfold CONFIG_KEY_LENGTH, CONFIG_VALUE_LENGTH in Hlk, Hlv.
    destruct Hvalid as [Hv Hnd].
    rewrite forallb_app in Hv. apply andb_true_iff in Hv. destruct Hv as [Hacc Hv].
    rewrite keys_app in Hnd. simpl in Hnd.
    assert (Hnot : ~ In (key p) (keys acc)).
    { apply NoDup_remove_2 in Hnd. intros Hin. apply Hnd. apply in_or_app. now left. }
    assert (Hfgets : fgets CONFIG_LINE_LENGTH (line_of p ++ concat (map line_of rest))
                     = Some (line_of p, concat (map line_of rest))).
    { assert (Hline : line_of p = (key p ++ str " = " ++ value p) ++ [newline]).
      { unfold line_of. now rewrite <- !app_assoc. }
      rewrite Hline, <- app_assoc. simpl app at 2.
      apply fgets_line.
      - rewrite !has_char_app, Hnk, Hnv. reflexivity.
      - rewrite !length_app. unfold CONFIG_LINE_LENGTH. simpl. lia. }
    destruct (malloc_generous h Hgen) as [_ Hgen'].
    destruct (IH (acc ++ [p]) (snd (memory_malloc h)) fuel Hrest) as [h' Hrun].
    + split.
      * rewrite <- app_assoc. simpl app. rewrite forallb_app. now rewrite Hacc, Hv.
      * rewrite <- app_assoc. simpl app. rewrite keys_app. exact Hnd.
    + exact Hgen'.
    + simpl in Hfuel. rewrite length_app in Hfuel.
      assert (0 < length (line_of p))%nat
        by (unfold line_of; rewrite !length_app; simpl; lia).
      lia.
    + exists h'. cbn [map concat load_loop]. rewrite Hfgets.
      rewrite until_nul_cstring
        by (unfold line_of; rewrite !is_cstring_app, Hck, Hcv; reflexivity).
      rewrite load_line_portable by assumption. cbn [bind].
      rewrite Hrun. now rewrite <- app_assoc.
Qed.

End BoundedLoad.

(** ** Lines that load as the specification says *)

Lemma drop_spaces_snoc (s : cstring) (w : ascii) :
  isspace w = true ->
  drop_spaces (s ++ [w]) = if all_spaces s then [] else drop_spaces s ++ [w].
Proof.
  intros Hw. induction s as [|c s IH]; cbn [app drop_spaces all_spaces forallb].
  - now rewrite Hw.
  - destruct (isspace c); [exact IH|reflexivity].
Qed.

Lemma drop_spaces_all (s : cstring) : all_spaces s = true -> drop_spaces s = [].
Proof.
  induction s as [|c s IH]; cbn [drop_spaces all_spaces forallb]; [reflexivity|].
  intros H. apply andb_true_iff in H. destruct H as [-> Hs]. now apply IH.
Qed.

(** White space at the end of a string does not change what [trim]
    should leave of it. *)
Lemma trim_spec_snoc (s : cstring) (w : ascii) :
  isspace w = true -> trim_spec (s ++ [w]) = trim_spec s.
Proof.
  intros Hw. unfold trim_spec. rewrite drop_spaces_snoc by exact Hw.
  destruct (all_spaces s) eqn:Hs.
  - now rewrite (drop_spaces_all s Hs).
  - rewrite rev_app_distr. cbn [rev app drop_spaces]. now rewrite Hw.
Qed.

Lemma is_cstring_drop_spaces (s : cstring) :
  is_cstring s = true -> is_cstring (drop_spaces s) = true.
Proof.
  induction s as [|c s IH]; cbn [drop_spaces]; [reflexivity|].
  intros H. destruct (isspace c); [|exact H].
  cbn [is_cstring forallb] in H. apply andb_true_iff in H. now apply IH.
Qed.

Lemma is_cstring_rev (s : cstring) : is_cstring (rev s) = is_cstring s.
Proof.
  unfold is_cstring. induction s as [|c s IH]; cbn [rev forallb]; [reflexivity|].
  rewrite forallb_app, IH. cbn [forallb]. rewrite andb_true_r. apply andb_comm.
Qed.

Lemma is_cstring_trim_spec (s : cstring) :
  is_cstring s = true -> is_cstring (trim_spec s) = true.
Proof.
  intros H. unfold trim_spec. rewrite is_cstring_rev.
  apply is_cstring_drop_spaces. rewrite is_cstring_rev.
  now apply is_cstring_drop_spaces.
Qed.

Lemma isspace_not_equals (w : ascii) : isspace w = true -> Ascii.eqb equals w = false.
Proof.
  intros H. destruct (Ascii.eqb equals w) eqn:E; [|reflexivity].
  apply Ascii.eqb_eq in E. subst w. discriminate.
Qed.

(** The key and the value the loop body of [settings_load] hands to
    [settings_set_string], in an array of [N] bytes, for a line whose two
    parts end in white space. *)
Lemma split_and_trim (pre post : cstring) (w c : ascii) (N M : nat) :
  pre <> [] -> post <> [] ->
  is_cstring pre = true -> is_cstring post = true ->
  (length pre < N)%nat -> (length post < M)%nat ->
  Z.of_nat N < 2 ^ 64 -> Z.of_nat M < 2 ^ 64 ->
  forall (A : Type) (body : cstring -> cstring -> outcome A),
    (k <- strncpy (uninit N) ((pre ++ [w]) ++ equals :: post ++ [c]) (length (pre ++ [w])) ;;
     v <- strncpy (uninit M) (post ++ [c]) (length (post ++ [c])) ;;
     k <- store k (wrap (Z.of_nat (length (pre ++ [w])) - 1)) NUL ;;
     v <- store v (wrap (Z.of_nat (length (post ++ [c])) - 1)) NUL ;;
     k <- trim (Some k) ;;
     v <- trim (Some v) ;;
     match k, v with
     | Some k, Some v => ks <- cstr k ;; vs <- cstr v ;; body ks vs
     | _, _ => Undefined
     end)
    = body (trim_spec pre) (trim_spec post).
Proof.
  intros Hpre Hpost Hcpre Hcpost Hlpre Hlpost HN HM A body.
  destruct (split_part pre w (equals :: post ++ [c]) N Hlpre HN)
    as [jk [Ek1 Ek2]].
  destruct (split_part post c [] M Hlpost HM) as [jv [Ev1 Ev2]].
  rewrite app_nil_r in Ev1.
  rewrite Ek1. cbn [bind]. rewrite Ev1. cbn [bind].
  rewrite Ek2. cbn [bind]. rewrite Ev2. cbn [bind].
  destruct (trim_refines_spec pre jk Hpre Hcpre) as [jk' Etk]; [lia|].
  destruct (trim_refines_spec post jv Hpost Hcpost) as [jv' Etv]; [lia|].
  rewrite Etk. cbn [bind]. rewrite Etv. cbn [bind].
  rewrite !cstr_cells by (now apply is_cstring_trim_spec).
  reflexivity.
Qed.

(** X4: for a line that fits the line array, has a white space character
    just before its first '=' and at its end, and other characters before
    each of them, the loop body of [settings_load] calls
    [settings_set_string] with the key and value the specification
    defines, in both variants. *)
Theorem load_line_follows_spec (line pre post : cstring) (w c : ascii) :
  line = pre ++ w :: equals :: post ++ [c] ->
  pre <> [] -> post <> [] ->
  isspace w = true -> isspace c = true ->
  has_char equals pre = false ->
  is_cstring line = true ->
  (length line < Bounded.CONFIG_LINE_LENGTH)%nat ->
  exists k v : cstring,
    split_on_first_equals line = Some (k, v) /\
    (forall (acc : Bounded.Settings) (h : Heap),
        Bounded.load_line (Some acc) line h
        = Ok (snd (fst (Bounded.settings_set_string (Some acc) (Some k) (Some v) h)),
              snd (Bounded.settings_set_string (Some acc) (Some k) (Some v) h))) /\
    (forall (acc : Dynamic.Settings) (h : Heap),
        Dynamic.load_line (Some acc) line h
        = (r <- Dynamic.settings_set_string (Some acc) (Some k) (Some v) h ;;
           Ok (snd (fst r), snd r))).
Proof.
  intros -> Hpre Hpost Hw Hc Heq Hline Hlen.
  replace (pre ++ w :: equals :: post ++ [c])
    with ((pre ++ [w]) ++ equals :: post ++ [c]) in *
    by (now rewrite <- app_assoc).
  assert (Hchr : strchr ((pre ++ [w]) ++ equals :: post ++ [c]) equals
                 = Some (length (pre ++ [w]))).
  { apply strchr_first. rewrite has_char_app, Heq. cbn [has_char existsb].
    now rewrite (isspace_not_equals w Hw). }
  rewrite !is_cstring_app in Hline. cbn [is_cstring forallb] in Hline.
  rewrite !andb_true_iff in Hline.
  destruct Hline as [[Hcpre _] [_ Hcpost]].
  fold (is_cstring (post ++ [c])) in Hcpost. rewrite is_cstring_app in Hcpost.
  apply andb_true_iff in Hcpost. destruct Hcpost as [Hcpost _].
  repeat (rewrite length_app in Hlen || (progress cbn [length] in Hlen)).
  unfold Bounded.CONFIG_LINE_LENGTH in Hlen.
  assert (Hval : (length ((pre ++ [w]) ++ equals :: post ++ [c])
                  - length (pre ++ [w]) - 1)%nat = length (post ++ [c])).
  { repeat (rewrite length_app || (progress cbn [length])). lia. }
  exists (trim_spec pre), (trim_spec post). repeat split.
  - unfold split_on_first_equals. rewrite Hchr.
    rewrite firstn_exact, skipn_past.
    now rewrite !trim_spec_snoc by assumption.
  - intros acc h. unfold Bounded.load_line. rewrite Hchr. cbv zeta.
    rewrite Hval, skipn_past.
    rewrite (split_and_trim pre post w c Bounded.CONFIG_LINE_LENGTH
               Bounded.CONFIG_LINE_LENGTH); auto;
      try (unfold Bounded.CONFIG_LINE_LENGTH; lia);
      try apply BoundedLoad.line_length_small.
    now destruct (Bounded.settings_set_string (Some acc) (Some (trim_spec pre))
                    (Some (trim_spec post)) h) as [[r s'] h'].
  - intros acc h. unfold Dynamic.load_line. rewrite Hchr. cbv zeta.
    rewrite Hval, skipn_past.
    rewrite (split_and_trim pre post w c (length (pre ++ [w])) (length (post ++ [c])));
      auto; try (rewrite length_app; cbn [length]; lia).
    destruct (Dynamic.settings_set_string (Some acc) (Some (trim_spec pre))
                (Some (trim_spec post)) h) as [[[r s'] h']| |]; reflexivity.
Qed.

Lemma load_line_follows_spec_witness :
  split_on_first_equals (str "foo  bar  = abc def =   ghi   " ++ [newline])
  = Some (str "foo  bar", str "abc def =   ghi") /\
  Bounded.load_line (Some []) (str "foo  bar  = abc def =   ghi   " ++ [newline]) []
  = Ok (Some [{| Bounded.key := str "foo  bar";
                 Bounded.value := str "abc def =   ghi" |}], []) /\
  Dynamic.load_line (Some []) (str "foo  bar  = abc def =   ghi   " ++ [newline]) []
  = Ok (Some [Dynamic.pair_of (str "foo  bar") (str "abc def =   ghi")], []).
Proof.
  destruct (load_line_follows_spec
              (str "foo  bar  = abc def =   ghi   " ++ [newline])
              (str "foo  bar ") (str " abc def =   ghi   ") sp newline)
    as (k & v & Hsplit & Hb & Hd); try reflexivity; try discriminate.
  - unfold Bounded.CONFIG_LINE_LENGTH. simpl. lia.
  - rewrite Hb, Hd. vm_compute in Hsplit. injection Hsplit as <- <-.
    repeat split.
Defined.

(** ** The fuel of [settings_load] is enough *)

Lemma strncpy_fuel (dst : buffer) (src : cstring) (n : nat) :
  strncpy dst src n <> OutOfFuel.
Proof. unfold strncpy. destruct (length dst <? n)%nat; discriminate. Qed.

Lemma strncpy_length (dst b : buffer) (src : cstring) (n : nat) :
  strncpy dst src n = Ok b -> length b = length dst.
Proof.
  unfold strncpy. destruct (length dst <? n)%nat eqn:H; [discriminate|].
  apply Nat.ltb_ge in H. intros E. injection E as <-.
  rewrite length_app, cells_length, length_firstn, length_skipn, length_app, repeat_length.
  lia.
Qed.

Ltac fuel_step :=
  match goal with
  | |- bind _ _ <> OutOfFuel => apply bind_fuel; [|intros ? ?]
  | |- Ok _ <> OutOfFuel => discriminate
  | |- Undefined <> OutOfFuel => discriminate
  | |- load _ _ <> OutOfFuel => apply load_fuel
  | |- store _ _ _ <> OutOfFuel => apply store_fuel
  | |- cstr _ <> OutOfFuel => apply cstr_fuel
  | |- strlen _ <> OutOfFuel => apply strlen_fuel
  | |- strncpy _ _ _ <> OutOfFuel => apply strncpy_fuel
  | |- (match ?x with _ => _ end) <> OutOfFuel => destruct x
  end.

Lemma fgets_chars_lengths (n : nat) :
  forall f l r : list ascii,
    fgets_chars n f = (l, r) -> length f = (length l + length r)%nat.
Proof.
  induction n as [|n IH]; intros f l r H; cbn [fgets_chars] in H.
  - injection H as <- <-. reflexivity.
  - destruct f as [|c f]; [injection H as <- <-; reflexivity|].
    destruct (Ascii.eqb c newline); [injection H as <- <-; reflexivity|].
    destruct (fgets_chars n f) as [l' r'] eqn:E. injection H as <- <-.
    apply IH in E. simpl. lia.
Qed.

(** A successful [fgets] takes at least one character from the stream. *)
Lemma fgets_shrinks (size : nat) (f chunk f' : list ascii) :
  fgets size f = Some (chunk, f') ->
  length f = (length chunk + length f')%nat /\ (0 < length chunk)%nat.
Proof.
  unfold fgets. destruct (fgets_chars (size - 1) f) as [l r] eqn:E.
  apply fgets_chars_lengths in E.
  destruct l as [|c l]; [discriminate|]. intros H. injection H as <- <-.
  split; [exact E|simpl; lia].
Qed.

Lemma until_nul_length (s : list ascii) : (length (until_nul s) <= length s)%nat.
Proof.
  induction s as [|c s IH]; cbn [until_nul]; [lia|].
  destruct (Ascii.eqb c NUL); simpl; lia.
Qed.

Lemma strchr_bound (s : cstring) (c : ascii) (p : nat) :
  strchr s c = Some p -> (p < length s)%nat.
Proof.
  revert p. induction s as [|x s IH]; intros p H; cbn [strchr] in H; [discriminate|].
  destruct (Ascii.eqb x c); [injection H as <-; simpl; lia|].
  destruct (strchr s c) as [i|]; [|discriminate].
  injection H as <-. specialize (IH i eq_refl). simpl. lia.
Qed.

Lemma bounded_load_line_fuel (settings : option Bounded.Settings) (line : cstring)
    (h : Heap) :
  Bounded.load_line settings line h <> OutOfFuel.
Proof.
  unfold Bounded.load_line. destruct (strchr line equals) as [p|]; [|discriminate].
  cbv zeta. apply bind_fuel; [apply strncpy_fuel|]. intros k Hk.
  apply strncpy_length in Hk.
  apply bind_fuel; [apply strncpy_fuel|]. intros v Hv.
  apply strncpy_length in Hv.
  apply bind_fuel; [apply store_fuel|]. intros k' Hk'. apply store_length in Hk'.
  apply bind_fuel; [apply store_fuel|]. intros v' Hv'. apply store_length in Hv'.
  rewrite uninit_length in Hk, Hv.
  apply bind_fuel.
  { apply trim_fuel. intros s E. injection E as <-. rewrite Hk', Hk. reflexivity. }
  intros k'' _. apply bind_fuel.
  { apply trim_fuel. intros s E. injection E as <-. rewrite Hv', Hv. reflexivity. }
  intros v'' _. repeat fuel_step.
Qed.

Lemma bounded_load_loop_fuel (fuel : nat) :
  forall (settings : option Bounded.Settings) (f : list ascii) (h : Heap),
    (length f < fuel)%nat ->
    Bounded.load_loop fuel settings f h <> OutOfFuel.
Proof.
  induction fuel as [|fuel IH]; intros settings f h Hfuel; [lia|].
  cbn [Bounded.load_loop].
  destruct (fgets Bounded.CONFIG_LINE_LENGTH f) as [[chunk f']|] eqn:E; [|discriminate].
  apply fgets_shrinks in E. destruct E as [Hlen Hpos].
  apply bind_fuel; [apply bounded_load_line_fuel|].
  intros [settings' h'] _. apply IH. lia.
Qed.

Module DynamicFuel.
Import Dynamic.

Lemma resize_fuel (array : option buffer) (size : Z) (h : Heap) :
  resize array size h <> OutOfFuel.
Proof.
  unfold resize, memory_realloc. cbv zeta.
  apply bind_fuel.
  { destruct array; repeat fuel_step. }
  intros grow _. destruct grow; [|discriminate].
  destruct (memory_malloc h) as [[|] h']; [|discriminate].
  destruct array; repeat fuel_step.
Qed.

Lemma copy_pair_fuel (dk dv : option buffer) (k v : cstring) :
  copy_pair dk dv k v <> OutOfFuel.
Proof. unfold copy_pair. cbv zeta. repeat fuel_step. Qed.

Lemma find_from_fuel (pairs : Settings) (k : option cstring) (pos : nat) :
  find_from pairs k pos <> OutOfFuel.
Proof.
  revert pos. induction pairs as [|p pairs IH]; intros pos; cbn [find_from];
    [discriminate|].
  apply bind_fuel.
  - unfold keys_match. repeat fuel_step.
  - intros m _. destruct m; [discriminate|apply IH].
Qed.

Lemma set_string_fuel (settings : option Settings) (k v : option cstring) (h : Heap) :
  settings_set_string settings k v h <> OutOfFuel.
Proof.
  unfold settings_set_string.
  destruct settings as [s|], k as [k|], v as [v|]; try discriminate.
  apply bind_fuel; [apply find_from_fuel|]. intros found _.
  destruct found as [[i p]|].
  - apply bind_fuel; [apply resize_fuel|]. intros [pk h1] _.
    apply bind_fuel; [apply resize_fuel|]. intros [pv h2] _.
    apply bind_fuel; [apply copy_pair_fuel|]. intros [[r pk'] pv'] _. discriminate.
  - unfold create_pair. apply bind_fuel.
    + destruct (memory_malloc h) as [[|] h0]; [|discriminate].
      apply bind_fuel; [apply resize_fuel|]. intros [pk h1] _.
      apply bind_fuel; [apply resize_fuel|]. intros [pv h2] _.
      apply bind_fuel; [apply copy_pair_fuel|]. intros [[r pk'] pv'] _.
      destruct (r =? 0); discriminate.
    + intros [[p|] h'] _; discriminate.
Qed.

Lemma load_line_fuel (settings : option Settings) (line : cstring) (h : Heap) :
  Z.of_nat (length line) < 2 ^ 64 ->
  load_line settings line h <> OutOfFuel.
Proof.
  intros Hsize. unfold load_line.
  destruct (strchr line equals) as [p|] eqn:Hp; [|discriminate].
  apply strchr_bound in Hp.
  cbv zeta. apply bind_fuel; [apply strncpy_fuel|]. intros k Hk.
  apply strncpy_length in Hk.
  apply bind_fuel; [apply strncpy_fuel|]. intros v Hv.
  apply strncpy_length in Hv.
  apply bind_fuel; [apply store_fuel|]. intros k' Hk'. apply store_length in Hk'.
  apply bind_fuel; [apply store_fuel|]. intros v' Hv'. apply store_length in Hv'.
  rewrite uninit_length in Hk, Hv.
  apply bind_fuel.
  { apply trim_fuel. intros s E. injection E as <-. rewrite Hk', Hk. lia. }
  intros k'' _. apply bind_fuel.
  { apply trim_fuel. intros s E. injection E as <-. rewrite Hv', Hv. lia. }
  intros v'' _. destruct k'' as [bk|], v'' as [bv|]; try discriminate.
  apply bind_fuel; [apply cstr_fuel|]. intros ks _.
  apply bind_fuel; [apply cstr_fuel|]. intros vs _.
  apply bind_fuel; [apply set_string_fuel|]. intros [[r s'] h'] _. discriminate.
Qed.

(** The loop of [get_line] takes characters from the stream only, and
    the line it builds is made of characters it took. *)
Lemma get_line_loop_fuel (fuel : nat) :
  forall (size : nat) (buf : cstring) (f : list ascii) (h : Heap),
    (length f < fuel)%nat ->
    get_line_loop fuel size buf f h <> OutOfFuel /\
    forall (line : cstring) (f' : list ascii) (h' : Heap),
      get_line_loop fuel size buf f h = Ok (line, f', h') ->
      (length f' <= length f)%nat /\
      (length line + length f' <= length buf + length f)%nat.
Proof.
  induction fuel as [|fuel IH]; intros size buf f h Hfuel; [lia|].
  cbn [get_line_loop].
  destruct (strchr buf newline).
  { split; [discriminate|]. intros line f' h' H. injection H as <- <- _. lia. }
  destruct (memory_malloc h) as [[|] h0].
  2:{ split; discriminate. }
  destruct (fgets (size + BUFSIZ - length buf) f) as [[chunk f1]|] eqn:E.
  2:{ split; [discriminate|]. intros line f' h' H. injection H as <- <- _. lia. }
  apply fgets_shrinks in E. destruct E as [Hlen Hpos].
  destruct (IH (size + BUFSIZ)%nat (buf ++ until_nul chunk) f1 h0) as [Hf Hl]; [lia|].
  split; [exact Hf|].
  intros line f' h' H. apply Hl in H. rewrite length_app in H.
  pose proof (until_nul_length chunk). lia.
Qed.

Lemma get_line_fuel (f : list ascii) (h : Heap) :
  get_line f h <> OutOfFuel /\
  forall (line : cstring) (f' : list ascii) (h' : Heap),
    get_line f h = Ok (Some line, f', h') ->
    (length f' < length f)%nat /\ (length line <= length f)%nat.
Proof.
  unfold get_line. destruct (memory_malloc h) as [[|] h0].
  2:{ split; discriminate. }
  destruct (fgets BUFSIZ f) as [[chunk f1]|] eqn:E.
  2:{ split; discriminate. }
  apply fgets_shrinks in E. destruct E as [Hlen Hpos].
  destruct (get_line_loop_fuel (S (length f1)) BUFSIZ (until_nul chunk) f1 h0)
    as [Hf Hl]; [lia|].
  split.
  - apply bind_fuel; [exact Hf|]. intros [[buf f''] h''] _. discriminate.
  - intros line f' h' H.
    destruct (get_line_loop (S (length f1)) BUFSIZ (until_nul chunk) f1 h0)
      as [[[buf f''] h'']| |] eqn:Eloop; cbn [bind] in H; try discriminate.
    injection H as <- <- _. destruct (Hl buf f'' h'' eq_refl) as [Hl1 Hl2].
    pose proof (until_nul_length chunk). lia.
Qed.

Lemma load_loop_fuel (fuel : nat) :
  forall (settings : option Settings) (f : list ascii) (h : Heap),
    Z.of_nat (length f) < 2 ^ 64 ->
    (length f < fuel)%nat ->
    load_loop fuel settings f h <> OutOfFuel.
Proof.
  induction fuel as [|fuel IH]; intros settings f h Hsize Hfuel; [lia|].
  cbn [load_loop].
  destruct (get_line_fuel f h) as [Hf Hl].
  apply bind_fuel; [exact Hf|].
  intros [[line f'] h'] Hget. destruct line as [l|]; [|discriminate].
  destruct (Hl l f' h' Hget) as [Hshrink Hline].
  apply bind_fuel; [apply load_line_fuel; lia|].
  intros [settings' h''] _. apply IH; lia.
Qed.

End DynamicFuel.

(** X6: [settings_load] returns or is undefined, in both variants (for the
    dynamic one, on a file smaller than the address space): the fuel the
    model gives its loops is never used up. *)
Theorem settings_load_fuel (path : option cstring) (fs : FileSystem) (h : Heap) :
  (forall settings : option Bounded.Settings,
      Bounded.settings_load settings path fs h <> OutOfFuel) /\
  (forall settings : option Dynamic.Settings,
      (forall (p : cstring) (f : list ascii),
          path = Some p -> contents fs p = Some f -> Z.of_nat (length f) < 2 ^ 64) ->
      Dynamic.settings_load settings path fs h <> OutOfFuel).
Proof.
  split.
  - intros settings. unfold Bounded.settings_load.
    destruct settings as [s|], path as [p|]; try discriminate.
    unfold fopen_rt. destruct (contents fs p) as [f|]; [|discriminate].
    apply bind_fuel; [apply bounded_load_loop_fuel; lia|].
    intros [s' h'] _. discriminate.
  - intros settings Hsize. unfold Dynamic.settings_load.
    destruct settings as [s|], path as [p|]; try discriminate.
    unfold fopen_rt. destruct (contents fs p) as [f|] eqn:Ef; [|discriminate].
    apply bind_fuel; [apply DynamicFuel.load_loop_fuel; [eauto|lia]|].
    intros [s' h'] _. discriminate.
Qed.

Lemma settings_load_fuel_witness :
  Dynamic.settings_load (Some []) (Some (str "cfg"))
    (single_file (str "cfg") (str "a=b" ++ [newline])) []
  <> OutOfFuel.
Proof.
  apply (proj2 (settings_load_fuel (Some (str "cfg"))
                  (single_file (str "cfg") (str "a=b" ++ [newline])) [])).
  intros p f E. injection E as <-. cbn.
  intros E. injection E as <-. reflexivity.
Defined.

(** ** A new key in the dynamic store *)

Module DynamicFacts.
Import Dynamic.

Lemma uninit_snoc (n : nat) : uninit (S n) = uninit n ++ [None].
Proof. unfold uninit. cbn [repeat]. apply repeat_cons. Qed.

(** [resize(NULL, len)]: a fresh array of [len + 1] bytes with the
    terminator in the last one, or NULL. *)
Lemma resize_null (len : nat) (h : Heap) :
  Z.of_nat len + 1 < 2 ^ 64 ->
  resize None (Z.of_nat len) h
  = Ok (if fst (memory_malloc h) then Some (uninit len ++ [Some NUL]) else None,
        snd (memory_malloc h)).
Proof.
  intros Hlen. unfold resize, memory_realloc. cbn [bind].
  rewrite wrap_small by lia.
  destruct (memory_malloc h) as [[|] h']; cbn [fst snd]; [|reflexivity].
  replace (Z.to_nat (Z.of_nat len + 1)) with (S len) by lia.
  rewrite uninit_snoc.
  replace (Z.of_nat len + 1 - 1) with (Z.of_nat (length (uninit len)))
    by (rewrite uninit_length; lia).
  rewrite wrap_small by (rewrite uninit_length; lia).
  now rewrite store_middle.
Qed.

Lemma strncpy_whole (junk : buffer) (x : option ascii) (k : cstring) :
  length junk = length k ->
  strncpy (junk ++ [x]) k (S (length k)) = Ok (cells k ++ [Some NUL]).
Proof.
  intros Hlen. unfold strncpy. rewrite length_app, Hlen. cbn [length].
  replace (length k + 1 <? S (length k))%nat with false
    by (symmetry; apply Nat.ltb_ge; lia).
  rewrite firstn_app. rewrite firstn_all2 by lia.
  replace (S (length k) - length k)%nat with 1%nat by lia.
  cbn [repeat firstn].
  rewrite skipn_all2 by (rewrite length_app, Hlen; simpl; lia).
  now rewrite app_nil_r, cells_app.
Qed.

(** [copy_pair] into two arrays of the right size. *)
Lemma copy_pair_fitting (jk jv : buffer) (xk xv : option ascii) (k v : cstring) :
  length jk = length k -> length jv = length v ->
  Z.of_nat (length k) + 1 < 2 ^ 64 -> Z.of_nat (length v) + 1 < 2 ^ 64 ->
  copy_pair (Some (jk ++ [xk])) (Some (jv ++ [xv])) k v
  = Ok (1, Some (cells k ++ [Some NUL]), Some (cells v ++ [Some NUL])).
Proof.
  intros Hk Hv Hlk Hlv. unfold copy_pair.
  rewrite !wrap_small by lia.
  replace (Z.to_nat (Z.of_nat (length k) + 1)) with (S (length k)) by lia.
  replace (Z.to_nat (Z.of_nat (length v) + 1)) with (S (length v)) by lia.
  rewrite !strncpy_whole by assumption. cbn [bind].
  replace (Z.of_nat (length k) + 1 - 1) with (Z.of_nat (length (cells k)))
    by (rewrite cells_length; lia).
  replace (Z.of_nat (length v) + 1 - 1) with (Z.of_nat (length (cells v)))
    by (rewrite cells_length; lia).
  rewrite ?wrap_small by (rewrite cells_length; lia).
  now rewrite !store_middle.
Qed.

(** [create_pair]: the pair, when the three allocations succeed, and
    NULL otherwise. *)
Lemma create_pair_result (k v : cstring) (h : Heap) :
  Z.of_nat (length k) + 1 < 2 ^ 64 -> Z.of_nat (length v) + 1 < 2 ^ 64 ->
  exists h' : Heap,
    (create_pair (Some k) (Some v) h = Ok (Some (pair_of k v), h') \/
     create_pair (Some k) (Some v) h = Ok (None, h')) /\
    (generous h = true ->
     create_pair (Some k) (Some v) h = Ok (Some (pair_of k v), h') /\
     generous h' = true).
Proof.
  intros Hk Hv. unfold create_pair.
  pose proof (malloc_generous h) as G0.
  destruct (memory_malloc h) as [ok0 h0]. cbn [fst snd] in G0.
  destruct ok0.
  2:{ exists h0. split; [auto|]. intros H. destruct (G0 H). discriminate. }
  rewrite resize_null by assumption. cbn [bind].
  pose proof (malloc_generous h0) as G1.
  destruct (memory_malloc h0) as [ok1 h1]. cbn [fst snd] in *.
  rewrite resize_null by assumption. cbn [bind].
  pose proof (malloc_generous h1) as G2.
  destruct (memory_malloc h1) as [ok2 h2]. cbn [fst snd] in *.
  exists h2.
  destruct ok1, ok2.
  - rewrite copy_pair_fitting by (auto using uninit_length). cbn [bind].
    change (1 =? 0) with false. cbv iota. unfold pair_of. split; [auto|].
    intros H. split; [reflexivity|].
    destruct (G0 H) as [_ H0]. destruct (G1 H0) as [_ H1]. now destruct (G2 H1).
  - cbn [copy_pair bind]. change (0 =? 0) with true. cbv iota.
    split; [auto|]. intros H. destruct (G0 H) as [_ H0].
    destruct (G1 H0) as [_ H1]. destruct (G2 H1). discriminate.
  - cbn [copy_pair bind]. change (0 =? 0) with true. cbv iota.
    split; [auto|]. intros H. destruct (G0 H) as [_ H0].
    destruct (G1 H0). discriminate.
  - cbn [copy_pair bind]. change (0 =? 0) with true. cbv iota.
    split; [auto|]. intros H. destruct (G0 H) as [_ H0].
    destruct (G1 H0). discriminate.
Qed.

End DynamicFacts.

(** X5: in the dynamic variant a [settings_set_string] for a key the store
    does not hold either appends the pair and returns 1, or returns 0 and
    leaves the store as it was; it appends when no allocation fails. *)
Theorem dynamic_set_string_new_key
    (s : Dynamic.Settings) (k v : cstring) (h : Heap) :
  Dynamic.find_pair (Some s) (Some k) = Ok None ->
  Z.of_nat (length k) + 1 < 2 ^ 64 -> Z.of_nat (length v) + 1 < 2 ^ 64 ->
  exists h' : Heap,
    (Dynamic.settings_set_string (Some s) (Some k) (Some v) h
     = Ok (1, Some (s ++ [Dynamic.pair_of k v]), h') \/
     Dynamic.settings_set_string (Some s) (Some k) (Some v) h
     = Ok (0, Some s, h')) /\
    (generous h = true ->
     Dynamic.settings_set_string (Some s) (Some k) (Some v) h
     = Ok (1, Some (s ++ [Dynamic.pair_of k v]), h')).
Proof.
  intros Hfind Hk Hv. unfold Dynamic.settings_set_string. rewrite Hfind. cbn [bind].
  destruct (DynamicFacts.create_pair_result k v h Hk Hv) as [h' [[E|E] Hgen]].
  - exists h'. rewrite E. cbn [bind]. auto.
  - exists h'. rewrite E. cbn [bind]. split; [auto|].
    intros H. destruct (Hgen H) as [E' _]. rewrite E' in E. discriminate.
Qed.

Lemma dynamic_set_string_new_key_witness :
  exists h' : Heap,
    (Dynamic.settings_set_string (Some [Dynamic.pair_of (str "foo") (str "abc")])
       (Some (str "bar")) (Some (str "def")) [true; false]
     = Ok (1, Some ([Dynamic.pair_of (str "foo") (str "abc")]
                    ++ [Dynamic.pair_of (str "bar") (str "def")]), h') \/
     Dynamic.settings_set_string (Some [Dynamic.pair_of (str "foo") (str "abc")])
       (Some (str "bar")) (Some (str "def")) [true; false]
     = Ok (0, Some [Dynamic.pair_of (str "foo") (str "abc")], h')) /\
    (generous [true; false] = true ->
     Dynamic.settings_set_string (Some [Dynamic.pair_of (str "foo") (str "abc")])
       (Some (str "bar")) (Some (str "def")) [true; false]
     = Ok (1, Some ([Dynamic.pair_of (str "foo") (str "abc")]
                    ++ [Dynamic.pair_of (str "bar") (str "def")]), h')).
Proof.
  apply dynamic_set_string_new_key.
  - reflexivity.
  - reflexivity.
  - reflexivity.
Defined.

(** ** The dynamic store when no allocation fails *)

Module DynamicStore.
Import Dynamic.

Lemma cstr_shape (b : buffer) (k : cstring) :
  cstr b = Ok k ->
  exists rest : buffer, b = cells k ++ Some NUL :: rest /\ is_cstring k = true.
Proof.
  revert k. induction b as [|[c|] b IH]; intros k H; cbn [cstr] in H; try discriminate.
  destruct (Ascii.eqb c NUL) eqn:Hc.
  - injection H as <-. apply Ascii.eqb_eq in Hc. subst c. now exists b.
  - destruct (cstr b) as [s| |]; cbn [bind] in H; try discriminate.
    injection H as <-. destruct (IH s eq_refl) as [rest [-> Hs]].
    exists rest. split; [reflexivity|].
    cbn [is_cstring forallb]. rewrite Hc. exact Hs.
Qed.

Lemma strings_of_shape (p : Pair) (k v : cstring) :
  strings_of p = Some (k, v) ->
  exists jk jv : buffer,
    key p = Some (cells k ++ Some NUL :: jk) /\
    value p = Some (cells v ++ Some NUL :: jv) /\
    is_cstring k = true /\ is_cstring v = true.
Proof.
  unfold strings_of. destruct (key p) as [bk|]; [|discriminate].
  destruct (value p) as [bv|]; [|discriminate].
  destruct (cstr bk) as [k'| |] eqn:Ek; try discriminate.
  destruct (cstr bv) as [v'| |] eqn:Ev; try discriminate.
  intros H. injection H as <- <-.
  destruct (cstr_shape bk k' Ek) as [jk [-> Hk]].
  destruct (cstr_shape bv v' Ev) as [jv [-> Hv]].
  now exists jk, jv.
Qed.

Lemma keys_match_strings (p : Pair) (k0 v0 k : cstring) :
  strings_of p = Some (k0, v0) ->
  keys_match (key p) (Some k) = Ok (cstring_eqb k0 k).
Proof.
  intros H. destruct (strings_of_shape p k0 v0 H) as (jk & jv & Ek & _ & Hk & _).
  unfold keys_match. rewrite Ek. now rewrite cstr_cells.
Qed.

Lemma find_absent (l : Settings) (al : list (cstring * cstring)) (k : cstring) (pos : nat) :
  holds l al -> ~ In k (map fst al) -> find_from l (Some k) pos = Ok None.
Proof.
  intros H. revert pos. induction H as [|p [k0 v0] l al Hp _ IH]; intros pos Hnot.
  - reflexivity.
  - cbn [find_from]. rewrite (keys_match_strings p k0 v0 k Hp). cbn [bind].
    simpl in Hnot. rewrite cstring_eqb_neq by tauto. apply IH. tauto.
Qed.

Lemma find_present (pre post : Settings) (p : Pair)
    (apre : list (cstring * cstring)) (k v0 : cstring) (pos : nat) :
  holds pre apre -> strings_of p = Some (k, v0) -> ~ In k (map fst apre) ->
  find_from (pre ++ p :: post) (Some k) pos = Ok (Some ((pos + length pre)%nat, p)).
Proof.
  intros H. revert pos. induction H as [|q [k1 v1] pre apre Hq _ IH]; intros pos Hp Hnot.
  - cbn [app find_from length]. rewrite (keys_match_strings p k v0 k Hp). cbn [bind].
    now rewrite cstring_eqb_refl, Nat.add_0_r.
  - cbn [app find_from length]. rewrite (keys_match_strings q k1 v1 k Hq). cbn [bind].
    simpl in Hnot. rewrite cstring_eqb_neq by tauto.
    replace (pos + S (length pre))%nat with (S pos + length pre)%nat by lia.
    apply IH; tauto.
Qed.

Lemma holds_split (l : Settings) (apre apost : list (cstring * cstring))
    (kv : cstring * cstring) :
  holds l (apre ++ kv :: apost) ->
  exists (pre post : Settings) (p : Pair),
    l = pre ++ p :: post /\ holds pre apre /\ strings_of p = Some kv /\ holds post apost.
Proof.
  intros H. apply Forall2_app_inv_r in H.
  destruct H as (pre & rest & Hpre & Hrest & ->).
  inversion Hrest as [|p kv' post apost' Hp Hpost]; subst.
  now exists pre, post, p.
Qed.

(** [resize] of the key of a pair that is found: the same string in an
    array of its size. *)
Lemma resize_key (k : cstring) (jk : buffer) (h : Heap) :
  is_cstring k = true -> Z.of_nat (length k) + 1 < 2 ^ 64 ->
  fst (memory_malloc h) = true ->
  resize (Some (cells k ++ Some NUL :: jk)) (Z.of_nat (length k)) h
  = Ok (Some (cells k ++ [Some NUL]), snd (memory_malloc h)).
Proof.
  intros Hk Hsize Hok. unfold resize, memory_realloc.
  rewrite strlen_cells by (auto; lia). cbn [bind].
  rewrite wrap_small by lia.
  replace (Z.of_nat (length k) <=? Z.of_nat (length k) + 1) with true
    by (symmetry; apply Z.leb_le; lia).
  destruct (memory_malloc h) as [ok h']. cbn [fst snd] in *. subst ok.
  replace (Z.to_nat (Z.of_nat (length k) + 1)) with (length (cells k ++ [Some NUL]))
    by (rewrite length_app, cells_length; simpl; lia).
  replace (cells k ++ Some NUL :: jk) with ((cells k ++ [Some NUL]) ++ jk)
    by (now rewrite <- app_assoc).
  rewrite firstn_exact.
  replace (length (cells k ++ [Some NUL]) - length ((cells k ++ [Some NUL]) ++ jk))%nat
    with 0%nat by (rewrite (length_app (cells k ++ [Some NUL]) jk); lia).
  cbn [uninit repeat]. rewrite app_nil_r.
  replace (Z.of_nat (length k) + 1 - 1) with (Z.of_nat (length (cells k)))
    by (rewrite cells_length; lia).
  rewrite wrap_small by (rewrite cells_length; lia).
  now rewrite store_middle.
Qed.

(** [resize] of the value of a pair that is found: an array with room
    for the new value. *)
Lemma resize_value (v0 : cstring) (jv : buffer) (n : nat) (h : Heap) :
  is_cstring v0 = true -> Z.of_nat (length v0) < 2 ^ 64 ->
  Z.of_nat n + 1 < 2 ^ 64 ->
  generous h = true ->
  exists (b : buffer) (h' : Heap),
    resize (Some (cells v0 ++ Some NUL :: jv)) (Z.of_nat n) h = Ok (Some b, h') /\
    (S n <= length b)%nat /\ generous h' = true.
Proof.
  intros Hv0 Hsize0 Hsize Hgen. unfold resize, memory_realloc.
  rewrite strlen_cells by auto. cbn [bind].
  rewrite wrap_small by lia.
  destruct (Z.of_nat (length v0) <=? Z.of_nat n + 1) eqn:Hgrow.
  - destruct (malloc_generous h Hgen) as [Hok Hgen'].
    destruct (memory_malloc h) as [ok h']. cbn [fst snd] in *. subst ok.
    set (b := firstn (Z.to_nat (Z.of_nat n + 1)) (cells v0 ++ Some NUL :: jv)
              ++ uninit (Z.to_nat (Z.of_nat n + 1) - length (cells v0 ++ Some NUL :: jv))).
    assert (Hb : length b = S n).
    { unfold b. rewrite length_app, length_firstn, uninit_length. lia. }
    unfold store. rewrite Hb.
    replace (Z.of_nat n + 1 - 1) with (Z.of_nat n) by lia.
    rewrite wrap_small by lia.
    replace ((Z.of_nat n <? 0) || (Z.of_nat (S n) <=? Z.of_nat n)) with false.
    2:{ symmetry. apply orb_false_iff. split; [apply Z.ltb_ge|apply Z.leb_gt]; lia. }
    exists (update b (Z.to_nat (Z.of_nat n)) (Some NUL)), h'.
    repeat split; auto. rewrite update_length. lia.
  - apply Z.leb_gt in Hgrow.
    exists (cells v0 ++ Some NUL :: jv), h. repeat split; auto.
    rewrite length_app, cells_length. simpl. lia.
Qed.

Lemma strncpy_fits (dst : buffer) (v : cstring) :
  (S (length v) <= length dst)%nat ->
  exists junk : buffer,
    strncpy dst v (S (length v)) = Ok (cells v ++ Some NUL :: junk).
Proof.
  intros Hlen. exists (skipn (S (length v)) dst). unfold strncpy.
  replace (length dst <? S (length v))%nat with false
    by (symmetry; apply Nat.ltb_ge; lia).
  rewrite firstn_app, firstn_all2 by lia.
  replace (S (length v) - length v)%nat with 1%nat by lia.
  cbn [repeat firstn]. now rewrite cells_app, <- app_assoc.
Qed.

Lemma copy_pair_replace (k v : cstring) (b : buffer) :
  (S (length v) <= length b)%nat ->
  Z.of_nat (length k) + 1 < 2 ^ 64 -> Z.of_nat (length v) + 1 < 2 ^ 64 ->
  exists junk : buffer,
    copy_pair (Some (cells k ++ [Some NUL])) (Some b) k v
    = Ok (1, Some (cells k ++ [Some NUL]), Some (cells v ++ Some NUL :: junk)).
Proof.
  intros Hb Hk Hv. destruct (strncpy_fits b v Hb) as [junk Hcopy].
  exists junk. unfold copy_pair. rewrite !wrap_small by lia.
  replace (Z.to_nat (Z.of_nat (length k) + 1)) with (S (length k)) by lia.
  replace (Z.to_nat (Z.of_nat (length v) + 1)) with (S (length v)) by lia.
  rewrite DynamicFacts.strncpy_whole by apply cells_length.
  rewrite Hcopy. cbn [bind].
  replace (Z.of_nat (length k) + 1 - 1) with (Z.of_nat (length (cells k)))
    by (rewrite cells_length; lia).
  replace (Z.of_nat (length v) + 1 - 1) with (Z.of_nat (length (cells v)))
    by (rewrite cells_length; lia).
  now rewrite !store_middle.
Qed.

Lemma last_set_app (a b : list (cstring * cstring)) (k : cstring) :
  last_set (a ++ b) k
  = match last_set a k with Some v => Some v | None => last_set b k end.
Proof.
  unfold last_set. induction a as [|[k0 v0] a IH]; cbn [app find fst]; [reflexivity|].
  destruct (cstring_eqb k0 k); [reflexivity|exact IH].
Qed.

Lemma last_set_absent (a : list (cstring * cstring)) (k : cstring) :
  ~ In k (map fst a) -> last_set a k = None.
Proof.
  unfold last_set. induction a as [|[k0 v0] a IH]; cbn [map find fst];
    intros H; [reflexivity|].
  simpl in H. rewrite cstring_eqb_neq by tauto. apply IH. tauto.
Qed.

Lemma first_occurrence (al : list (cstring * cstring)) (k : cstring) :
  In k (map fst al) ->
  exists (apre apost : list (cstring * cstring)) (v0 : cstring),
    al = apre ++ (k, v0) :: apost /\ ~ In k (map fst apre).
Proof.
  induction al as [|[k0 v0] al IH]; intros Hin; [contradiction|].
  destruct (list_eq_dec ascii_dec k0 k) as [->|Hne].
  - now exists [], al, v0.
  - destruct Hin as [E|Hin]; [contradiction|].
    destruct (IH Hin) as (apre & apost & v1 & -> & Hnot).
    exists ((k0, v0) :: apre), apost, v1. split; [reflexivity|].
    simpl. tauto.
Qed.

Lemma strings_of_new (k v : cstring) (jk jv : buffer) :
  is_cstring k = true -> is_cstring v = true ->
  strings_of {| key := Some (cells k ++ Some NUL :: jk);
                value := Some (cells v ++ Some NUL :: jv) |} = Some (k, v).
Proof.
  intros Hk Hv. unfold strings_of. cbn [key value]. now rewrite !cstr_cells.
Qed.

(** One call, when no allocation fails: it returns 1, and the store
    holds what it held with the value of the key replaced or the pair
    appended. *)
Lemma set_string_generous (l : Settings) (al : list (cstring * cstring))
    (k v : cstring) (h : Heap) :
  store_ok l al ->
  call_ok (Some k, Some v) = true ->
  generous h = true ->
  exists (l' : Settings) (al' : list (cstring * cstring)) (h' : Heap),
    settings_set_string (Some l) (Some k) (Some v) h = Ok (1, Some l', h') /\
    generous h' = true /\ store_ok l' al' /\
    forall k' : cstring,
      last_set al' k' = if cstring_eqb k k' then Some v else last_set al k'.
Proof.
  intros (Hl & Hnd & Hal) Hkv Hgen.
  pose proof Hkv as Hargs. unfold call_ok in Hargs. cbn [fst snd arg_ok] in Hargs.
  apply andb_true_iff in Hargs. destruct Hargs as [Hk Hv].
  apply andb_true_iff in Hk. destruct Hk as [Hck Hlk]. apply Z.ltb_lt in Hlk.
  apply andb_true_iff in Hv. destruct Hv as [Hcv Hlv]. apply Z.ltb_lt in Hlv.
  unfold settings_set_string, find_pair.
  destruct (in_dec (list_eq_dec ascii_dec) k (map fst al)) as [Hin|Hnot].
  - (* the key is in the store *)
    destruct (first_occurrence al k Hin) as (apre & apost & v0 & -> & Hfirst).
    destruct (holds_split l apre apost (k, v0) Hl)
      as (pre & post & p & -> & Hpre & Hp & Hpost).
    rewrite (find_present pre post p apre k v0 0 Hpre Hp Hfirst). cbn [bind].
    destruct (strings_of_shape p k v0 Hp) as (jk & jv & Ek & Ev & _ & Hcv0).
    rewrite Ek, Ev.
    destruct (malloc_generous h Hgen) as [Hok Hgen1].
    rewrite resize_key by assumption. cbn [bind].
    assert (Hlv0 : Z.of_nat (length v0) < 2 ^ 64).
    { rewrite forallb_app in Hal. apply andb_true_iff in Hal. destruct Hal as [_ Hal].
      cbn [forallb] in Hal. apply andb_true_iff in Hal. destruct Hal as [Hal _].
      unfold call_ok in Hal. cbn [fst snd arg_ok] in Hal.
      apply andb_true_iff in Hal. destruct Hal as [_ Hal].
      apply andb_true_iff in Hal. destruct Hal as [_ Hal]. apply Z.ltb_lt in Hal. lia. }
    destruct (resize_value v0 jv (length v) (snd (memory_malloc h)))
      as (b & h2 & Hres & Hb & Hgen2); auto.
    rewrite Hres. cbn [bind].
    destruct (copy_pair_replace k v b Hb Hlk Hlv) as [junk Hcopy].
    rewrite Hcopy. cbn [bind].
    rewrite Nat.add_0_l, update_middle.
    exists (pre ++ {| key := Some (cells k ++ [Some NUL]);
                      value := Some (cells v ++ Some NUL :: junk) |} :: post),
      (apre ++ (k, v) :: apost), h2.
    repeat split; auto.
    + apply Forall2_app; [exact Hpre|]. constructor; [|exact Hpost].
      now apply strings_of_new.
    + rewrite map_app in *. exact Hnd.
    + rewrite forallb_app in *. cbn [forallb] in *.
      apply andb_true_iff in Hal. destruct Hal as [Ha1 Ha2].
      apply andb_true_iff in Ha2. destruct Ha2 as [_ Ha2].
      cbn [fst snd]. now rewrite Ha1, Hkv, Ha2.
    + intros k'. rewrite !last_set_app.
      unfold last_set at 2 4. cbn [find fst snd option_map].
      destruct (cstring_eqb k k') eqn:E.
      * apply cstring_eqb_eq in E. subst k'. now rewrite (last_set_absent apre k Hfirst).
      * reflexivity.
  - (* a new key *)
    rewrite (find_absent l al k 0 Hl Hnot). cbn [bind].
    destruct (DynamicFacts.create_pair_result k v h Hlk Hlv) as [h' [_ Hcreate]].
    destruct (Hcreate Hgen) as [-> Hgen']. cbn [bind].
    exists (l ++ [pair_of k v]), (al ++ [(k, v)]), h'.
    repeat split; auto.
    + apply Forall2_app; [exact Hl|]. constructor; [|constructor].
      now apply strings_of_new.
    + rewrite map_app. cbn [map fst]. apply NoDup_app; auto.
      * constructor; [tauto|constructor].
      * intros x Hx [<-|[]]. contradiction.
    + rewrite forallb_app. cbn [forallb fst snd]. now rewrite Hal, Hkv.
    + intros k'. rewrite last_set_app. unfold last_set at 2.
      cbn [find fst snd option_map].
      destruct (cstring_eqb k k') eqn:E.
      * apply cstring_eqb_eq in E. subst k'. now rewrite (last_set_absent al k Hnot).
      * now destruct (last_set al k').
Qed.

Lemma store_ok_empty : store_ok [] [].
Proof. repeat split; constructor. Qed.

(** The invariant of a sequence of calls whose allocations succeed. *)
Lemma set_all_generous (calls : list (option cstring * option cstring)) :
  forall (l : Settings) (al : list (cstring * cstring)) (h : Heap)
         (log : list (cstring * cstring)),
    store_ok l al ->
    (forall k : cstring, last_set al k = last_set log k) ->
    forallb call_ok calls = true ->
    generous h = true ->
    exists (l' : Settings) (al' : list (cstring * cstring)) (h' : Heap)
           (log' : list (cstring * cstring)),
      set_all calls (Some l) h log = Ok (Some l', h', log') /\
      store_ok l' al' /\
      (forall k : cstring, last_set al' k = last_set log' k).
Proof.
  induction calls as [|[k v] calls IH]; intros l al h log Hok Hlog Hcalls Hgen.
  - now exists l, al, h, log.
  - cbn [forallb] in Hcalls. apply andb_true_iff in Hcalls.
    destruct Hcalls as [Hcall Hcalls]. cbn [set_all].
    destruct k as [k|]; [destruct v as [v|]|].
    + destruct (set_string_generous l al k v h Hok Hcall Hgen)
        as (l' & al' & h' & Hset & Hgen' & Hok' & Hlast).
      rewrite Hset. cbn [bind]. change (1 =? 1) with true. cbv iota.
      apply (IH l' al' h' ((k, v) :: log)); auto.
      intros k'. rewrite Hlast. unfold last_set at 2. cbn [find fst].
      destruct (cstring_eqb k k'); [reflexivity|]. apply Hlog.
    + cbn [settings_set_string bind]. now apply (IH l al h log).
    + cbn [settings_set_string bind]. now apply (IH l al h log).
Qed.

Lemma get_string_held (l : Settings) (al : list (cstring * cstring))
    (k : cstring) (d : option cstring) :
  holds l al ->
  settings_get_string (Some l) (Some k) d
  = Ok (match last_set al k with Some v => Some v | None => d end).
Proof.
  intros Hl. unfold settings_get_string, find_pair.
  destruct (in_dec (list_eq_dec ascii_dec) k (map fst al)) as [Hin|Hnot].
  - destruct (first_occurrence al k Hin) as (apre & apost & v0 & -> & Hfirst).
    destruct (holds_split l apre apost (k, v0) Hl)
      as (pre & post & p & -> & Hpre & Hp & Hpost).
    rewrite (find_present pre post p apre k v0 0 Hpre Hp Hfirst). cbn [bind].
    destruct (strings_of_shape p k v0 Hp) as (jk & jv & _ & Ev & _ & Hcv0).
    rewrite Ev. unfold read_string. rewrite cstr_cells by exact Hcv0. cbn [bind].
    rewrite last_set_app, (last_set_absent apre k Hfirst).
    unfold last_set. cbn [find fst snd option_map]. now rewrite cstring_eqb_refl.
  - rewrite (find_absent l al k 0 Hl Hnot). cbn [bind].
    now rewrite (last_set_absent al k Hnot).
Qed.

End DynamicStore.

(** X7: in the dynamic variant, a sequence of calls of
    [settings_set_string] on an empty store, each with a C string shorter
    than [SIZE_MAX] for its key and its value or with NULL, and with no
    allocation failing, returns; the store then holds a C string in the
    key and value of every pair, no key twice, and
    [settings_get_string] returns for a key the value of the last call
    that set it, or the default when no call did. *)
Theorem dynamic_set_all_unique
    (calls : list (option cstring * option cstring)) (h : Heap) :
  forallb Dynamic.call_ok calls = true ->
  generous h = true ->
  exists (l : Dynamic.Settings) (h' : Heap) (log : list (cstring * cstring)),
    Dynamic.set_all calls (Some []) h [] = Ok (Some l, h', log) /\
    (exists al : list (cstring * cstring),
       Dynamic.holds l al /\ NoDup (map fst al)) /\
    forall (k : cstring) (d : option cstring),
      Dynamic.settings_get_string (Some l) (Some k) d
      = Ok (match last_set log k with Some v => Some v | None => d end).
Proof.
  intros Hcalls Hgen.
  destruct (DynamicStore.set_all_generous calls [] [] h []
              DynamicStore.store_ok_empty (fun _ => eq_refl) Hcalls Hgen)
    as (l & al & h' & log & Hrun & (Hl & Hnd & _) & Hlog).
  exists l, h', log. split; [exact Hrun|]. split.
  - now exists al.
  - intros k d. rewrite (DynamicStore.get_string_held l al k d Hl).
    now rewrite Hlog.
Qed.

Lemma dynamic_set_all_unique_witness :
  exists (l : Dynamic.Settings) (h' : Heap) (log : list (cstring * cstring)),
    Dynamic.set_all
      [(Some (str "a"), Some (str "1")); (Some (str "b"), None);
       (Some (str "a"), Some (str "22"))] (Some []) [] []
    = Ok (Some l, h', log) /\
    (exists al : list (cstring * cstring),
       Dynamic.holds l al /\ NoDup (map fst al)) /\
    forall (k : cstring) (d : option cstring),
      Dynamic.settings_get_string (Some l) (Some k) d
      = Ok (match last_set log k with Some v => Some v | None => d end).
Proof.
  apply (dynamic_set_all_unique
           [(Some (str "a"), Some (str "1")); (Some (str "b"), None);
            (Some (str "a"), Some (str "22"))] []); reflexivity.
Defined.

(** [settings_save] of the dynamic variant returns on a store
    that holds strings. *)
Lemma dynamic_save_loop_total (s : Dynamic.Settings) (f : list ascii) :
  forallb Dynamic.holds_strings s = true ->
  exists data : list ascii, Dynamic.save_loop s f = Ok data.
Proof.
  revert f. induction s as [|p s IH]; intros f H; simpl.
  - now exists f.
  - simpl in H. apply andb_true_iff in H. destruct H as [Hp Hs].
    unfold Dynamic.holds_strings in Hp.
    destruct (Dynamic.key p) as [bk|]; [|discriminate].
    destruct (Dynamic.value p) as [bv|]; [|discriminate].
    apply andb_true_iff in Hp. destruct Hp as [Hk Hv].
    destruct (cstr bk) as [ks| |]; try discriminate.
    destruct (cstr bv) as [vs| |]; try discriminate.
    cbn [bind]. now apply IH.
Qed.

(** * More of the code *)

(** ** The loop body of [settings_load] on any line *)





(** X8: the loop body of [settings_load], on a line with at least two
    characters before its first '=' and at least two after it, calls
    [settings_set_string] with the part before the '=' less its last
    character and the part after it less its last character, both
    trimmed; this in both variants, whatever the two characters are. *)
Theorem load_line_cuts_both_parts (pre post : cstring) (x y : ascii) :
  pre <> [] -> post <> [] ->
  has_char equals (pre ++ [x]) = false ->
  is_cstring (pre ++ x :: equals :: post ++ [y]) = true ->
  (length (pre ++ x :: equals :: post ++ [y]) < Bounded.CONFIG_LINE_LENGTH)%nat ->
  (forall (acc : Bounded.Settings) (h : Heap),
      Bounded.load_line (Some acc) (pre ++ x :: equals :: post ++ [y]) h
      = Ok (snd (fst (Bounded.settings_set_string (Some acc) (Some (trim_spec pre))
                        (Some (trim_spec post)) h)),
            snd (Bounded.settings_set_string (Some acc) (Some (trim_spec pre))
                   (Some (trim_spec post)) h))) /\
  (forall (acc : Dynamic.Settings) (h : Heap),
      Dynamic.load_line (Some acc) (pre ++ x :: equals :: post ++ [y]) h
      = (r <- Dynamic.settings_set_string (Some acc) (Some (trim_spec pre))
                (Some (trim_spec post)) h ;;
         Ok (snd (fst r), snd r))).
Proof.
  intros Hpre Hpost Heq Hline Hlen.
  replace (pre ++ x :: equals :: post ++ [y])
    with ((pre ++ [x]) ++ equals :: post ++ [y]) in *
    by (now rewrite <- app_assoc).
  assert (Hchr : strchr ((pre ++ [x]) ++ equals :: post ++ [y]) equals
                 = Some (length (pre ++ [x]))) by now apply strchr_first.
  rewrite !is_cstring_app in Hline. cbn [is_cstring forallb] in Hline.
  rewrite !andb_true_iff in Hline.
  destruct Hline as [[Hcpre _] [_ Hcpost]].
  fold (is_cstring (post ++ [y])) in Hcpost. rewrite is_cstring_app in Hcpost.
  apply andb_true_iff in Hcpost. destruct Hcpost as [Hcpost _].
  repeat (rewrite length_app in Hlen || (progress cbn [length] in Hlen)).
  unfold Bounded.CONFIG_LINE_LENGTH in Hlen.
  assert (Hval : (length ((pre ++ [x]) ++ equals :: post ++ [y])
                  - length (pre ++ [x]) - 1)%nat = length (post ++ [y])).
  { repeat (rewrite length_app || (progress cbn [length])). lia. }
  split.
  - intros acc h. unfold Bounded.load_line. rewrite Hchr. cbv zeta.
    rewrite Hval, skipn_past.
    rewrite (split_and_trim pre post x y Bounded.CONFIG_LINE_LENGTH
               Bounded.CONFIG_LINE_LENGTH); auto;
      try (unfold Bounded.CONFIG_LINE_LENGTH; lia);
      try apply BoundedLoad.line_length_small.
    now destruct (Bounded.settings_set_string (Some acc) (Some (trim_spec pre))
                    (Some (trim_spec post)) h) as [[r s'] h'].
  - intros acc h. unfold Dynamic.load_line. rewrite Hchr. cbv zeta.
    rewrite Hval, skipn_past.
    rewrite (split_and_trim pre post x y (length (pre ++ [x])) (length (post ++ [y])));
      auto; try (rewrite length_app; cbn [length]; lia).
    destruct (Dynamic.settings_set_string (Some acc) (Some (trim_spec pre))
                (Some (trim_spec post)) h) as [[[r s'] h']| |]; reflexivity.
Qed.

Lemma load_line_cuts_both_parts_witness :
  Bounded.load_line (Some []) (str "name=value") []
  = Ok (Some [{| Bounded.key := str "nam"; Bounded.value := str "valu" |}], []) /\
  Dynamic.load_line (Some []) (str "name=value") []
  = Ok (Some [Dynamic.pair_of (str "nam") (str "valu")], []).
Proof.
  destruct (load_line_cuts_both_parts (str "nam") (str "valu") "e"%char "e"%char)
    as [Hb Hd]; try reflexivity; try discriminate.
  - unfold Bounded.CONFIG_LINE_LENGTH. simpl. lia.
  - split; [apply (Hb [] [])|apply (Hd [] [])].
Defined.



(** ** Removing a key *)

Module BoundedRemove.
Import Bounded BoundedFacts.

(** The pairs whose key is not [k]. *)
Lemma filter_absent (s : Settings) (k : cstring) :
  ~ In k (keys s) -> filter (fun p => negb (cstring_eqb (key p) k)) s = s.
Proof.
  induction s as [|p s IH]; intros H; cbn [filter]; [reflexivity|].
  simpl in H. rewrite cstring_eqb_neq by tauto. cbn [negb]. rewrite IH; tauto.
Qed.

Lemma keys_filter (s : Settings) (k : cstring) :
  forall x : cstring,
    In x (keys (filter (fun p => negb (cstring_eqb (key p) k)) s))
    <-> In x (keys s) /\ x <> k.
Proof.
  intros x. unfold keys. rewrite !in_map_iff. split.
  - intros (p & <- & Hp). apply filter_In in Hp. destruct Hp as [Hin Hne].
    split; [now exists p|]. intros E. rewrite E, cstring_eqb_refl in Hne. discriminate.
  - intros [(p & <- & Hin) Hne]. exists p. split; [reflexivity|].
    apply filter_In. split; [exact Hin|]. now rewrite cstring_eqb_neq.
Qed.

Lemma lookup_filter (s : Settings) (k k' : cstring) :
  lookup (filter (fun p => negb (cstring_eqb (key p) k)) s) k'
  = if cstring_eqb k k' then None else lookup s k'.
Proof.
  unfold lookup. destruct (cstring_eqb k k') eqn:Ek.
  - apply cstring_eqb_eq in Ek. subst k'.
    induction s as [|p s IH]; cbn [filter find]; [reflexivity|].
    destruct (cstring_eqb (key p) k) eqn:E; cbn [negb]; [exact IH|].
    cbn [find]. now rewrite E.
  - induction s as [|p s IH]; cbn [filter find]; [reflexivity|].
    destruct (cstring_eqb (key p) k) eqn:E; cbn [negb].
    + apply cstring_eqb_eq in E. rewrite E, Ek. exact IH.
    + cbn [find]. destruct (cstring_eqb (key p) k'); [reflexivity|exact IH].
Qed.

Lemma valid_filter (s : Settings) (k : cstring) :
  valid_store s -> valid_store (filter (fun p => negb (cstring_eqb (key p) k)) s).
Proof.
  intros [Hv Hnd]. split.
  - rewrite forallb_forall in *. intros p Hp. apply filter_In in Hp. now apply Hv.
  - clear Hv. induction s as [|p s IH]; cbn [filter]; [constructor|].
    inversion Hnd as [|x l Hx Hl]; subst.
    destruct (cstring_eqb (key p) k); cbn [negb]; [now apply IH|].
    cbn [keys map]. constructor; [|now apply IH].
    intros Hin. apply keys_filter in Hin. tauto.
Qed.

(** What [settings_remove] returns and leaves, on a valid store. *)
Lemma remove_result (s : Settings) (k : cstring) :
  valid_store s ->
  settings_remove (Some s) (Some k)
  = (if in_dec (list_eq_dec ascii_dec) k (keys s) then 1 else 0,
     Some (filter (fun p => negb (cstring_eqb (key p) k)) s)).
Proof.
  intros [Hv Hnd]. unfold settings_remove, find_pair.
  destruct (in_dec (list_eq_dec ascii_dec) k (keys s)) as [Hin|Hnot].
  - destruct (find_from s (Some k) 0) as [[i p]|] eqn:Hfind.
    2:{ apply (find_from_none s k 0 Hv) in Hfind. contradiction. }
    destruct (find_from_some s k 0 i p Hv Hfind) as (pre & post & -> & -> & Hk & Hpre).
    cbn [Nat.add]. rewrite firstn_exact, skipn_past.
    rewrite keys_app in Hnd. cbn [keys map] in Hnd. rewrite Hk in Hnd.
    assert (Hpost : ~ In k (keys post)).
    { apply NoDup_remove_2 in Hnd. intros H. apply Hnd. apply in_or_app. now right. }
    rewrite filter_app. cbn [filter]. rewrite Hk, cstring_eqb_refl. cbn [negb].
    now rewrite !filter_absent.
  - apply (find_from_none s k 0 Hv) in Hnot as Hfind. rewrite Hfind.
    now rewrite filter_absent.
Qed.

End BoundedRemove.

(** X10: in the bounded variant, on a store without two pairs of the same
    key, [settings_remove] returns 1 when the store holds the key and 0
    when it does not; it leaves the other pairs in their order, after
    which the key is looked up as the default and every other key as
    before.  With a null store or a null key it returns 0 and changes
    nothing. *)
Theorem bounded_remove (s : Bounded.Settings) (k : cstring) :
  Bounded.valid_store s ->
  let s' := filter (fun p => negb (cstring_eqb (Bounded.key p) k)) s in
  Bounded.settings_remove (Some s) (Some k)
  = (if in_dec (list_eq_dec ascii_dec) k (Bounded.keys s) then 1 else 0, Some s') /\
  Bounded.valid_store s' /\
  (forall d : option cstring, Bounded.settings_get_string (Some s') (Some k) d = d) /\
  (forall (k' : cstring) (d : option cstring),
      k' <> k ->
      Bounded.settings_get_string (Some s') (Some k') d
      = Bounded.settings_get_string (Some s) (Some k') d) /\
  Bounded.settings_remove (Some s) None = (0, Some s) /\
  Bounded.settings_remove None (Some k) = (0, None).
Proof.
  intros Hvalid s'.
  pose proof (BoundedRemove.valid_filter s k Hvalid) as Hvalid'. fold s' in Hvalid'.
  split; [now apply BoundedRemove.remove_result|].
  split; [exact Hvalid'|].
  split; [|split].
  - intros d. rewrite BoundedFacts.get_string_lookup by apply Hvalid'.
    unfold s'. now rewrite BoundedRemove.lookup_filter, cstring_eqb_refl.
  - intros k' d Hne.
    rewrite !BoundedFacts.get_string_lookup by (apply Hvalid' || apply Hvalid).
    unfold s'. rewrite BoundedRemove.lookup_filter.
    now rewrite cstring_eqb_neq by congruence.
  - split; [|reflexivity].
    unfold Bounded.settings_remove, Bounded.find_pair.
    assert (H : forall (l : Bounded.Settings) (pos : nat),
               Bounded.find_from l None pos = None).
    { induction l as [|p l IH]; intros pos; cbn; [reflexivity|apply IH]. }
    now rewrite H.
Qed.

Lemma bounded_remove_witness :
  Bounded.settings_remove
    (Some [{| Bounded.key := str "foo"; Bounded.value := str "1" |};
           {| Bounded.key := str "bar"; Bounded.value := str "2" |};
           {| Bounded.key := str "baz"; Bounded.value := str "3" |}])
    (Some (str "bar"))
  = (1, Some [{| Bounded.key := str "foo"; Bounded.value := str "1" |};
              {| Bounded.key := str "baz"; Bounded.value := str "3" |}]).
Proof.
  refine (proj1 (bounded_remove
            [{| Bounded.key := str "foo"; Bounded.value := str "1" |};
             {| Bounded.key := str "bar"; Bounded.value := str "2" |};
             {| Bounded.key := str "baz"; Bounded.value := str "3" |}]
            (str "bar") _)).
  split; [reflexivity|].
  repeat constructor; simpl; intuition discriminate.
Defined.

(** X11: in the bounded variant, on a store without two pairs of the same
    key, a [settings_set_string] that returns 1 followed by
    [settings_remove] of the same key leaves the store the pairs it had
    under the other keys, in their order: the store as it was, when it
    did not hold the key. *)
Theorem bounded_set_then_remove
    (s s1 : Bounded.Settings) (k v : cstring) (h h1 : Heap) :
  Bounded.valid_store s ->
  Bounded.settings_set_string (Some s) (Some k) (Some v) h = (1, Some s1, h1) ->
  Bounded.settings_remove (Some s1) (Some k)
  = (1, Some (filter (fun p => negb (cstring_eqb (Bounded.key p) k)) s)) /\
  (~ In k (Bounded.keys s) -> Bounded.settings_remove (Some s1) (Some k) = (1, Some s)).
Proof.
  intros Hvalid Hset.
  destruct (BoundedFacts.set_string_success s s1 k v h h1 Hvalid Hset)
    as (Hvalid1 & _ & Hin & Hnew).
  assert (Hres : Bounded.settings_remove (Some s1) (Some k)
                 = (1, Some (filter (fun p => negb (cstring_eqb (Bounded.key p) k)) s))).
  { rewrite (BoundedRemove.remove_result s1 k Hvalid1).
    destruct (in_dec (list_eq_dec ascii_dec) k (Bounded.keys s)) as [Hk|Hk].
    - destruct (Hin Hk) as (pre & post & p & -> & Hp & ->).
      rewrite !filter_app. cbn [filter Bounded.key]. rewrite Hp, cstring_eqb_refl.
      cbn [negb].
      destruct (in_dec (list_eq_dec ascii_dec) k
                  (Bounded.keys (pre ++ {| Bounded.key := k; Bounded.value := v |} :: post)))
        as [_|Hno]; [reflexivity|].
      exfalso. apply Hno. rewrite BoundedFacts.keys_app. apply in_or_app.
      right. now left.
    - rewrite (Hnew Hk), filter_app. cbn [filter Bounded.key].
      rewrite cstring_eqb_refl. cbn [negb]. rewrite app_nil_r.
      destruct (in_dec (list_eq_dec ascii_dec) k
                  (Bounded.keys (s ++ [{| Bounded.key := k; Bounded.value := v |}])))
        as [_|Hno]; [reflexivity|].
      exfalso. apply Hno. rewrite BoundedFacts.keys_app. apply in_or_app.
      right. now left. }
  split; [exact Hres|].
  intros Hk. rewrite Hres. now rewrite BoundedRemove.filter_absent.
Qed.

Lemma bounded_set_then_remove_witness :
  Bounded.settings_remove
    (Some [{| Bounded.key := str "foo"; Bounded.value := str "1" |};
           {| Bounded.key := str "bar"; Bounded.value := str "2" |}])
    (Some (str "bar"))
  = (1, Some [{| Bounded.key := str "foo"; Bounded.value := str "1" |}]).
Proof.
  refine (proj2 (bounded_set_then_remove
            [{| Bounded.key := str "foo"; Bounded.value := str "1" |}]
            _ (str "bar") (str "2") [] [] _ eq_refl) _).
  - split; [reflexivity|]. repeat constructor; simpl; intuition discriminate.
  - simpl. intuition discriminate.
Defined.

Module DynamicRemove.
Import Dynamic DynamicStore.

Lemma holds_app (a b : Settings) (xa xb : list (cstring * cstring)) :
  holds a xa -> holds b xb -> holds (a ++ b) (xa ++ xb).
Proof. apply Forall2_app. Qed.

Lemma filter_strings_absent (al : list (cstring * cstring)) (k : cstring) :
  ~ In k (map fst al) -> filter (fun kv => negb (cstring_eqb (fst kv) k)) al = al.
Proof.
  induction al as [|[k0 v0] al IH]; intros H; cbn [filter fst]; [reflexivity|].
  simpl in H. rewrite cstring_eqb_neq by tauto. cbn [negb]. rewrite IH; tauto.
Qed.

Lemma last_set_filter (al : list (cstring * cstring)) (k k' : cstring) :
  last_set (filter (fun kv => negb (cstring_eqb (fst kv) k)) al) k'
  = if cstring_eqb k k' then None else last_set al k'.
Proof.
  unfold last_set. destruct (cstring_eqb k k') eqn:Ek.
  - apply cstring_eqb_eq in Ek. subst k'.
    induction al as [|[k0 v0] al IH]; cbn [filter find fst]; [reflexivity|].
    destruct (cstring_eqb k0 k) eqn:E; cbn [negb]; [exact IH|].
    cbn [find fst]. now rewrite E.
  - induction al as [|[k0 v0] al IH]; cbn [filter find fst]; [reflexivity|].
    destruct (cstring_eqb k0 k) eqn:E; cbn [negb].
    + apply cstring_eqb_eq in E. rewrite E, Ek. exact IH.
    + cbn [find fst]. destruct (cstring_eqb k0 k'); [reflexivity|exact IH].
Qed.

End DynamicRemove.

(** X12: in the dynamic variant, on a store whose pairs hold strings with
    no key twice, [settings_remove] returns 1 when the store holds the
    key and 0 when it does not, and leaves the other pairs in their
    order; the key is then looked up as the default and every other key
    as before. *)
Theorem dynamic_remove
    (l : Dynamic.Settings) (al : list (cstring * cstring)) (k : cstring) :
  Dynamic.holds l al -> NoDup (map fst al) ->
  exists l' : Dynamic.Settings,
    Dynamic.settings_remove (Some l) (Some k)
    = Ok (if in_dec (list_eq_dec ascii_dec) k (map fst al) then 1 else 0, Some l') /\
    Dynamic.holds l' (filter (fun kv => negb (cstring_eqb (fst kv) k)) al) /\
    (forall d : option cstring,
        Dynamic.settings_get_string (Some l') (Some k) d = Ok d) /\
    (forall (k' : cstring) (d : option cstring),
        k' <> k ->
        Dynamic.settings_get_string (Some l') (Some k') d
        = Dynamic.settings_get_string (Some l) (Some k') d).
Proof.
  intros Hl Hnd.
  assert (Hgoal : exists l' : Dynamic.Settings,
             Dynamic.settings_remove (Some l) (Some k)
             = Ok (if in_dec (list_eq_dec ascii_dec) k (map fst al) then 1 else 0,
                   Some l') /\
             Dynamic.holds l' (filter (fun kv => negb (cstring_eqb (fst kv) k)) al)).
  { unfold Dynamic.settings_remove, Dynamic.find_pair.
    destruct (in_dec (list_eq_dec ascii_dec) k (map fst al)) as [Hin|Hnot].
    - destruct (DynamicStore.first_occurrence al k Hin)
        as (apre & apost & v0 & -> & Hfirst).
      destruct (DynamicStore.holds_split l apre apost (k, v0) Hl)
        as (pre & post & p & -> & Hpre & Hp & Hpost).
      rewrite (DynamicStore.find_present pre post p apre k v0 0 Hpre Hp Hfirst).
      cbn [bind Nat.add]. rewrite firstn_exact, skipn_past.
      exists (pre ++ post). split; [reflexivity|].
      rewrite map_app in Hnd. cbn [map fst] in Hnd.
      assert (Hlast : ~ In k (map fst apost)).
      { apply NoDup_remove_2 in Hnd. intros H. apply Hnd. apply in_or_app. now right. }
      rewrite filter_app. cbn [filter fst]. rewrite cstring_eqb_refl. cbn [negb].
      rewrite !DynamicRemove.filter_strings_absent by assumption.
      now apply DynamicRemove.holds_app.
    - rewrite (DynamicStore.find_absent l al k 0 Hl Hnot). cbn [bind].
      exists l. split; [reflexivity|].
      now rewrite DynamicRemove.filter_strings_absent. }
  destruct Hgoal as (l' & Hrem & Hl').
  exists l'. repeat split; auto.
  - intros d. rewrite (DynamicStore.get_string_held l' _ k d Hl').
    now rewrite DynamicRemove.last_set_filter, cstring_eqb_refl.
  - intros k' d Hne.
    rewrite (DynamicStore.get_string_held l' _ k' d Hl').
    rewrite (DynamicStore.get_string_held l al k' d Hl).
    rewrite DynamicRemove.last_set_filter.
    now rewrite cstring_eqb_neq by congruence.
Qed.

Lemma dynamic_remove_witness :
  exists l' : Dynamic.Settings,
    Dynamic.settings_remove
      (Some [Dynamic.pair_of (str "foo") (str "1"); Dynamic.pair_of (str "bar") (str "2")])
      (Some (str "foo"))
    = Ok (1, Some l') /\
    Dynamic.holds l' [(str "bar", str "2")].
Proof.
  destruct (dynamic_remove
              [Dynamic.pair_of (str "foo") (str "1"); Dynamic.pair_of (str "bar") (str "2")]
              [(str "foo", str "1"); (str "bar", str "2")] (str "foo"))
    as (l' & Hrem & Hl' & _).
  - repeat constructor.
  - repeat constructor; simpl; intuition discriminate.
  - exists l'. split; [exact Hrem|exact Hl'].
Defined.

(** ** Integers in the dynamic store *)

(** Fuel beyond the number of digits changes nothing. *)
Lemma digits_more_fuel (f : nat) :
  forall (g : nat) (n : Z) (acc : cstring),
    (0 < f)%nat -> 0 <= n < 10 ^ Z.of_nat f -> (f <= g)%nat ->
    digits g n acc = digits f n acc.
Proof.
  induction f as [|f IH]; intros g n acc Hf Hn Hg; [lia|].
  destruct g as [|g]; [lia|]. cbn [digits].
  destruct (n <? 10) eqn:Hlt; [reflexivity|].
  apply Z.ltb_ge in Hlt.
  assert (Hdiv : 0 <= n / 10 < 10 ^ Z.of_nat f).
  { split; [apply Z.div_pos; lia|].
    apply Z.div_lt_upper_bound; [lia|].
    rewrite Nat2Z.inj_succ, Z.pow_succ_r in Hn by lia. lia. }
  apply IH; [|exact Hdiv|lia].
  destruct f; [|lia]. simpl in Hdiv.
  assert (1 <= n / 10) by (apply Z.div_le_lower_bound; lia). lia.
Qed.

Lemma isdigit_not_NUL (c : ascii) : isdigit c = true -> Ascii.eqb c NUL = false.
Proof.
  intros H. destruct (Ascii.eqb c NUL) eqn:E; [|reflexivity].
  apply Ascii.eqb_eq in E. subst c. discriminate.
Qed.

Lemma digits_is_cstring (fuel : nat) :
  forall (n : Z) (acc : cstring),
    0 <= n -> is_cstring acc = true -> is_cstring (digits fuel n acc) = true.
Proof.
  induction fuel as [|fuel IH]; intros n acc Hn Hacc; cbn [digits]; [exact Hacc|].
  assert (Hmod : 0 <= n mod 10 < 10) by (apply Z.mod_pos_bound; lia).
  destruct (digit_char_facts (n mod 10) Hmod) as (Hd & _).
  assert (Hacc' : is_cstring (digit_char (n mod 10) :: acc) = true).
  { cbn [is_cstring forallb]. rewrite (isdigit_not_NUL _ Hd). exact Hacc. }
  destruct (n <? 10); [exact Hacc'|].
  apply IH; [apply Z.div_pos; lia|exact Hacc'].
Qed.

Lemma format_d_is_cstring (v : Z) : is_cstring (format_d v) = true.
Proof.
  unfold format_d. destruct (v <? 0) eqn:Hneg.
  - apply Z.ltb_lt in Hneg. cbn [is_cstring forallb].
    change (negb (Ascii.eqb "-" NUL)) with true. cbn [andb].
    apply digits_is_cstring; [lia|reflexivity].
  - apply Z.ltb_ge in Hneg. apply digits_is_cstring; [lia|reflexivity].
Qed.

(** The text of an [int] with at most nine digits and a sign, or ten
    digits, has at most ten characters. *)
Lemma format_d_short (v : Z) :
  -999999999 <= v <= INT_MAX -> (length (format_d v) <= 10)%nat.
Proof.
  unfold INT_MAX. intros Hv. unfold format_d. destruct (v <? 0) eqn:Hneg.
  - apply Z.ltb_lt in Hneg.
    rewrite (digits_more_fuel 9 20) by (try lia; change (10 ^ Z.of_nat 9) with 1000000000; lia).
    destruct (digits_parse 9 (- v) []) as (c & ds & E & _ & _ & _ & _ & Hlen & _).
    { lia. }
    { change (10 ^ Z.of_nat 9) with 1000000000. lia. }
    rewrite E, app_nil_r. simpl in *. lia.
  - apply Z.ltb_ge in Hneg.
    rewrite (digits_more_fuel 10 20)
      by (try lia; change (10 ^ Z.of_nat 10) with 10000000000; lia).
    destruct (digits_parse 10 v []) as (c & ds & E & _ & _ & _ & _ & Hlen & _).
    { lia. }
    { change (10 ^ Z.of_nat 10) with 10000000000. lia. }
    rewrite E, app_nil_r. simpl in *. lia.
Qed.

Lemma get_int_held (l : Dynamic.Settings) (al : list (cstring * cstring))
    (k : cstring) (d : Z) :
  Dynamic.holds l al ->
  Dynamic.settings_get_int (Some l) (Some k) d
  = Ok (match last_set al k with Some v => atoi v | None => d end).
Proof.
  intros Hl. unfold Dynamic.settings_get_int, Dynamic.find_pair.
  destruct (in_dec (list_eq_dec ascii_dec) k (map fst al)) as [Hin|Hnot].
  - destruct (DynamicStore.first_occurrence al k Hin) as (apre & apost & v0 & -> & Hfirst).
    destruct (DynamicStore.holds_split l apre apost (k, v0) Hl)
      as (pre & post & p & -> & Hpre & Hp & Hpost).
    rewrite (DynamicStore.find_present pre post p apre k v0 0 Hpre Hp Hfirst). cbn [bind].
    destruct (DynamicStore.strings_of_shape p k v0 Hp) as (jk & jv & _ & Ev & _ & Hcv0).
    rewrite Ev. rewrite cstr_cells by exact Hcv0. cbn [bind].
    rewrite DynamicStore.last_set_app, (DynamicStore.last_set_absent apre k Hfirst).
    unfold last_set. cbn [find fst snd option_map]. now rewrite cstring_eqb_refl.
  - rewrite (DynamicStore.find_absent l al k 0 Hl Hnot). cbn [bind].
    now rewrite (DynamicStore.last_set_absent al k Hnot).
Qed.

(** X13: in the dynamic variant, when no allocation fails, on a store
    that holds strings with no key twice, [settings_set_int] of a value
    from -999999999 to [INT_MAX] returns 1 and stores the decimal text of
    the value, and [settings_get_int] for that key then returns the
    value, whatever the default. *)
Theorem dynamic_set_int_get_int
    (l : Dynamic.Settings) (al : list (cstring * cstring)) (k : cstring) (v : Z)
    (h : Heap) :
  Dynamic.store_ok l al ->
  Dynamic.arg_ok (Some k) = true ->
  generous h = true ->
  -999999999 <= v <= INT_MAX ->
  exists (l' : Dynamic.Settings) (h' : Heap),
    Dynamic.settings_set_int (Some l) (Some k) v h = Ok (1, Some l', h') /\
    Dynamic.settings_get_string (Some l') (Some k) None = Ok (Some (format_d v)) /\
    forall d : Z, Dynamic.settings_get_int (Some l') (Some k) d = Ok v.
Proof.
  intros Hok Hk Hgen Hv. unfold Dynamic.settings_set_int.
  pose proof (format_d_short v Hv) as Hshort.
  assert (Htext : snprintf_d Dynamic.INT_DIGITS v = format_d v).
  { unfold snprintf_d. apply BoundedFacts.firstn_short.
    change (Dynamic.INT_DIGITS - 1)%nat with 10%nat. exact Hshort. }
  rewrite Htext.
  assert (Hcall : Dynamic.call_ok (Some k, Some (format_d v)) = true).
  { unfold Dynamic.call_ok. cbn [fst snd]. rewrite Hk. cbn [andb Dynamic.arg_ok].
    rewrite format_d_is_cstring. cbn [andb]. apply Z.ltb_lt. lia. }
  destruct (DynamicStore.set_string_generous l al k (format_d v) h Hok Hcall Hgen)
    as (l' & al' & h' & Hset & _ & (Hl' & _) & Hlast).
  exists l', h'. split; [exact Hset|].
  specialize (Hlast k). rewrite cstring_eqb_refl in Hlast. split.
  - rewrite (DynamicStore.get_string_held l' al' k None Hl'). now rewrite Hlast.
  - intros d. rewrite (get_int_held l' al' k d Hl'). rewrite Hlast.
    f_equal. apply atoi_format_d. unfold INT_MIN, INT_MAX in *. lia.
Qed.

Lemma dynamic_set_int_get_int_witness :
  exists (l' : Dynamic.Settings) (h' : Heap),
    Dynamic.settings_set_int (Some []) (Some (str "n")) (-999999999) []
    = Ok (1, Some l', h') /\
    Dynamic.settings_get_string (Some l') (Some (str "n")) None
    = Ok (Some (format_d (-999999999))) /\
    forall d : Z, Dynamic.settings_get_int (Some l') (Some (str "n")) d = Ok (-999999999).
Proof.
  apply (dynamic_set_int_get_int [] [] (str "n") (-999999999) []).
  - apply DynamicStore.store_ok_empty.
  - reflexivity.
  - reflexivity.
  - unfold INT_MAX. lia.
Defined.

(** ** The dynamic store under any allocator *)

Module DynamicSound.
Import Dynamic.

Lemma store_in_bounds (b : buffer) (i : Z) (c : ascii) :
  0 <= i < Z.of_nat (length b) ->
  store b i c = Ok (update b (Z.to_nat i) (Some c)).
Proof.
  intros H. unfold store.
  replace ((i <? 0) || (Z.of_nat (length b) <=? i)) with false; [reflexivity|].
  symmetry. apply orb_false_iff. split; [apply Z.ltb_ge|apply Z.leb_gt]; lia.
Qed.

Lemma resize_key_fails (k : cstring) (jk : buffer) (h : Heap) :
  is_cstring k = true -> Z.of_nat (length k) + 1 < 2 ^ 64 ->
  fst (memory_malloc h) = false ->
  resize (Some (cells k ++ Some NUL :: jk)) (Z.of_nat (length k)) h
  = Ok (None, snd (memory_malloc h)).
Proof.
  intros Hk Hsize Hok. unfold resize, memory_realloc.
  rewrite strlen_cells by (auto; lia). cbn [bind].
  rewrite wrap_small by lia.
  replace (Z.of_nat (length k) <=? Z.of_nat (length k) + 1) with true
    by (symmetry; apply Z.leb_le; lia).
  destruct (memory_malloc h) as [ok h']. cbn [fst snd] in *. now subst ok.
Qed.

(** [resize] of a null or terminated array returns; what it returns is
    null or has room for the string and its terminator. *)
Lemma resize_room (array : option buffer) (n : nat) (h : Heap) :
  terminated array = true -> Z.of_nat n + 1 < 2 ^ 64 ->
  exists (r : option buffer) (h' : Heap),
    resize array (Z.of_nat n) h = Ok (r, h') /\
    forall b : buffer, r = Some b -> (S n <= length b)%nat.
Proof.
  intros Hterm Hsize. unfold resize. rewrite wrap_small by lia.
  assert (Hgrow : forall a : option buffer,
             exists (r : option buffer) (h' : Heap),
               match memory_realloc a (Z.to_nat (Z.of_nat n + 1)) h with
               | (Some a0, h'0) =>
                   a' <- store a0 (wrap (Z.of_nat n + 1 - 1)) NUL ;; Ok (Some a', h'0)
               | (None, h'0) => Ok (None, h'0)
               end = Ok (r, h') /\
               forall b : buffer, r = Some b -> (S n <= length b)%nat).
  { intros a. unfold memory_realloc. destruct (memory_malloc h) as [[|] h'].
    2:{ exists None, h'. split; [reflexivity|discriminate]. }
    replace (Z.of_nat n + 1 - 1) with (Z.of_nat n) by lia.
    rewrite wrap_small by lia.
    set (fresh := match a with
                  | Some a0 => firstn (Z.to_nat (Z.of_nat n + 1)) a0
                               ++ uninit (Z.to_nat (Z.of_nat n + 1) - length a0)
                  | None => uninit (Z.to_nat (Z.of_nat n + 1))
                  end).
    assert (Hlen : length fresh = S n).
    { unfold fresh. destruct a as [a0|].
      - rewrite length_app, length_firstn, uninit_length. lia.
      - rewrite uninit_length. lia. }
    exists (Some (update fresh (Z.to_nat (Z.of_nat n)) (Some NUL))), h'.
    split.
    - destruct a as [a0|]; fold fresh; rewrite store_in_bounds by lia; reflexivity.
    - intros b E. injection E as <-. rewrite update_length. lia. }
  destruct array as [a|].
  - cbn [terminated] in Hterm. destruct (cstr a) as [s| |] eqn:Ea; try discriminate.
    unfold strlen. rewrite Ea. cbn [bind].
    destruct (wrap (Z.of_nat (length s)) <=? Z.of_nat n + 1) eqn:E.
    + apply Hgrow.
    + exists (Some a), h. split; [reflexivity|].
      intros b Eb. injection Eb as <-. apply Z.leb_gt in E.
      destruct (DynamicStore.cstr_shape a s Ea) as [rest [-> _]].
      rewrite length_app, cells_length. cbn [length].
      assert (wrap (Z.of_nat (length s)) <= Z.of_nat (length s)).
      { unfold wrap. apply Z.mod_le; lia. }
      lia.
  - cbn [bind]. apply Hgrow.
Qed.

Lemma sound_new (k v : cstring) (jk jv : buffer) :
  is_cstring k = true -> is_cstring v = true ->
  sound_pair {| key := Some (cells k ++ Some NUL :: jk);
                value := Some (cells v ++ Some NUL :: jv) |} = true.
Proof.
  intros Hk Hv. unfold sound_pair, terminated. cbn [key value].
  now rewrite !cstr_cells.
Qed.

Lemma keys_match_new (k : cstring) (jk : buffer) :
  is_cstring k = true ->
  keys_match (Some (cells k ++ Some NUL :: jk)) (Some k) = Ok true.
Proof.
  intros Hk. unfold keys_match. rewrite cstr_cells by exact Hk. cbn [bind].
  unfold strcmp_eq. now rewrite cstring_eqb_refl.
Qed.

(** What [find_from] does on a sound store: it returns; the pairs
    before the one it returns, or all of them, do not match the key. *)
Lemma find_sound (k : cstring) (s : Settings) :
  forallb sound_pair s = true ->
  forall pos : nat,
    (find_from s (Some k) pos = Ok None /\
     forall (post : Settings) (pos' : nat),
       find_from (s ++ post) (Some k) pos' = find_from post (Some k) (pos' + length s)%nat)
    \/
    (exists (pre post : Settings) (p : Pair) (jk : buffer),
        s = pre ++ p :: post /\
        find_from s (Some k) pos = Ok (Some ((pos + length pre)%nat, p)) /\
        key p = Some (cells k ++ Some NUL :: jk) /\ is_cstring k = true /\
        terminated (value p) = true /\
        forall (post' : Settings) (pos' : nat),
          find_from (pre ++ post') (Some k) pos'
          = find_from post' (Some k) (pos' + length pre)%nat).
Proof.
  induction s as [|p s IH]; intros Hs pos.
  - left. split; [reflexivity|]. intros post pos'. cbn [app length].
    now rewrite Nat.add_0_r.
  - cbn [forallb] in Hs. apply andb_true_iff in Hs. destruct Hs as [Hp Hs].
    assert (Hskip : keys_match (key p) (Some k) = Ok false ->
              (find_from s (Some k) (S pos) = Ok None /\
               forall (post : Settings) (pos' : nat),
                 find_from (s ++ post) (Some k) pos'
                 = find_from post (Some k) (pos' + length s)%nat)
              \/
              (exists (pre post : Settings) (p0 : Pair) (jk : buffer),
                  s = pre ++ p0 :: post /\
                  find_from s (Some k) (S pos) = Ok (Some ((S pos + length pre)%nat, p0)) /\
                  key p0 = Some (cells k ++ Some NUL :: jk) /\ is_cstring k = true /\
                  terminated (value p0) = true /\
                  forall (post' : Settings) (pos' : nat),
                    find_from (pre ++ post') (Some k) pos'
                    = find_from post' (Some k) (pos' + length pre)%nat) ->
              (find_from (p :: s) (Some k) pos = Ok None /\
               forall (post : Settings) (pos' : nat),
                 find_from ((p :: s) ++ post) (Some k) pos'
                 = find_from post (Some k) (pos' + length (p :: s))%nat)
              \/
              (exists (pre post : Settings) (p0 : Pair) (jk : buffer),
                  p :: s = pre ++ p0 :: post /\
                  find_from (p :: s) (Some k) pos = Ok (Some ((pos + length pre)%nat, p0)) /\
                  key p0 = Some (cells k ++ Some NUL :: jk) /\ is_cstring k = true /\
                  terminated (value p0) = true /\
                  forall (post' : Settings) (pos' : nat),
                    find_from (pre ++ post') (Some k) pos'
                    = find_from post' (Some k) (pos' + length pre)%nat)).
    { intros Hno [[Hnone Hall]|(pre & post & p0 & jk & -> & Hfind & Hkey & Hk & Hval & Hall)].
      - left. split.
        + cbn [find_from]. rewrite Hno. cbn [bind]. exact Hnone.
        + intros post pos'. cbn [app find_from length]. rewrite Hno. cbn [bind].
          rewrite Hall. f_equal. lia.
      - right. exists (p :: pre), post, p0, jk. repeat split; auto.
        + cbn [find_from]. rewrite Hno. cbn [bind]. rewrite Hfind.
          cbn [length]. do 3 f_equal. lia.
        + intros post' pos'. cbn [app find_from length]. rewrite Hno. cbn [bind].
          rewrite Hall. f_equal. lia. }
    unfold sound_pair in Hp. destruct (key p) as [bk|] eqn:Ekey.
    2:{ apply Hskip; [reflexivity|apply IH; exact Hs]. }
    apply andb_true_iff in Hp. destruct Hp as [Hk Hv]. cbn [terminated] in Hk.
    destruct (cstr bk) as [k1| |] eqn:Ebk; try discriminate.
    destruct (cstring_eqb k1 k) eqn:E.
    + apply cstring_eqb_eq in E. subst k1.
      destruct (DynamicStore.cstr_shape bk k Ebk) as [jk [-> Hck]].
      right. exists [], s, p, jk. repeat split; auto;
        try (intros post' pos'; cbn [app length]; now rewrite Nat.add_0_r).
      cbn [find_from]. rewrite Ekey, keys_match_new by exact Hck. cbn [bind].
      cbn [length]. now rewrite Nat.add_0_r.
    + apply Hskip; [|apply IH; exact Hs].
      unfold keys_match. rewrite Ebk. cbn [bind]. unfold strcmp_eq. now rewrite E.
Qed.

Lemma sound_update (pre post : Settings) (p q : Pair) :
  forallb sound_pair (pre ++ p :: post) = true -> sound_pair q = true ->
  forallb sound_pair (pre ++ q :: post) = true.
Proof.
  rewrite !forallb_app. cbn [forallb]. rewrite !andb_true_iff.
  intros [Hpre [_ Hpost]] Hq. auto.
Qed.

(** One call of [settings_set_string], whatever the allocator does. *)
Lemma set_string_sound (s : Settings) (k v : cstring) (h : Heap) :
  forallb sound_pair s = true ->
  call_ok (Some k, Some v) = true ->
  exists (r : Z) (s' : Settings) (h' : Heap),
    settings_set_string (Some s) (Some k) (Some v) h = Ok (r, Some s', h') /\
    (r = 0 \/ r = 1) /\
    forallb sound_pair s' = true /\
    (r = 1 ->
     forall d : option cstring,
       settings_get_string (Some s') (Some k) d = Ok (Some v)).
Proof.
  intros Hs Hkv.
  pose proof Hkv as Hargs. unfold call_ok in Hargs. cbn [fst snd arg_ok] in Hargs.
  apply andb_true_iff in Hargs. destruct Hargs as [Hk Hv].
  apply andb_true_iff in Hk. destruct Hk as [Hck Hlk]. apply Z.ltb_lt in Hlk.
  apply andb_true_iff in Hv. destruct Hv as [Hcv Hlv]. apply Z.ltb_lt in Hlv.
  unfold settings_set_string, settings_get_string, find_pair.
  destruct (find_sound k s Hs 0)
    as [[Hnone Hall]|(pre & post & p & jk & -> & Hfind & Hkey & _ & Hval & Hall)].
  - (* a new key *)
    rewrite Hnone. cbn [bind].
    destruct (DynamicFacts.create_pair_result k v h Hlk Hlv) as [h' [[E|E] _]];
      rewrite E; cbn [bind].
    + exists 1, (s ++ [pair_of k v]), h'. repeat split; auto.
      * rewrite forallb_app. cbn [forallb]. rewrite Hs. unfold pair_of.
        now rewrite sound_new.
      * intros _ d. rewrite Hall. cbn [find_from]. unfold pair_of. cbn [key].
        rewrite keys_match_new by exact Hck. cbn [bind value]. unfold read_string.
        now rewrite cstr_cells.
    + exists 0, s, h'. repeat split; auto. intros H. discriminate.
  - (* the key is in the store *)
    rewrite Hfind. cbn [bind]. rewrite Hkey. rewrite Nat.add_0_l.
    destruct (fst (memory_malloc h)) eqn:Hok.
    + rewrite DynamicStore.resize_key by assumption. cbn [bind].
      destruct (resize_room (value p) (length v) (snd (memory_malloc h)) Hval Hlv)
        as (r & h2 & Hres & Hroom).
      rewrite Hres. cbn [bind]. destruct r as [b|].
      * destruct (DynamicStore.copy_pair_replace k v b (Hroom b eq_refl) Hlk Hlv)
          as [junk Hcopy].
        rewrite Hcopy. cbn [bind]. rewrite update_middle.
        exists 1, (pre ++ {| key := Some (cells k ++ [Some NUL]);
                             value := Some (cells v ++ Some NUL :: junk) |} :: post), h2.
        repeat split; auto.
        -- apply (sound_update pre post p); [exact Hs|]. now apply sound_new.
        -- intros _ d. rewrite Hall. cbn [find_from key].
           rewrite keys_match_new by exact Hck. cbn [bind value]. unfold read_string.
           now rewrite cstr_cells.
      * cbn [copy_pair bind]. rewrite update_middle.
        exists 0, (pre ++ {| key := Some (cells k ++ [Some NUL]); value := None |} :: post),
          h2.
        repeat split; auto; [|intros H; discriminate].
        apply (sound_update pre post p); [exact Hs|].
        unfold sound_pair, terminated. cbn [key value]. now rewrite cstr_cells.
    + rewrite resize_key_fails by assumption. cbn [bind].
      destruct (resize_room (value p) (length v) (snd (memory_malloc h)) Hval Hlv)
        as (r & h2 & Hres & _).
      rewrite Hres. cbn [bind copy_pair]. rewrite update_middle.
      exists 0, (pre ++ {| key := None; value := r |} :: post), h2.
      repeat split; auto; [|intros H; discriminate].
      apply (sound_update pre post p); [exact Hs|reflexivity].
Qed.

(** Looking a key up in a sound store returns. *)
Lemma get_string_sound (s : Settings) (k : cstring) (d : option cstring) :
  forallb sound_pair s = true ->
  exists got : option cstring, settings_get_string (Some s) (Some k) d = Ok got.
Proof.
  intros Hs. unfold settings_get_string, find_pair.
  destruct (find_sound k s Hs 0)
    as [[Hnone _]|(pre & post & p & jk & -> & Hfind & _ & _ & Hval & _)].
  - rewrite Hnone. cbn [bind]. now exists d.
  - rewrite Hfind. cbn [bind]. unfold read_string.
    destruct (value p) as [b|]; [|now exists None].
    cbn [terminated] in Hval. destruct (cstr b) as [t| |]; try discriminate.
    cbn [bind]. now exists (Some t).
Qed.

Lemma set_all_sound (calls : list (option cstring * option cstring)) :
  forall (s : Settings) (h : Heap) (log : list (cstring * cstring)),
    forallb sound_pair s = true ->
    forallb call_ok calls = true ->
    exists (s' : Settings) (h' : Heap) (log' : list (cstring * cstring)),
      set_all calls (Some s) h log = Ok (Some s', h', log') /\
      forallb sound_pair s' = true.
Proof.
  induction calls as [|[k v] calls IH]; intros s h log Hs Hcalls.
  - now exists s, h, log.
  - cbn [forallb] in Hcalls. apply andb_true_iff in Hcalls.
    destruct Hcalls as [Hcall Hcalls]. cbn [set_all].
    destruct k as [k|]; [destruct v as [v|]|].
    + destruct (set_string_sound s k v h Hs Hcall) as (r & s' & h' & Hset & _ & Hs' & _).
      rewrite Hset. cbn [bind]. now apply IH.
    + cbn [settings_set_string bind]. now apply IH.
    + cbn [settings_set_string bind]. now apply IH.
Qed.

End DynamicSound.

(** X14: in the dynamic variant, whatever the allocator does, every
    sequence of calls of [settings_set_string] on a store created empty,
    with C strings or null for keys and values, returns, and so does
    every look-up in the store it leaves; a further call returns 0 or 1,
    and when it returns 1 the key is looked up as the value of the
    call. *)
Theorem dynamic_set_string_any_allocator
    (calls : list (option cstring * option cstring)) (k v : cstring) (h : Heap) :
  forallb Dynamic.call_ok calls = true ->
  Dynamic.call_ok (Some k, Some v) = true ->
  exists (l : Dynamic.Settings) (h1 : Heap) (log : list (cstring * cstring)),
    Dynamic.set_all calls (Some []) h [] = Ok (Some l, h1, log) /\
    (forall (k' : cstring) (d : option cstring),
        exists got : option cstring,
          Dynamic.settings_get_string (Some l) (Some k') d = Ok got) /\
    exists (r : Z) (l' : Dynamic.Settings) (h2 : Heap),
      Dynamic.settings_set_string (Some l) (Some k) (Some v) h1 = Ok (r, Some l', h2) /\
      (r = 0 \/ r = 1) /\
      (r = 1 ->
       forall d : option cstring,
         Dynamic.settings_get_string (Some l') (Some k) d = Ok (Some v)).
Proof.
  intros Hcalls Hkv.
  destruct (DynamicSound.set_all_sound calls [] h [] eq_refl Hcalls)
    as (l & h1 & log & Hrun & Hl).
  exists l, h1, log. split; [exact Hrun|]. split.
  - intros k' d. now apply DynamicSound.get_string_sound.
  - destruct (DynamicSound.set_string_sound l k v h1 Hl Hkv)
      as (r & l' & h2 & Hset & Hr & _ & Hget).
    now exists r, l', h2.
Qed.

Lemma dynamic_set_string_any_allocator_witness :
  exists (l : Dynamic.Settings) (h1 : Heap) (log : list (cstring * cstring)),
    Dynamic.set_all
      [(Some (str "foo"), Some (str "abc")); (Some (str "foo"), Some (str "abcdef"))]
      (Some []) [true; true; true; true; false] []
    = Ok (Some l, h1, log) /\
    (forall (k' : cstring) (d : option cstring),
        exists got : option cstring,
          Dynamic.settings_get_string (Some l) (Some k') d = Ok got) /\
    exists (r : Z) (l' : Dynamic.Settings) (h2 : Heap),
      Dynamic.settings_set_string (Some l) (Some (str "foo")) (Some (str "xyz")) h1
      = Ok (r, Some l', h2) /\
      (r = 0 \/ r = 1) /\
      (r = 1 ->
       forall d : option cstring,
         Dynamic.settings_get_string (Some l') (Some (str "foo")) d = Ok (Some (str "xyz"))).
Proof.
  apply (dynamic_set_string_any_allocator
           [(Some (str "foo"), Some (str "abc")); (Some (str "foo"), Some (str "abcdef"))]
           (str "foo") (str "xyz") [true; true; true; true; false]); reflexivity.
Defined.

(** ** Reading lines of any length *)

Lemma strchr_none (c : ascii) (s : cstring) :
  has_char c s = false -> strchr s c = None.
Proof.
  induction s as [|x s IH]; cbn [has_char existsb strchr]; intros H; [reflexivity|].
  apply orb_false_iff in H. destruct H as [Hx Hs].
  rewrite Ascii.eqb_sym, Hx. fold (has_char c s) in Hs. now rewrite IH.
Qed.

(** What [fgets] takes and what it leaves make up the stream. *)
Lemma fgets_chars_split (n : nat) :
  forall f l r : list ascii, fgets_chars n f = (l, r) -> f = l ++ r.
Proof.
  induction n as [|n IH]; intros f l r H; cbn [fgets_chars] in H.
  - injection H as <- <-. reflexivity.
  - destruct f as [|c f]; [injection H as <- <-; reflexivity|].
    destruct (Ascii.eqb c newline); [injection H as <- <-; reflexivity|].
    destruct (fgets_chars n f) as [l' r'] eqn:E. injection H as <- <-.
    apply IH in E. now rewrite E.
Qed.

Lemma fgets_split (size : nat) (f chunk f' : list ascii) :
  fgets size f = Some (chunk, f') -> f = chunk ++ f'.
Proof.
  unfold fgets. destruct (fgets_chars (size - 1) f) as [l r] eqn:E.
  apply fgets_chars_split in E. destruct l; [discriminate|].
  intros H. now injection H as <- <-.
Qed.

(** A line longer than the room: [fgets] takes as much as fits. *)
Lemma fgets_chars_prefix (a b : list ascii) :
  has_char newline a = false -> fgets_chars (length a) (a ++ b) = (a, b).
Proof.
  induction a as [|c a IH]; intros H; [reflexivity|].
  cbn [has_char existsb] in H. apply orb_false_iff in H. destruct H as [Hc Ha].
  cbn [length app fgets_chars]. rewrite Ascii.eqb_sym, Hc.
  fold (has_char newline a) in Ha. now rewrite IH.
Qed.

Lemma fgets_prefix (a b : list ascii) (size : nat) :
  has_char newline a = false -> a <> [] -> size = S (length a) ->
  fgets size (a ++ b) = Some (a, b).
Proof.
  intros Hnl Hne ->. unfold fgets.
  replace (S (length a) - 1)%nat with (length a) by lia.
  rewrite fgets_chars_prefix by exact Hnl. now destruct a.
Qed.

Lemma has_char_until_nul (c : ascii) (s : list ascii) :
  has_char c s = false -> has_char c (until_nul s) = false.
Proof.
  induction s as [|x s IH]; cbn [has_char existsb until_nul]; intros H; [reflexivity|].
  apply orb_false_iff in H. destruct H as [Hx Hs].
  destruct (Ascii.eqb x NUL); [reflexivity|].
  cbn [has_char existsb]. rewrite Hx. now apply IH.
Qed.

Lemma is_cstring_firstn (n : nat) (s : list ascii) :
  is_cstring s = true -> is_cstring (firstn n s) = true.
Proof.
  revert n. induction s as [|c s IH]; intros [|n] H; try reflexivity.
  cbn [is_cstring forallb firstn] in *. apply andb_true_iff in H.
  destruct H as [Hc Hs]. rewrite Hc. now apply IH.
Qed.

Lemma has_char_firstn_skipn (c : ascii) (n : nat) (s : list ascii) :
  has_char c s = false ->
  has_char c (firstn n s) = false /\ has_char c (skipn n s) = false.
Proof.
  intros H. rewrite <- (firstn_skipn n s), has_char_app in H.
  now apply orb_false_iff in H.
Qed.

Lemma has_char_repeat (c x : ascii) (n : nat) :
  Ascii.eqb c x = false -> has_char c (repeat x n) = false.
Proof.
  intros H. induction n as [|n IH]; cbn [repeat has_char existsb]; [reflexivity|].
  rewrite H. exact IH.
Qed.

Lemma is_cstring_repeat (x : ascii) (n : nat) :
  Ascii.eqb x NUL = false -> is_cstring (repeat x n) = true.
Proof.
  intros H. induction n as [|n IH]; cbn [repeat is_cstring forallb]; [reflexivity|].
  rewrite H. exact IH.
Qed.

Module GetLine.
Import Dynamic.

Lemma BUFSIZ_large : (2 <= BUFSIZ)%nat.
Proof. unfold BUFSIZ. lia. Qed.

(** The loop of [get_line] goes on until the newline is read. *)
Lemma loop_reads_line (fuel : nat) :
  forall (size : nat) (buf l rest : list ascii) (h : Heap),
    has_char newline buf = false -> has_char newline l = false ->
    is_cstring l = true -> generous h = true ->
    (length buf < size)%nat -> (length l + 1 < fuel)%nat ->
    exists h' : Heap,
      get_line_loop fuel size buf (l ++ newline :: rest) h
      = Ok (buf ++ l ++ [newline], rest, h') /\
      generous h' = true.
Proof.
  pose proof BUFSIZ_large as HB.
  induction fuel as [|fuel IH]; intros size buf l rest h Hbuf Hl Hcl Hgen Hsize Hfuel;
    [lia|].
  cbn [get_line_loop]. rewrite strchr_none by exact Hbuf.
  destruct (malloc_generous h Hgen) as [Hok Hgen'].
  destruct (memory_malloc h) as [ok h1]. cbn [fst snd] in *. subst ok.
  destruct (Nat.lt_ge_cases (length l + 1) (size + BUFSIZ - length buf)) as [Hfit|Hlong].
  - (* the rest of the line fits *)
    rewrite fgets_line by assumption.
    rewrite until_nul_cstring by (rewrite is_cstring_app, Hcl; reflexivity).
    destruct fuel as [|fuel]; [lia|]. cbn [get_line_loop].
    replace (buf ++ l ++ [newline]) with ((buf ++ l) ++ newline :: [])
      by (rewrite <- app_assoc; reflexivity).
    rewrite strchr_first by (rewrite has_char_app, Hbuf, Hl; reflexivity).
    exists h1. split; [reflexivity|exact Hgen'].
  - (* it does not: the array is grown again *)
    set (n := (size + BUFSIZ - length buf - 1)%nat) in *.
    destruct (has_char_firstn_skipn newline n l Hl) as [Ha Hb].
    assert (Hlen : length (firstn n l) = n) by (rewrite length_firstn; lia).
    assert (El : l ++ newline :: rest
                 = firstn n l ++ (skipn n l ++ newline :: rest))
      by (rewrite app_assoc, firstn_skipn; reflexivity).
    rewrite El.
    rewrite (fgets_prefix (firstn n l)); [|exact Ha| |lia].
    2:{ intros E. rewrite E in Hlen. simpl in Hlen. lia. }
    rewrite until_nul_cstring by (apply is_cstring_firstn; exact Hcl).
    destruct (IH (size + BUFSIZ)%nat (buf ++ firstn n l) (skipn n l) rest h1)
      as [h' [Hrun Hgen'']]; auto.
    + rewrite has_char_app, Hbuf, Ha. reflexivity.
    + rewrite <- (firstn_skipn n l), is_cstring_app in Hcl.
      apply andb_true_iff in Hcl. exact (proj2 Hcl).
    + rewrite length_app, Hlen. lia.
    + rewrite length_skipn. lia.
    + exists h'. split; [|exact Hgen''].
      rewrite Hrun. rewrite <- !app_assoc.
      rewrite (app_assoc (firstn n l)), firstn_skipn. reflexivity.
Qed.

(** The loop of [get_line] on any stream, when no allocation fails: it
    returns, with characters of the stream only, and what is left of the
    stream is no longer than it was. *)
Lemma loop_returns (fuel : nat) :
  forall (size : nat) (buf f : list ascii) (h : Heap),
    generous h = true -> (length f < fuel)%nat ->
    exists (buf' f' : list ascii) (h' : Heap),
      get_line_loop fuel size buf f h = Ok (buf', f', h') /\
      generous h' = true /\ (length f' <= length f)%nat /\
      forall c : ascii,
        has_char c buf = false -> has_char c f = false ->
        has_char c buf' = false /\ has_char c f' = false.
Proof.
  induction fuel as [|fuel IH]; intros size buf f h Hgen Hfuel; [lia|].
  cbn [get_line_loop].
  destruct (strchr buf newline); [exists buf, f, h; split; [reflexivity|]; split; [exact Hgen|];
     split; [lia|]; intros c Hb Hf; split; assumption|].
  destruct (malloc_generous h Hgen) as [Hok Hgen'].
  destruct (memory_malloc h) as [ok h1]. cbn [fst snd] in *. subst ok.
  destruct (fgets (size + BUFSIZ - length buf) f) as [[chunk f']|] eqn:E;
    [|exists buf, f, h1; split; [reflexivity|]; split; [exact Hgen'|];
      split; [lia|]; intros c Hb Hf; split; assumption].
  pose proof (fgets_split _ _ _ _ E) as Hsplit.
  apply fgets_shrinks in E. destruct E as [Hlen Hpos].
  destruct (IH (size + BUFSIZ)%nat (buf ++ until_nul chunk) f' h1 Hgen')
    as (buf' & f'' & h' & Hrun & Hgen'' & Hle & Hchars); [lia|].
  exists buf', f'', h'.
  split; [exact Hrun|]. split; [exact Hgen''|]. split; [lia|].
  intros c Hbuf Hf. rewrite Hsplit, has_char_app in Hf.
  apply orb_false_iff in Hf. destruct Hf as [Hchunk Hf'].
  apply Hchars; [|exact Hf'].
  rewrite has_char_app, Hbuf. apply has_char_until_nul. exact Hchunk.
Qed.

(** [get_line] on any stream, when no allocation fails. *)
Lemma get_line_returns (f : list ascii) (h : Heap) :
  generous h = true ->
  exists (line : option cstring) (f' : list ascii) (h' : Heap),
    get_line f h = Ok (line, f', h') /\ generous h' = true /\
    match line with
    | None => True
    | Some l =>
        (length f' < length f)%nat /\
        forall c : ascii, has_char c f = false ->
                          has_char c l = false /\ has_char c f' = false
    end.
Proof.
  intros Hgen. unfold get_line.
  destruct (malloc_generous h Hgen) as [Hok Hgen'].
  destruct (memory_malloc h) as [ok h1]. cbn [fst snd] in *. subst ok.
  destruct (fgets BUFSIZ f) as [[chunk f']|] eqn:E; [|exists None, f, h1; split; [reflexivity|]; split; [exact Hgen'|exact I]].
  pose proof (fgets_split _ _ _ _ E) as Hsplit.
  apply fgets_shrinks in E. destruct E as [Hlen Hpos].
  destruct (loop_returns (S (length f')) BUFSIZ (until_nul chunk) f' h1 Hgen')
    as (buf & f'' & h' & Hrun & Hgen'' & Hle & Hchars); [lia|].
  rewrite Hrun. cbn [bind]. exists (Some buf), f'', h'.
  split; [reflexivity|]. split; [exact Hgen''|]. split; [lia|].
  intros c Hf. rewrite Hsplit, has_char_app in Hf. apply orb_false_iff in Hf.
  destruct Hf as [Hchunk Hf']. apply Hchars; [|exact Hf'].
  apply has_char_until_nul. exact Hchunk.
Qed.

Lemma get_line_line (l rest : list ascii) (h : Heap) :
  has_char newline l = false -> is_cstring l = true -> generous h = true ->
  exists h' : Heap,
    get_line (l ++ newline :: rest) h = Ok (Some (l ++ [newline]), rest, h') /\
    generous h' = true.
Proof.
  intros Hl Hcl Hgen. pose proof BUFSIZ_large as HB. unfold get_line.
  destruct (malloc_generous h Hgen) as [Hok Hgen'].
  destruct (memory_malloc h) as [ok h1]. cbn [fst snd] in *. subst ok.
  destruct (Nat.lt_ge_cases (length l + 1) BUFSIZ) as [Hfit|Hlong].
  - rewrite fgets_line by assumption.
    rewrite until_nul_cstring by (rewrite is_cstring_app, Hcl; reflexivity).
    cbn [get_line_loop].
    rewrite strchr_first by exact Hl. cbn [bind]. exists h1. split; [reflexivity|exact Hgen'].
  - set (n := (BUFSIZ - 1)%nat) in *.
    destruct (has_char_firstn_skipn newline n l Hl) as [Ha Hb].
    assert (Hlen : length (firstn n l) = n) by (rewrite length_firstn; lia).
    assert (El : l ++ newline :: rest
                 = firstn n l ++ (skipn n l ++ newline :: rest))
      by (rewrite app_assoc, firstn_skipn; reflexivity).
    rewrite El.
    rewrite (fgets_prefix (firstn n l)); [|exact Ha| |lia].
    2:{ intros E. rewrite E in Hlen. simpl in Hlen. lia. }
    rewrite until_nul_cstring by (apply is_cstring_firstn; exact Hcl).
    destruct (loop_reads_line (S (length (skipn n l ++ newline :: rest))) BUFSIZ
                (firstn n l) (skipn n l) rest h1)
      as [h' [Hrun Hgen'']]; auto.
    + rewrite <- (firstn_skipn n l), is_cstring_app in Hcl.
      apply andb_true_iff in Hcl. exact (proj2 Hcl).
    + lia.
    + rewrite length_app. cbn [length]. lia.
    + rewrite Hrun. cbn [bind]. exists h'. split; [|exact Hgen''].
      rewrite app_assoc, firstn_skipn. reflexivity.
Qed.

Lemma fgets_chars_all (l : list ascii) (n : nat) :
  has_char newline l = false -> (length l <= n)%nat -> fgets_chars n l = (l, []).
Proof.
  revert n. induction l as [|c l IH]; intros n Hnl Hlen.
  - destruct n; reflexivity.
  - destruct n as [|n]; [simpl in Hlen; lia|].
    cbn [has_char existsb] in Hnl. apply orb_false_iff in Hnl. destruct Hnl as [Hc Hl].
    cbn [fgets_chars]. rewrite Ascii.eqb_sym, Hc. fold (has_char newline l) in Hl.
    rewrite IH; [reflexivity|exact Hl|simpl in Hlen; lia].
Qed.

Lemma fgets_all (l : list ascii) (size : nat) :
  has_char newline l = false -> l <> [] -> (length l < size)%nat ->
  fgets size l = Some (l, []).
Proof.
  intros Hnl Hne Hlen. unfold fgets.
  rewrite fgets_chars_all by (auto; lia). destruct l; [contradiction|reflexivity].
Qed.

(** The loop of [get_line] on a last line without newline: it goes on
    to the end of the file. *)
Lemma loop_reads_rest (fuel : nat) :
  forall (size : nat) (buf l : list ascii) (h : Heap),
    has_char newline buf = false -> has_char newline l = false ->
    is_cstring l = true -> generous h = true ->
    (length buf < size)%nat -> (length l < fuel)%nat ->
    exists h' : Heap,
      get_line_loop fuel size buf l h = Ok (buf ++ l, [], h') /\ generous h' = true.
Proof.
  pose proof BUFSIZ_large as HB.
  induction fuel as [|fuel IH]; intros size buf l h Hbuf Hl Hcl Hgen Hsize Hfuel;
    [lia|].
  cbn [get_line_loop]. rewrite strchr_none by exact Hbuf.
  destruct (malloc_generous h Hgen) as [Hok Hgen'].
  destruct (memory_malloc h) as [ok h1]. cbn [fst snd] in *. subst ok.
  destruct l as [|c l].
  { exists h1. rewrite app_nil_r. split; [|exact Hgen'].
    unfold fgets. destruct (size + BUFSIZ - length buf - 1)%nat; reflexivity. }
  destruct (Nat.lt_ge_cases (length (c :: l)) (size + BUFSIZ - length buf)) as [Hfit|Hlong].
  - rewrite fgets_all by (auto; discriminate).
    rewrite until_nul_cstring by exact Hcl.
    destruct (IH (size + BUFSIZ)%nat (buf ++ c :: l) [] h1) as [h' [Hrun Hgen'']]; auto.
    + rewrite has_char_app, Hbuf, Hl. reflexivity.
    + rewrite length_app. lia.
    + simpl in Hfuel |- *. lia.
    + exists h'. split; [|exact Hgen'']. rewrite Hrun, app_nil_r. reflexivity.
  - set (n := (size + BUFSIZ - length buf - 1)%nat) in *.
    set (l0 := c :: l) in *.
    destruct (has_char_firstn_skipn newline n l0 Hl) as [Ha Hb].
    assert (Hlen : length (firstn n l0) = n) by (rewrite length_firstn; lia).
    replace (fgets (size + BUFSIZ - length buf) l0)
      with (fgets (size + BUFSIZ - length buf) (firstn n l0 ++ skipn n l0))
      by (rewrite firstn_skipn; reflexivity).
    rewrite (fgets_prefix (firstn n l0)); [|exact Ha| |lia].
    2:{ intros E. rewrite E in Hlen. simpl in Hlen. lia. }
    rewrite until_nul_cstring by (apply is_cstring_firstn; exact Hcl).
    destruct (IH (size + BUFSIZ)%nat (buf ++ firstn n l0) (skipn n l0) h1)
      as [h' [Hrun Hgen'']]; auto.
    + rewrite has_char_app, Hbuf, Ha. reflexivity.
    + rewrite <- (firstn_skipn n l0), is_cstring_app in Hcl.
      apply andb_true_iff in Hcl. exact (proj2 Hcl).
    + rewrite length_app, Hlen. lia.
    + rewrite length_skipn. lia.
    + exists h'. split; [|exact Hgen''].
      rewrite Hrun, <- app_assoc, firstn_skipn. reflexivity.
Qed.

Lemma get_line_last (l : list ascii) (h : Heap) :
  l <> [] -> has_char newline l = false -> is_cstring l = true -> generous h = true ->
  exists h' : Heap,
    get_line l h = Ok (Some l, [], h') /\ generous h' = true.
Proof.
  intros Hne Hl Hcl Hgen. pose proof BUFSIZ_large as HB. unfold get_line.
  destruct (malloc_generous h Hgen) as [Hok Hgen'].
  destruct (memory_malloc h) as [ok h1]. cbn [fst snd] in *. subst ok.
  destruct (Nat.lt_ge_cases (length l) BUFSIZ) as [Hfit|Hlong].
  - rewrite fgets_all by assumption.
    rewrite until_nul_cstring by exact Hcl.
    destruct (loop_reads_rest 1 BUFSIZ l [] h1) as [h' [Hrun Hgen'']]; auto.
    cbn [length]. rewrite Hrun. cbn [bind]. exists h'. rewrite app_nil_r.
    split; [reflexivity|exact Hgen''].
  - set (n := (BUFSIZ - 1)%nat) in *.
    destruct (has_char_firstn_skipn newline n l Hl) as [Ha Hb].
    assert (Hlen : length (firstn n l) = n) by (rewrite length_firstn; lia).
    replace (fgets BUFSIZ l) with (fgets BUFSIZ (firstn n l ++ skipn n l))
      by (rewrite firstn_skipn; reflexivity).
    rewrite (fgets_prefix (firstn n l)); [|exact Ha| |lia].
    2:{ intros E. rewrite E in Hlen. simpl in Hlen. lia. }
    rewrite until_nul_cstring by (apply is_cstring_firstn; exact Hcl).
    destruct (loop_reads_rest (S (length (skipn n l))) BUFSIZ (firstn n l) (skipn n l) h1)
      as [h' [Hrun Hgen'']]; auto.
    + rewrite <- (firstn_skipn n l), is_cstring_app in Hcl.
      apply andb_true_iff in Hcl. exact (proj2 Hcl).
    + lia.
    + rewrite Hrun. cbn [bind]. exists h'. rewrite firstn_skipn.
      split; [reflexivity|exact Hgen''].
Qed.

End GetLine.

(** X15: [get_line] of the dynamic variant, when no allocation fails,
    returns the whole next line with its newline, however long the line
    is, and leaves the stream after the newline; a last line without
    newline is returned as it is; at the end of the file, and when its
    first allocation fails, it returns null; when the line does not fit
    the first array and the allocation that grows it fails, the call is
    undefined (it reads into the null pointer). *)
Theorem get_line_reads_whole_line (l rest : list ascii) (h : Heap) :
  has_char newline l = false -> is_cstring l = true -> generous h = true ->
  (exists h' : Heap,
      Dynamic.get_line (l ++ newline :: rest) h = Ok (Some (l ++ [newline]), rest, h') /\
      generous h' = true) /\
  (l <> [] ->
   exists h' : Heap,
     Dynamic.get_line l h = Ok (Some l, [], h') /\ generous h' = true) /\
  Dynamic.get_line [] h = Ok (None, [], snd (memory_malloc h)) /\
  Dynamic.get_line (l ++ newline :: rest) (false :: h)
  = Ok (None, l ++ newline :: rest, h) /\
  ((Dynamic.BUFSIZ <= length l + 1)%nat ->
   Dynamic.get_line (l ++ newline :: rest) (true :: false :: h) = Undefined).
Proof.
  intros Hl Hcl Hgen. split; [apply GetLine.get_line_line; assumption|].
  split; [intros Hne; apply GetLine.get_line_last; assumption|]. split; [|split].
  - unfold Dynamic.get_line. destruct (memory_malloc h) as [[|] h1]; reflexivity.
  - reflexivity.
  - intros Hlong. pose proof GetLine.BUFSIZ_large as HB.
    unfold Dynamic.get_line. cbn [memory_malloc].
    set (n := (Dynamic.BUFSIZ - 1)%nat) in *.
    destruct (has_char_firstn_skipn newline n l Hl) as [Ha Hb].
    assert (Hlen : length (firstn n l) = n) by (rewrite length_firstn; lia).
    assert (El : l ++ newline :: rest
                 = firstn n l ++ (skipn n l ++ newline :: rest))
      by (rewrite app_assoc, firstn_skipn; reflexivity).
    rewrite El.
    rewrite (fgets_prefix (firstn n l)); [|exact Ha| |lia].
    2:{ intros E. rewrite E in Hlen. simpl in Hlen. lia. }
    rewrite until_nul_cstring by (apply is_cstring_firstn; exact Hcl).
    cbn [Dynamic.get_line_loop]. rewrite strchr_none by exact Ha.
    reflexivity.
Qed.

Lemma get_line_reads_whole_line_witness :
  exists h' : Heap,
    Dynamic.get_line (repeat "x"%char (Z.to_nat 20000) ++ newline :: str "next") []
    = Ok (Some (repeat "x"%char (Z.to_nat 20000) ++ [newline]), str "next", h') /\
    generous h' = true.
Proof.
  apply (proj1 (get_line_reads_whole_line (repeat "x"%char (Z.to_nat 20000))
                  (str "next") [] ltac:(apply has_char_repeat; reflexivity)
                  ltac:(apply is_cstring_repeat; reflexivity) eq_refl)).
Defined.

(** ** Files without an equals sign *)

Lemma bounded_load_no_equals (fuel : nat) :
  forall (settings : option Bounded.Settings) (f : list ascii) (h : Heap),
    has_char equals f = false -> (length f < fuel)%nat ->
    Bounded.load_loop fuel settings f h = Ok (settings, h).
Proof.
  induction fuel as [|fuel IH]; intros settings f h Hf Hfuel; [lia|].
  cbn [Bounded.load_loop].
  destruct (fgets Bounded.CONFIG_LINE_LENGTH f) as [[chunk f']|] eqn:E; [|reflexivity].
  pose proof (fgets_split _ _ _ _ E) as Hsplit.
  apply fgets_shrinks in E. destruct E as [Hlen Hpos].
  rewrite Hsplit, has_char_app in Hf. apply orb_false_iff in Hf.
  destruct Hf as [Hchunk Hf'].
  unfold Bounded.load_line.
  rewrite strchr_none by (now apply has_char_until_nul). cbn [bind].
  apply IH; [exact Hf'|lia].
Qed.

Lemma dynamic_load_no_equals (fuel : nat) :
  forall (settings : option Dynamic.Settings) (f : list ascii) (h : Heap),
    has_char equals f = false -> generous h = true -> (length f < fuel)%nat ->
    exists h' : Heap,
      Dynamic.load_loop fuel settings f h = Ok (settings, h') /\ generous h' = true.
Proof.
  induction fuel as [|fuel IH]; intros settings f h Hf Hgen Hfuel; [lia|].
  cbn [Dynamic.load_loop].
  destruct (GetLine.get_line_returns f h Hgen) as (line & f' & h1 & -> & Hgen1 & Hline).
  cbn [bind]. destruct line as [l|]; [|now exists h1].
  destruct Hline as [Hlen Hchars]. destruct (Hchars equals Hf) as [Hl Hf'].
  unfold Dynamic.load_line. rewrite strchr_none by exact Hl. cbn [bind].
  apply IH; [exact Hf'|exact Hgen1|lia].
Qed.

(** X16: [settings_load] of a file without any '=' returns 1 and leaves
    the store as it was, whatever else the file holds: in the bounded
    variant for every allocator (none of its calls is made), in the
    dynamic variant when no allocation fails. *)
Theorem load_file_without_equals
    (path : cstring) (f : list ascii) (fs : FileSystem) (h : Heap) :
  contents fs path = Some f -> has_char equals f = false ->
  (forall s : Bounded.Settings,
      Bounded.settings_load (Some s) (Some path) fs h = Ok (1, Some s, h)) /\
  (forall s : Dynamic.Settings,
      generous h = true ->
      exists h' : Heap,
        Dynamic.settings_load (Some s) (Some path) fs h = Ok (1, Some s, h')).
Proof.
  intros Hfile Hf. split.
  - intros s. unfold Bounded.settings_load, fopen_rt. rewrite Hfile.
    rewrite bounded_load_no_equals by (auto; lia). reflexivity.
  - intros s Hgen. unfold Dynamic.settings_load, fopen_rt. rewrite Hfile.
    destruct (dynamic_load_no_equals (S (length f)) (Some s) f h Hf Hgen) as [h' [-> _]];
      [lia|].
    now exists h'.
Qed.

Lemma load_file_without_equals_witness :
  Bounded.settings_load
    (Some [{| Bounded.key := str "foo"; Bounded.value := str "abc" |}])
    (Some (str "cfg"))
    (single_file (str "cfg") (str "# a comment" ++ newline :: newline :: str "no newline"))
    [false]
  = Ok (1, Some [{| Bounded.key := str "foo"; Bounded.value := str "abc" |}], [false]).
Proof.
  apply (proj1 (load_file_without_equals (str "cfg")
                  (str "# a comment" ++ newline :: newline :: str "no newline")
                  (single_file (str "cfg")
                     (str "# a comment" ++ newline :: newline :: str "no newline"))
                  [false] eq_refl eq_refl)).
Defined.

(** ** Saving and loading the dynamic store *)

Module DynamicLoad.
Import Dynamic.

Lemma portable_strings_facts (k v : cstring) :
  portable_strings (k, v) = true ->
  is_cstring k = true /\ is_cstring v = true /\
  has_char equals k = false /\
  has_char newline k = false /\ has_char newline v = false /\
  trimmed k = true /\ trimmed v = true /\
  k <> [] /\ Z.of_nat (length k + length v) + 5 < 2 ^ 64.
Proof.
  unfold portable_strings. cbn [fst snd]. rewrite !andb_true_iff, !negb_true_iff.
  intros [[[[[[[[H1 H2] H3] H4] H5] H6] H7] H8] H9].
  repeat split; auto.
  - intros E. rewrite E in H8. discriminate.
  - now apply Z.ltb_lt.
Qed.

Lemma line_split (k v : cstring) :
  line_of_strings (k, v) = (k ++ [sp]) ++ equals :: (sp :: v) ++ [newline].
Proof.
  unfold line_of_strings. cbn [fst snd].
  change (str " = ") with ([sp] ++ equals :: [sp]).
  now rewrite <- !app_assoc.
Qed.

(** The file [settings_save] writes holds the lines of the pairs in the
    order of the list. *)
Lemma save_loop_data (l : Settings) (al : list (cstring * cstring)) :
  holds l al ->
  forall f : list ascii,
    save_loop l f = Ok (f ++ concat (map line_of_strings al)).
Proof.
  intros H. induction H as [|p [k v] l al Hp _ IH]; intros f.
  - cbn [save_loop map concat]. now rewrite app_nil_r.
  - destruct (DynamicStore.strings_of_shape p k v Hp) as (jk & jv & Ek & Ev & Hk & Hv).
    cbn [save_loop]. rewrite Ek, Ev, !cstr_cells by assumption. cbn [bind].
    rewrite IH. cbn [map concat]. unfold fprintf_pair, line_of_strings. cbn [fst snd].
    now rewrite <- !app_assoc.
Qed.

(** One saved line, read back: the pair is appended to the store. *)
Lemma load_line_saved (acc : Settings) (aacc : list (cstring * cstring))
    (k v : cstring) (h : Heap) :
  portable_strings (k, v) = true -> holds acc aacc ->
  ~ In k (map fst aacc) -> generous h = true ->
  exists h' : Heap,
    load_line (Some acc) (line_of_strings (k, v)) h
    = Ok (Some (acc ++ [pair_of k v]), h') /\
    generous h' = true.
Proof.
  intros Hp Hacc Hnot Hgen.
  destruct (portable_strings_facts k v Hp)
    as (Hck & Hcv & Heq & Hnk & Hnv & Htk & Htv & Hne & Hsize).
  unfold load_line. rewrite line_split.
  rewrite strchr_first by (rewrite has_char_app, Heq; reflexivity).
  cbv zeta.
  replace (length ((k ++ [sp]) ++ equals :: (sp :: v) ++ [newline])
           - length (k ++ [sp]) - 1)%nat
    with (length ((sp :: v) ++ [newline]))
    by (repeat (rewrite length_app || (progress simpl length)); lia).
  rewrite skipn_past.
  destruct (split_part k sp (equals :: (sp :: v) ++ [newline]) (length (k ++ [sp])))
    as [jk [Ek1 Ek2]];
    [rewrite length_app; simpl length; lia | rewrite length_app; simpl length; lia |].
  destruct (split_part (sp :: v) newline [] (length ((sp :: v) ++ [newline])))
    as [jv [Ev1 Ev2]];
    [rewrite length_app; simpl length; lia | rewrite length_app; simpl length; lia |].
  rewrite app_nil_r in Ev1.
  rewrite Ek1. cbn [bind]. rewrite Ev1. cbn [bind].
  rewrite Ek2. cbn [bind]. rewrite Ev2. cbn [bind].
  destruct (BoundedLoad.trim_key k jk) as [jk' Etk]; auto; [lia|].
  destruct (BoundedLoad.trim_value v jv) as [jv' Etv]; auto; [lia|].
  rewrite Etk. cbn [bind]. rewrite Etv. cbn [bind].
  rewrite !cstr_cells by assumption. cbn [bind].
  unfold settings_set_string, find_pair.
  rewrite (DynamicStore.find_absent acc aacc k 0 Hacc Hnot). cbn [bind].
  destruct (DynamicFacts.create_pair_result k v h) as [h' [_ Hcreate]]; [lia|lia|].
  destruct (Hcreate Hgen) as [-> Hgen']. cbn [bind].
  now exists h'.
Qed.

(** The lines of a list of keys and values, read back into a store that
    has none of the keys: the pairs are appended in order. *)
Lemma load_loop_saved_lines (rest : list (cstring * cstring)) :
  forall (acc : Settings) (aacc : list (cstring * cstring)) (h : Heap) (fuel : nat),
    forallb portable_strings rest = true ->
    holds acc aacc ->
    NoDup (map fst (aacc ++ rest)) ->
    generous h = true ->
    (length (concat (map line_of_strings rest)) < fuel)%nat ->
    exists h' : Heap,
      load_loop fuel (Some acc) (concat (map line_of_strings rest)) h
      = Ok (Some (acc ++ map (fun kv => pair_of (fst kv) (snd kv)) rest), h').
Proof.
  induction rest as [|[k v] rest IH]; intros acc aacc h fuel Hport Hacc Hnd Hgen Hfuel;
    (destruct fuel as [|fuel]; [lia|]).
  - cbn [map concat load_loop]. unfold get_line.
    destruct (memory_malloc h) as [[|] h1]; cbn [fgets fgets_chars bind];
      rewrite app_nil_r.
    + change (fgets BUFSIZ []) with (@None (list ascii * list ascii)).
      cbn [bind]. now exists h1.
    + now exists h1.
  - cbn [forallb] in Hport. apply andb_true_iff in Hport. destruct Hport as [Hp Hrest].
    destruct (portable_strings_facts k v Hp)
      as (Hck & Hcv & Heq & Hnk & Hnv & Htk & Htv & Hne & Hsize).
    rewrite map_app in Hnd. cbn [map fst] in Hnd.
    assert (Hnot : ~ In k (map fst aacc)).
    { apply NoDup_remove_2 in Hnd. intros Hin. apply Hnd. apply in_or_app. now left. }
    cbn [map concat load_loop].
    assert (Hline : line_of_strings (k, v) = (k ++ str " = " ++ v) ++ [newline]).
    { unfold line_of_strings. cbn [fst snd]. now rewrite <- !app_assoc. }
    destruct (GetLine.get_line_line (k ++ str " = " ++ v)
                (concat (map line_of_strings rest)) h) as [h1 [Hget Hgen1]].
    { rewrite !has_char_app, Hnk, Hnv. reflexivity. }
    { rewrite !is_cstring_app, Hck, Hcv. reflexivity. }
    { exact Hgen. }
    rewrite Hline, <- app_assoc. cbn [app] in Hget |- *. rewrite Hget. cbn [bind].
    destruct (load_line_saved acc aacc k v h1 Hp Hacc Hnot Hgen1) as [h2 [Hload Hgen2]].
    rewrite Hline in Hload. cbn [app] in Hload. rewrite Hload. cbn [bind].
    destruct (IH (acc ++ [pair_of k v]) (aacc ++ [(k, v)]) h2 fuel Hrest) as [h' Hrun].
    + apply Forall2_app; [exact Hacc|]. constructor; [|constructor].
      now apply DynamicStore.strings_of_new.
    + rewrite <- app_assoc. cbn [app]. rewrite map_app. exact Hnd.
    + exact Hgen2.
    + cbn [map concat] in Hfuel. rewrite length_app in Hfuel.
      assert (0 < length (line_of_strings (k, v)))%nat
        by (rewrite Hline, length_app; cbn [length]; lia).
      lia.
    + exists h'. rewrite Hrun. cbn [fst snd]. now rewrite <- app_assoc.
Qed.

End DynamicLoad.

(** X17: in the dynamic variant, for every store that holds, with no key
    twice, non-empty keys and values of any length that are C strings
    without newline (the keys without '=') and neither start nor end
    with white space, when no allocation fails, [settings_save] to a
    path that can be written returns 1 and writes the lines of the pairs
    in the order of the list, and [settings_load] of that path into an
    empty store returns 1 and leaves the same keys and values, in the
    same order, each in an array of its size. *)
Theorem dynamic_save_then_load_round_trip
    (l : Dynamic.Settings) (al : list (cstring * cstring))
    (path : cstring) (fs : FileSystem) (h : Heap) :
  Dynamic.holds l al -> NoDup (map fst al) ->
  forallb portable_strings al = true ->
  writable fs path = true ->
  generous h = true ->
  exists h' : Heap,
    Dynamic.settings_save (Some l) (Some path) fs
    = Ok (1, Some l, fclose_wt fs path (concat (map line_of_strings al))) /\
    Dynamic.settings_load (Some []) (Some path)
      (fclose_wt fs path (concat (map line_of_strings al))) h
    = Ok (1, Some (map (fun kv => Dynamic.pair_of (fst kv) (snd kv)) al), h') /\
    Dynamic.holds (map (fun kv => Dynamic.pair_of (fst kv) (snd kv)) al) al.
Proof.
  intros Hl Hnd Hport Hw Hgen.
  destruct (DynamicLoad.load_loop_saved_lines al [] [] h
              (S (length (concat (map line_of_strings al)))) Hport)
    as [h' Hrun]; auto; [constructor|].
  exists h'. split; [|split].
  - unfold Dynamic.settings_save. rewrite Hw.
    rewrite (DynamicLoad.save_loop_data l al Hl). reflexivity.
  - unfold Dynamic.settings_load, fopen_rt, fclose_wt. cbn [contents].
    rewrite cstring_eqb_refl. rewrite Hrun. reflexivity.
  - clear - Hport. induction al as [|[k v] al IH]; [constructor|].
    cbn [forallb] in Hport. apply andb_true_iff in Hport. destruct Hport as [Hp Hrest].
    destruct (DynamicLoad.portable_strings_facts k v Hp) as (Hck & Hcv & _).
    constructor; [|now apply IH].
    now apply DynamicStore.strings_of_new.
Qed.

Lemma dynamic_save_then_load_round_trip_witness :
  exists h' : Heap,
    Dynamic.settings_save
      (Some [Dynamic.pair_of (str "foo") (str "abc def ghi");
             Dynamic.pair_of (str "bar") (str "54321")])
      (Some (str "cfg")) (single_file [] [])
    = Ok (1,
          Some [Dynamic.pair_of (str "foo") (str "abc def ghi");
                Dynamic.pair_of (str "bar") (str "54321")],
          fclose_wt (single_file [] []) (str "cfg")
            (concat (map line_of_strings
                       [(str "foo", str "abc def ghi"); (str "bar", str "54321")]))) /\
    Dynamic.settings_load (Some []) (Some (str "cfg"))
      (fclose_wt (single_file [] []) (str "cfg")
         (concat (map line_of_strings
                    [(str "foo", str "abc def ghi"); (str "bar", str "54321")]))) []
    = Ok (1,
          Some (map (fun kv => Dynamic.pair_of (fst kv) (snd kv))
                  [(str "foo", str "abc def ghi"); (str "bar", str "54321")]), h') /\
    Dynamic.holds
      (map (fun kv => Dynamic.pair_of (fst kv) (snd kv))
         [(str "foo", str "abc def ghi"); (str "bar", str "54321")])
      [(str "foo", str "abc def ghi"); (str "bar", str "54321")].
Proof.
  apply (dynamic_save_then_load_round_trip
           [Dynamic.pair_of (str "foo") (str "abc def ghi");
            Dynamic.pair_of (str "bar") (str "54321")]
           [(str "foo", str "abc def ghi"); (str "bar", str "54321")]
           (str "cfg") (single_file [] []) []).
  - repeat constructor.
  - repeat constructor; simpl; intuition discriminate.
  - reflexivity.
  - reflexivity.
  - reflexivity.
Defined.

(** ** Loading a file is setting its lines in order (bounded store) *)

Lemma drop_spaces_trimmed (s : cstring) : trimmed s = true -> drop_spaces s = s.
Proof.
  destruct s as [|c s]; [reflexivity|]. cbn [trimmed drop_spaces].
  intros H. apply andb_true_iff in H. destruct H as [Hc _].
  apply negb_true_iff in Hc. now rewrite Hc.
Qed.

Lemma trim_spec_trimmed (s : cstring) : trimmed s = true -> trim_spec s = s.
Proof.
  intros H. unfold trim_spec. rewrite (drop_spaces_trimmed s H).
  destruct s as [|c s]; [reflexivity|].
  cbn [trimmed] in H. apply andb_true_iff in H. destruct H as [_ Hl].
  apply negb_true_iff in Hl.
  destruct (exists_last (l := c :: s)) as (init & x & E); [discriminate|].
  rewrite E in *. rewrite last_last in Hl.
  rewrite rev_app_distr. cbn [rev app drop_spaces]. rewrite Hl.
  change (x :: rev init) with (rev [x] ++ rev init).
  now rewrite <- rev_app_distr, rev_involutive.
Qed.

Lemma trim_spec_after_space (v : cstring) :
  trimmed v = true -> trim_spec (sp :: v) = v.
Proof.
  intros H. rewrite <- (trim_spec_trimmed v H) at 2.
  unfold trim_spec. cbn [drop_spaces]. now change (isspace sp) with true.
Qed.

Module BoundedLines.
Import Bounded.

Lemma loadable_facts (k v : cstring) :
  loadable (k, v) = true ->
  is_cstring k = true /\ is_cstring v = true /\
  has_char equals k = false /\
  has_char newline k = false /\ has_char newline v = false /\
  trimmed k = true /\ trimmed v = true /\
  k <> [] /\ (length k + length v + 4 < CONFIG_LINE_LENGTH)%nat.
Proof.
  unfold loadable. cbn [fst snd]. rewrite !andb_true_iff, !negb_true_iff.
  intros [[[[[[[[H1 H2] H3] H4] H5] H6] H7] H8] H9].
  repeat split; auto.
  - intros E. rewrite E in H8. discriminate.
  - apply Nat.ltb_lt in H9. unfold line_of_strings in H9. cbn [fst snd] in H9.
    rewrite !length_app in H9. cbn [length str list_ascii_of_string] in H9. lia.
Qed.

(** One line of a key and a value: the loop body sets the key. *)
Lemma load_line_strings (settings : option Settings) (k v : cstring) (h : Heap) :
  loadable (k, v) = true ->
  load_line settings (line_of_strings (k, v)) h
  = Ok (snd (fst (settings_set_string settings (Some k) (Some v) h)),
        snd (settings_set_string settings (Some k) (Some v) h)).
Proof.
  intros Hp.
  destruct (loadable_facts k v Hp)
    as (Hck & Hcv & Heq & Hnk & Hnv & Htk & Htv & Hne & Hlen).
  unfold CONFIG_LINE_LENGTH in Hlen.
  unfold load_line. rewrite DynamicLoad.line_split.
  rewrite strchr_first by (rewrite has_char_app, Heq; reflexivity).
  cbv zeta.
  replace (length ((k ++ [sp]) ++ equals :: (sp :: v) ++ [newline])
           - length (k ++ [sp]) - 1)%nat
    with (length ((sp :: v) ++ [newline]))
    by (repeat (rewrite length_app || (progress simpl length)); lia).
  rewrite skipn_past.
  rewrite (split_and_trim k (sp :: v) sp newline CONFIG_LINE_LENGTH CONFIG_LINE_LENGTH);
    auto; try discriminate;
    try (unfold CONFIG_LINE_LENGTH; simpl length; lia);
    try apply BoundedLoad.line_length_small.
  rewrite (trim_spec_trimmed k Htk), (trim_spec_after_space v Htv).
  now destruct (settings_set_string settings (Some k) (Some v) h) as [[r s'] h'].
Qed.

Lemma load_loop_calls (kvs : list (cstring * cstring)) :
  forall (settings : option Settings) (h : Heap) (log : list (cstring * cstring))
         (fuel : nat),
    forallb loadable kvs = true ->
    (length (concat (map line_of_strings kvs)) < fuel)%nat ->
    load_loop fuel settings (concat (map line_of_strings kvs)) h
    = Ok (fst (fst (set_all (calls_of kvs) settings h log)),
          snd (fst (set_all (calls_of kvs) settings h log))).
Proof.
  induction kvs as [|[k v] kvs IH]; intros settings h log fuel Hport Hfuel;
    (destruct fuel as [|fuel]; [lia|]).
  - reflexivity.
  - cbn [forallb] in Hport. apply andb_true_iff in Hport. destruct Hport as [Hp Hrest].
    destruct (loadable_facts k v Hp)
      as (Hck & Hcv & Heq & Hnk & Hnv & Htk & Htv & Hne & Hlen).
    unfold CONFIG_LINE_LENGTH in Hlen.
    assert (Hline : line_of_strings (k, v) = (k ++ str " = " ++ v) ++ [newline]).
    { unfold line_of_strings. cbn [fst snd]. now rewrite <- !app_assoc. }
    assert (Hfgets : fgets CONFIG_LINE_LENGTH
                       (line_of_strings (k, v) ++ concat (map line_of_strings kvs))
                     = Some (line_of_strings (k, v), concat (map line_of_strings kvs))).
    { rewrite Hline, <- app_assoc. simpl app at 2. apply fgets_line.
      - rewrite !has_char_app, Hnk, Hnv. reflexivity.
      - rewrite !length_app. unfold CONFIG_LINE_LENGTH. simpl. lia. }
    cbn [map concat load_loop calls_of set_all]. rewrite Hfgets.
    rewrite until_nul_cstring
      by (rewrite Hline, !is_cstring_app, Hck, Hcv; reflexivity).
    rewrite load_line_strings by exact Hp. cbn [bind fst snd].
    destruct (settings_set_string settings (Some k) (Some v) h) as [[r s'] h'].
    cbn [fst snd]. apply IH; [exact Hrest|].
    cbn [map concat] in Hfuel. rewrite length_app in Hfuel.
    assert (0 < length (line_of_strings (k, v)))%nat
      by (rewrite Hline, length_app; cbn [length]; lia).
    lia.
Qed.

(** What the loop body leaves, when it returns: the store as it was, or
    as a call of [settings_set_string] leaves it. *)
Lemma load_line_returns (settings settings' : option Settings) (line : cstring)
    (h h' : Heap) :
  load_line settings line h = Ok (settings', h') ->
  (settings' = settings /\ h' = h) \/
  exists k v : cstring,
    settings' = snd (fst (settings_set_string settings (Some k) (Some v) h)) /\
    h' = snd (settings_set_string settings (Some k) (Some v) h).
Proof.
  unfold load_line. destruct (strchr line equals) as [p|].
  2:{ intros H. injection H as <- <-. now left. }
  cbv zeta.
  destruct (strncpy (uninit CONFIG_LINE_LENGTH) line p) as [k0| |];
    cbn [bind]; try discriminate.
  destruct (strncpy (uninit CONFIG_LINE_LENGTH) (skipn (S p) line)
              (length line - p - 1)) as [v0| |]; cbn [bind]; try discriminate.
  destruct (store k0 (wrap (Z.of_nat p - 1)) NUL) as [k1| |];
    cbn [bind]; try discriminate.
  destruct (store v0 (wrap (Z.of_nat (length line - p - 1) - 1)) NUL) as [v1| |];
    cbn [bind]; try discriminate.
  destruct (trim (Some k1)) as [[k2|]| |]; cbn [bind]; try discriminate;
    destruct (trim (Some v1)) as [[v2|]| |]; cbn [bind]; try discriminate.
  destruct (cstr k2) as [ks| |]; cbn [bind]; try discriminate.
  destruct (cstr v2) as [vs| |]; cbn [bind]; try discriminate.
  intros H. right. exists ks, vs.
  destruct (settings_set_string settings (Some ks) (Some vs) h) as [[r s'] h''].
  cbn [fst snd]. now injection H as <- <-.
Qed.

(** A call of [settings_set_string] keeps the keys of a valid store
    where they are; it adds at most one, at the end. *)
Lemma set_string_keeps_keys (s : Settings) (k v : cstring) (h : Heap) :
  valid_store s ->
  exists s' : Settings,
    snd (fst (settings_set_string (Some s) (Some k) (Some v) h)) = Some s' /\
    valid_store s' /\ exists extra : list cstring, keys s' = keys s ++ extra.
Proof.
  intros Hvalid.
  destruct (settings_set_string (Some s) (Some k) (Some v) h) as [[r o] h'] eqn:Hset.
  cbn [fst snd].
  destruct (Z.eq_dec r 1) as [->|Hr].
  - destruct o as [s'|].
    2:{ unfold settings_set_string in Hset. destruct (too_long k v); [discriminate|].
        destruct (find_pair (Some s) (Some k)) as [[i p]|]; [discriminate|].
        destruct (create_pair (Some k) (Some v) h) as [[p|] h'']; discriminate. }
    destruct (BoundedFacts.set_string_success s s' k v h h' Hvalid Hset)
      as (Hvalid' & _ & Hin & Hnew).
    exists s'. split; [reflexivity|]. split; [exact Hvalid'|].
    destruct (in_dec (list_eq_dec ascii_dec) k (keys s)) as [Hk|Hk].
    + destruct (Hin Hk) as (pre & post & p & -> & Hp & ->).
      exists []. rewrite app_nil_r, !BoundedFacts.keys_app. cbn [keys map key].
      now rewrite Hp.
    + rewrite (Hnew Hk). exists [k]. now rewrite BoundedFacts.keys_app.
  - pose proof (BoundedFacts.set_string_failure (Some s) (Some k) (Some v) h) as Hsame.
    rewrite Hset in Hsame. cbn [fst snd] in Hsame. rewrite (Hsame Hr).
    exists s. split; [reflexivity|]. split; [exact Hvalid|].
    exists []. now rewrite app_nil_r.
Qed.

Lemma load_loop_keeps_keys (fuel : nat) :
  forall (s : Settings) (f : list ascii) (h h' : Heap) (settings' : option Settings),
    valid_store s ->
    load_loop fuel (Some s) f h = Ok (settings', h') ->
    exists s' : Settings,
      settings' = Some s' /\ valid_store s' /\
      exists extra : list cstring, keys s' = keys s ++ extra.
Proof.
  induction fuel as [|fuel IH]; intros s f h h' settings' Hvalid Hrun;
    cbn [load_loop] in Hrun; [discriminate|].
  destruct (fgets CONFIG_LINE_LENGTH f) as [[chunk f']|].
  2:{ injection Hrun as <- <-. exists s. split; [reflexivity|]. split; [exact Hvalid|].
      exists []. now rewrite app_nil_r. }
  destruct (load_line (Some s) (until_nul chunk) h) as [[s1 h1]| |] eqn:Hline;
    cbn [bind] in Hrun; try discriminate.
  apply load_line_returns in Hline.
  assert (Hs1 : exists l1 : Settings,
             s1 = Some l1 /\ valid_store l1 /\
             exists extra : list cstring, keys l1 = keys s ++ extra).
  { destruct Hline as [[-> _]|(k & v & -> & _)].
    - exists s. split; [reflexivity|]. split; [exact Hvalid|].
      exists []. now rewrite app_nil_r.
    - now apply set_string_keeps_keys. }
  destruct Hs1 as (l1 & -> & Hvalid1 & extra1 & Hkeys1).
  destruct (IH l1 f' h1 h' settings' Hvalid1 Hrun) as (s' & -> & Hvalid' & extra & Hkeys).
  exists s'. split; [reflexivity|]. split; [exact Hvalid'|].
  exists (extra1 ++ extra). now rewrite Hkeys, Hkeys1, app_assoc.
Qed.

End BoundedLines.

(** X18: in the bounded variant, [settings_load] of a file made of the
    lines "key = value" of a list of keys and values that are C strings
    without newline (the keys without '=' and not empty), neither start
    nor end with white space and fit the line array, returns 1 and leaves
    the store and the allocator as the calls of [settings_set_string] for
    the keys and values, in the order of the lines, leave them: whatever
    the store held, whatever the allocator does, also when a key comes
    twice or is too long to be stored. *)
Theorem bounded_load_sets_lines
    (kvs : list (cstring * cstring)) (settings : Bounded.Settings)
    (path : cstring) (fs : FileSystem) (h : Heap) :
  forallb loadable kvs = true ->
  contents fs path = Some (concat (map line_of_strings kvs)) ->
  Bounded.settings_load (Some settings) (Some path) fs h
  = Ok (1, fst (fst (Bounded.set_all (calls_of kvs) (Some settings) h [])),
           snd (fst (Bounded.set_all (calls_of kvs) (Some settings) h []))).
Proof.
  intros Hport Hfile. unfold Bounded.settings_load, fopen_rt. rewrite Hfile.
  rewrite (BoundedLines.load_loop_calls kvs (Some settings) h []) by (auto; lia).
  reflexivity.
Qed.

Lemma bounded_load_sets_lines_witness :
  Bounded.settings_load
    (Some [{| Bounded.key := str "b"; Bounded.value := str "0" |}])
    (Some (str "cfg"))
    (single_file (str "cfg")
       (str "a = 1" ++ newline :: str "b = 2" ++ newline :: str "a = 3" ++ [newline]))
    []
  = Ok (1, Some [{| Bounded.key := str "b"; Bounded.value := str "2" |};
                 {| Bounded.key := str "a"; Bounded.value := str "3" |}], []).
Proof.
  apply (bounded_load_sets_lines
           [(str "a", str "1"); (str "b", str "2"); (str "a", str "3")]
           [{| Bounded.key := str "b"; Bounded.value := str "0" |}]
           (str "cfg")
           (single_file (str "cfg")
              (str "a = 1" ++ newline :: str "b = 2" ++ newline :: str "a = 3" ++ [newline]))
           []); reflexivity.
Defined.

(** X19: in the bounded variant, whatever the file holds and whatever the
    allocator does, a [settings_load] that returns leaves a store
    without two pairs of the same key, with every key it had where it
    was: the keys it adds come after them.  When it returns 0 the store
    is as it was. *)
Theorem bounded_load_keeps_keys
    (s : Bounded.Settings) (path : option cstring) (fs : FileSystem) (h h' : Heap)
    (r : Z) (settings' : option Bounded.Settings) :
  Bounded.valid_store s ->
  Bounded.settings_load (Some s) path fs h = Ok (r, settings', h') ->
  exists s' : Bounded.Settings,
    settings' = Some s' /\ Bounded.valid_store s' /\
    (exists extra : list cstring, Bounded.keys s' = Bounded.keys s ++ extra) /\
    (r = 0 \/ r = 1) /\ (r = 0 -> s' = s /\ h' = h).
Proof.
  intros Hvalid. unfold Bounded.settings_load.
  assert (Hsame : Ok (0, Some s, h) = Ok (r, settings', h') ->
            exists s' : Bounded.Settings,
              settings' = Some s' /\ Bounded.valid_store s' /\
              (exists extra : list cstring, Bounded.keys s' = Bounded.keys s ++ extra) /\
              (r = 0 \/ r = 1) /\ (r = 0 -> s' = s /\ h' = h)).
  { intros H. injection H as <- <- <-. exists s.
    split; [reflexivity|]. split; [exact Hvalid|].
    split; [exists []; now rewrite app_nil_r|].
    split; [now left|]. intros _. now split. }
  destruct path as [p|]; [|exact Hsame].
  destruct (fopen_rt fs p) as [f|]; [|exact Hsame].
  destruct (Bounded.load_loop (S (length f)) (Some s) f h) as [[s1 h1]| |] eqn:Hrun;
    cbn [bind]; try discriminate.
  intros H. injection H as <- <- <-.
  destruct (BoundedLines.load_loop_keeps_keys _ s f h h1 s1 Hvalid Hrun)
    as (s' & -> & Hvalid' & Hkeys).
  exists s'. split; [reflexivity|]. split; [exact Hvalid'|].
  split; [exact Hkeys|]. split; [now right|]. intros H. discriminate.
Qed.

Lemma bounded_load_keeps_keys_witness :
  exists s' : Bounded.Settings,
    Some [{| Bounded.key := str "b"; Bounded.value := str "2" |};
          {| Bounded.key := str "a"; Bounded.value := str "3" |}] = Some s' /\
    Bounded.valid_store s' /\
    (exists extra : list cstring,
        Bounded.keys s'
        = Bounded.keys [{| Bounded.key := str "b"; Bounded.value := str "0" |}] ++ extra) /\
    (1 = 0 \/ 1 = 1) /\
    (1 = 0 ->
     s' = [{| Bounded.key := str "b"; Bounded.value := str "0" |}] /\
     @nil bool = []).
Proof.
  apply (bounded_load_keeps_keys
           [{| Bounded.key := str "b"; Bounded.value := str "0" |}]
           (Some (str "cfg"))
           (single_file (str "cfg")
              (str "a = 1" ++ newline :: str "b = 2" ++ newline :: str "a = 3" ++ [newline]))
           [] [] 1).
  - split; [reflexivity|]. repeat constructor. simpl. intuition.
  - vm_compute. reflexivity.
Defined.

(** ** The allocation wrappers of the test harness *)

Module HarnessFacts.
Import Harness.

(** The calls after the first [count] ones, with the limit [n]. *)
Lemma mallocs_from (reals : list bool) :
  forall c : Counters,
    0 <= test_malloc_call_count c ->
    test_malloc_call_count c + Z.of_nat (length reals) <= LONG_MAX ->
    exists c' : Counters,
      mallocs reals c
      = Ok (if test_malloc_fail_after_ c <? 0 then reals
            else firstn (Z.to_nat (test_malloc_fail_after_ c - test_malloc_call_count c))
                   reals
                 ++ repeat false
                      (length reals
                       - Z.to_nat (test_malloc_fail_after_ c - test_malloc_call_count c)),
            c') /\
      test_malloc_call_count c' = test_malloc_call_count c + Z.of_nat (length reals) /\
      test_malloc_fail_after_ c' = test_malloc_fail_after_ c /\
      test_realloc_call_count c' = test_realloc_call_count c /\
      test_realloc_fail_after_ c' = test_realloc_fail_after_ c.
Proof.
  induction reals as [|real reals IH]; intros c Hpos Hmax.
  - exists c. cbn [mallocs length]. repeat split; try lia.
    destruct (test_malloc_fail_after_ c <? 0); [reflexivity|].
    now rewrite firstn_nil.
  - cbn [length] in Hmax. cbn [mallocs]. unfold wrap_malloc.
    replace (LONG_MAX <=? test_malloc_call_count c) with false
      by (symmetry; apply Z.leb_gt; lia).
    set (c1 := {| test_malloc_call_count := test_malloc_call_count c + 1;
                  test_malloc_fail_after_ := test_malloc_fail_after_ c;
                  test_realloc_call_count := test_realloc_call_count c;
                  test_realloc_fail_after_ := test_realloc_fail_after_ c |}).
    destruct (IH c1) as (c' & Hrun & Hcount & Hafter & Hrc & Hra);
      [unfold c1; cbn [test_malloc_call_count test_realloc_call_count]; lia
      |unfold c1; cbn [test_malloc_call_count test_realloc_call_count]; lia |].
    unfold c1 in *.
    cbn [test_malloc_call_count test_malloc_fail_after_ test_realloc_call_count
         test_realloc_fail_after_] in *.
    exists c'.
    split; [|repeat split; cbn [length]; try assumption; lia].
    destruct (test_malloc_fail_after_ c <? 0) eqn:Hneg.
    + rewrite orb_true_r. cbn [bind]. rewrite Hrun. reflexivity.
    + rewrite orb_false_r. apply Z.ltb_ge in Hneg.
      destruct (test_malloc_call_count c <? test_malloc_fail_after_ c) eqn:Hlt;
        cbn [bind]; rewrite Hrun; cbn [bind].
      * apply Z.ltb_lt in Hlt.
        replace (Z.to_nat (test_malloc_fail_after_ c - test_malloc_call_count c))
          with (S (Z.to_nat (test_malloc_fail_after_ c - (test_malloc_call_count c + 1))))
          by lia.
        reflexivity.
      * apply Z.ltb_ge in Hlt.
        replace (Z.to_nat (test_malloc_fail_after_ c - test_malloc_call_count c))
          with 0%nat by lia.
        replace (Z.to_nat (test_malloc_fail_after_ c - (test_malloc_call_count c + 1)))
          with 0%nat by lia.
        cbn [firstn app length]. now rewrite !Nat.sub_0_r.
Qed.

Lemma reallocs_from (reals : list bool) :
  forall c : Counters,
    0 <= test_realloc_call_count c ->
    test_realloc_call_count c + Z.of_nat (length reals) <= LONG_MAX ->
    exists c' : Counters,
      reallocs reals c
      = Ok (if test_realloc_fail_after_ c <? 0 then reals
            else firstn (Z.to_nat (test_realloc_fail_after_ c - test_realloc_call_count c))
                   reals
                 ++ repeat false
                      (length reals
                       - Z.to_nat (test_realloc_fail_after_ c - test_realloc_call_count c)),
            c') /\
      test_realloc_call_count c' = test_realloc_call_count c + Z.of_nat (length reals) /\
      test_realloc_fail_after_ c' = test_realloc_fail_after_ c /\
      test_malloc_call_count c' = test_malloc_call_count c /\
      test_malloc_fail_after_ c' = test_malloc_fail_after_ c.
Proof.
  induction reals as [|real reals IH]; intros c Hpos Hmax.
  - exists c. cbn [reallocs length]. repeat split; try lia.
    destruct (test_realloc_fail_after_ c <? 0); [reflexivity|].
    now rewrite firstn_nil.
  - cbn [length] in Hmax. cbn [reallocs]. unfold wrap_realloc.
    replace (LONG_MAX <=? test_realloc_call_count c) with false
      by (symmetry; apply Z.leb_gt; lia).
    set (c1 := {| test_malloc_call_count := test_malloc_call_count c;
                  test_malloc_fail_after_ := test_malloc_fail_after_ c;
                  test_realloc_call_count := test_realloc_call_count c + 1;
                  test_realloc_fail_after_ := test_realloc_fail_after_ c |}).
    destruct (IH c1) as (c' & Hrun & Hcount & Hafter & Hrc & Hra);
      [unfold c1; cbn [test_malloc_call_count test_realloc_call_count]; lia
      |unfold c1; cbn [test_malloc_call_count test_realloc_call_count]; lia |].
    unfold c1 in *.
    cbn [test_malloc_call_count test_malloc_fail_after_ test_realloc_call_count
         test_realloc_fail_after_] in *.
    exists c'.
    split; [|repeat split; cbn [length]; try assumption; lia].
    destruct (test_realloc_fail_after_ c <? 0) eqn:Hneg.
    + rewrite orb_true_r. cbn [bind]. rewrite Hrun. reflexivity.
    + rewrite orb_false_r. apply Z.ltb_ge in Hneg.
      destruct (test_realloc_call_count c <? test_realloc_fail_after_ c) eqn:Hlt;
        cbn [bind]; rewrite Hrun; cbn [bind].
      * apply Z.ltb_lt in Hlt.
        replace (Z.to_nat (test_realloc_fail_after_ c - test_realloc_call_count c))
          with (S (Z.to_nat (test_realloc_fail_after_ c - (test_realloc_call_count c + 1))))
          by lia.
        reflexivity.
      * apply Z.ltb_ge in Hlt.
        replace (Z.to_nat (test_realloc_fail_after_ c - test_realloc_call_count c))
          with 0%nat by lia.
        replace (Z.to_nat (test_realloc_fail_after_ c - (test_realloc_call_count c + 1)))
          with 0%nat by lia.
        cbn [firstn app length]. now rewrite !Nat.sub_0_r.
Qed.

End HarnessFacts.

(** X20: after [test_malloc_fail_after(n)] with [n] not negative, the
    first [n] calls of [malloc] return what the real [malloc] returns and
    every later call returns null; after [test_malloc_enable()] every
    call returns what the real one returns; the counters of [realloc]
    are left as they were.  The same holds of [realloc] and its macros.
    This for sequences of at most [LONG_MAX] calls. *)
Theorem harness_fail_after (n : Z) (reals : list bool) (c : Harness.Counters) :
  0 <= n -> Z.of_nat (length reals) <= Harness.LONG_MAX ->
  (exists c' : Harness.Counters,
      Harness.mallocs reals (Harness.test_malloc_fail_after n c)
      = Ok (firstn (Z.to_nat n) reals ++ repeat false (length reals - Z.to_nat n), c') /\
      Harness.test_realloc_call_count c' = Harness.test_realloc_call_count c /\
      Harness.test_realloc_fail_after_ c' = Harness.test_realloc_fail_after_ c) /\
  (exists c' : Harness.Counters,
      Harness.mallocs reals (Harness.test_malloc_enable c) = Ok (reals, c')) /\
  (exists c' : Harness.Counters,
      Harness.reallocs reals (Harness.test_realloc_fail_after n c)
      = Ok (firstn (Z.to_nat n) reals ++ repeat false (length reals - Z.to_nat n), c') /\
      Harness.test_malloc_call_count c' = Harness.test_malloc_call_count c /\
      Harness.test_malloc_fail_after_ c' = Harness.test_malloc_fail_after_ c) /\
  (exists c' : Harness.Counters,
      Harness.reallocs reals (Harness.test_realloc_enable c) = Ok (reals, c')).
Proof.
  intros Hn Hmax.
  assert (Hfalse : (n <? 0) = false) by (apply Z.ltb_ge; lia).
  split; [|split; [|split]].
  - destruct (HarnessFacts.mallocs_from reals (Harness.test_malloc_fail_after n c))
      as (c' & Hrun & _ & _ & Hrc & Hra);
      [cbn [Harness.test_malloc_fail_after Harness.test_malloc_call_count]; lia
      |cbn [Harness.test_malloc_fail_after Harness.test_malloc_call_count]; lia |].
    exists c'. cbn [Harness.test_malloc_fail_after Harness.test_malloc_fail_after_
                    Harness.test_malloc_call_count Harness.test_realloc_call_count
                    Harness.test_realloc_fail_after_] in *.
    rewrite Hfalse, Z.sub_0_r in Hrun. auto.
  - destruct (HarnessFacts.mallocs_from reals (Harness.test_malloc_enable c))
      as (c' & Hrun & _);
      [cbn [Harness.test_malloc_enable Harness.test_malloc_fail_after
            Harness.test_malloc_call_count]; lia
      |cbn [Harness.test_malloc_enable Harness.test_malloc_fail_after
            Harness.test_malloc_call_count]; lia |].
    exists c'. exact Hrun.
  - destruct (HarnessFacts.reallocs_from reals (Harness.test_realloc_fail_after n c))
      as (c' & Hrun & _ & _ & Hrc & Hra);
      [cbn [Harness.test_realloc_fail_after Harness.test_realloc_call_count]; lia
      |cbn [Harness.test_realloc_fail_after Harness.test_realloc_call_count]; lia |].
    exists c'. cbn [Harness.test_realloc_fail_after Harness.test_malloc_fail_after_
                    Harness.test_malloc_call_count Harness.test_realloc_call_count
                    Harness.test_realloc_fail_after_] in *.
    rewrite Hfalse, Z.sub_0_r in Hrun. auto.
  - destruct (HarnessFacts.reallocs_from reals (Harness.test_realloc_enable c))
      as (c' & Hrun & _);
      [cbn [Harness.test_realloc_enable Harness.test_realloc_fail_after
            Harness.test_realloc_call_count]; lia
      |cbn [Harness.test_realloc_enable Harness.test_realloc_fail_after
            Harness.test_realloc_call_count]; lia |].
    exists c'. exact Hrun.
Qed.

Lemma harness_fail_after_witness :
  exists c' : Harness.Counters,
    Harness.mallocs [true; true; true; true] (Harness.test_malloc_fail_after 2 Harness.initial)
    = Ok ([true; true; false; false], c') /\
    Harness.test_realloc_call_count c' = 0 /\
    Harness.test_realloc_fail_after_ c' = -1.
Proof.
  apply (proj1 (harness_fail_after 2 [true; true; true; true] Harness.initial
                  ltac:(lia) ltac:(unfold Harness.LONG_MAX; simpl; lia))).
Defined.

(** ** The order of the pairs in the dynamic store *)

Module DynamicOrder.
Import Dynamic DynamicStore.

Lemma set_assoc_present (apre apost : list (cstring * cstring)) (k v0 v : cstring) :
  ~ In k (map fst apre) ->
  set_assoc (apre ++ (k, v0) :: apost) k v = apre ++ (k, v) :: apost.
Proof.
  induction apre as [|[k1 v1] apre IH]; intros Hnot; cbn [app set_assoc fst].
  - now rewrite cstring_eqb_refl.
  - simpl in Hnot. rewrite cstring_eqb_neq by tauto. rewrite IH; tauto.
Qed.

Lemma set_assoc_absent (al : list (cstring * cstring)) (k v : cstring) :
  ~ In k (map fst al) -> set_assoc al k v = al ++ [(k, v)].
Proof.
  induction al as [|[k1 v1] al IH]; intros Hnot; cbn [app set_assoc fst]; [reflexivity|].
  simpl in Hnot. rewrite cstring_eqb_neq by tauto. rewrite IH; tauto.
Qed.

Lemma set_assoc_keys (al : list (cstring * cstring)) (k v : cstring) :
  map fst (set_assoc al k v)
  = if in_dec (list_eq_dec ascii_dec) k (map fst al) then map fst al
    else map fst al ++ [k].
Proof.
  destruct (in_dec (list_eq_dec ascii_dec) k (map fst al)) as [Hin|Hnot].
  - destruct (first_occurrence al k Hin) as (apre & apost & v0 & -> & Hfirst).
    rewrite set_assoc_present by exact Hfirst. now rewrite !map_app.
  - rewrite set_assoc_absent by exact Hnot. now rewrite map_app.
Qed.

(** One call, when no allocation fails: where the pairs are afterwards. *)
Lemma set_string_order (l : Settings) (al : list (cstring * cstring))
    (k v : cstring) (h : Heap) :
  store_ok l al ->
  call_ok (Some k, Some v) = true ->
  generous h = true ->
  exists (l' : Settings) (h' : Heap),
    settings_set_string (Some l) (Some k) (Some v) h = Ok (1, Some l', h') /\
    generous h' = true /\ store_ok l' (set_assoc al k v).
Proof.
  intros (Hl & Hnd & Hal) Hkv Hgen.
  pose proof Hkv as Hargs. unfold call_ok in Hargs. cbn [fst snd arg_ok] in Hargs.
  apply andb_true_iff in Hargs. destruct Hargs as [Hk Hv].
  apply andb_true_iff in Hk. destruct Hk as [Hck Hlk]. apply Z.ltb_lt in Hlk.
  apply andb_true_iff in Hv. destruct Hv as [Hcv Hlv]. apply Z.ltb_lt in Hlv.
  unfold settings_set_string, find_pair.
  destruct (in_dec (list_eq_dec ascii_dec) k (map fst al)) as [Hin|Hnot].
  - (* the key is in the store *)
    destruct (first_occurrence al k Hin) as (apre & apost & v0 & -> & Hfirst).
    rewrite set_assoc_present by exact Hfirst.
    destruct (holds_split l apre apost (k, v0) Hl)
      as (pre & post & p & -> & Hpre & Hp & Hpost).
    rewrite (find_present pre post p apre k v0 0 Hpre Hp Hfirst). cbn [bind].
    destruct (strings_of_shape p k v0 Hp) as (jk & jv & Ek & Ev & _ & Hcv0).
    rewrite Ek, Ev.
    destruct (malloc_generous h Hgen) as [Hok Hgen1].
    rewrite resize_key by assumption. cbn [bind].
    assert (Hlv0 : Z.of_nat (length v0) < 2 ^ 64).
    { rewrite forallb_app in Hal. apply andb_true_iff in Hal. destruct Hal as [_ Hal].
      cbn [forallb] in Hal. apply andb_true_iff in Hal. destruct Hal as [Hal _].
      unfold call_ok in Hal. cbn [fst snd arg_ok] in Hal.
      apply andb_true_iff in Hal. destruct Hal as [_ Hal].
      apply andb_true_iff in Hal. destruct Hal as [_ Hal]. apply Z.ltb_lt in Hal. lia. }
    destruct (resize_value v0 jv (length v) (snd (memory_malloc h)))
      as (b & h2 & Hres & Hb & Hgen2); auto.
    rewrite Hres. cbn [bind].
    destruct (copy_pair_replace k v b Hb Hlk Hlv) as [junk Hcopy].
    rewrite Hcopy. cbn [bind].
    rewrite Nat.add_0_l, update_middle.
    exists (pre ++ {| key := Some (cells k ++ [Some NUL]);
                      value := Some (cells v ++ Some NUL :: junk) |} :: post), h2.
    split; [reflexivity|]. split; [exact Hgen2|]. split; [|split].
    + apply Forall2_app; [exact Hpre|]. constructor; [|exact Hpost].
      now apply strings_of_new.
    + rewrite map_app in *. exact Hnd.
    + rewrite forallb_app in *. cbn [forallb] in *.
      apply andb_true_iff in Hal. destruct Hal as [Ha1 Ha2].
      apply andb_true_iff in Ha2. destruct Ha2 as [_ Ha2].
      cbn [fst snd]. now rewrite Ha1, Hkv, Ha2.
  - (* a new key *)
    rewrite set_assoc_absent by exact Hnot.
    rewrite (find_absent l al k 0 Hl Hnot). cbn [bind].
    destruct (DynamicFacts.create_pair_result k v h Hlk Hlv) as [h' [_ Hcreate]].
    destruct (Hcreate Hgen) as [-> Hgen']. cbn [bind].
    exists (l ++ [pair_of k v]), h'.
    split; [reflexivity|]. split; [exact Hgen'|]. split; [|split].
    + apply Forall2_app; [exact Hl|]. constructor; [|constructor].
      now apply strings_of_new.
    + rewrite map_app. cbn [map fst]. apply NoDup_app; auto.
      * constructor; [tauto|constructor].
      * intros x Hx [<-|[]]. contradiction.
    + rewrite forallb_app. cbn [forallb fst snd]. now rewrite Hal, Hkv.
Qed.

End DynamicOrder.

(** X21: in the dynamic variant, when no allocation fails, on a store
    that holds strings with no key twice, [settings_set_string] returns
    1 and replaces the value of the pair of the key where it stands, or
    adds the pair at the end when the store does not hold the key: the
    order of the keys is kept, and [settings_save] then writes the lines
    of the pairs in that order. *)
Theorem dynamic_set_string_keeps_order
    (l : Dynamic.Settings) (al : list (cstring * cstring)) (k v : cstring) (h : Heap) :
  Dynamic.store_ok l al ->
  Dynamic.call_ok (Some k, Some v) = true ->
  generous h = true ->
  exists (l' : Dynamic.Settings) (h' : Heap),
    Dynamic.settings_set_string (Some l) (Some k) (Some v) h = Ok (1, Some l', h') /\
    Dynamic.store_ok l' (set_assoc al k v) /\
    map fst (set_assoc al k v)
    = (if in_dec (list_eq_dec ascii_dec) k (map fst al) then map fst al
       else map fst al ++ [k]) /\
    forall (path : cstring) (fs : FileSystem),
      writable fs path = true ->
      Dynamic.settings_save (Some l') (Some path) fs
      = Ok (1, Some l', fclose_wt fs path (concat (map line_of_strings (set_assoc al k v)))).
Proof.
  intros Hok Hkv Hgen.
  destruct (DynamicOrder.set_string_order l al k v h Hok Hkv Hgen)
    as (l' & h' & Hset & _ & Hok').
  exists l', h'. split; [exact Hset|]. split; [exact Hok'|].
  split; [apply DynamicOrder.set_assoc_keys|].
  intros path fs Hw. unfold Dynamic.settings_save. rewrite Hw.
  destruct Hok' as (Hl' & _).
  rewrite (DynamicLoad.save_loop_data l' _ Hl'). reflexivity.
Qed.

Lemma dynamic_set_string_keeps_order_witness :
  exists (l' : Dynamic.Settings) (h' : Heap),
    Dynamic.settings_set_string
      (Some [Dynamic.pair_of (str "A") (str "1"); Dynamic.pair_of (str "B") (str "2");
             Dynamic.pair_of (str "C") (str "3")])
      (Some (str "B")) (Some (str "9")) []
    = Ok (1, Some l', h') /\
    Dynamic.store_ok l'
      (set_assoc [(str "A", str "1"); (str "B", str "2"); (str "C", str "3")]
         (str "B") (str "9")) /\
    map fst (set_assoc [(str "A", str "1"); (str "B", str "2"); (str "C", str "3")]
               (str "B") (str "9"))
    = (if in_dec (list_eq_dec ascii_dec) (str "B")
            (map fst [(str "A", str "1"); (str "B", str "2"); (str "C", str "3")])
       then map fst [(str "A", str "1"); (str "B", str "2"); (str "C", str "3")]
       else map fst [(str "A", str "1"); (str "B", str "2"); (str "C", str "3")]
            ++ [str "B"]) /\
    forall (path : cstring) (fs : FileSystem),
      writable fs path = true ->
      Dynamic.settings_save (Some l') (Some path) fs
      = Ok (1, Some l',
            fclose_wt fs path
              (concat (map line_of_strings
                         (set_assoc [(str "A", str "1"); (str "B", str "2");
                                     (str "C", str "3")] (str "B") (str "9"))))).
Proof.
  apply (dynamic_set_string_keeps_order
           [Dynamic.pair_of (str "A") (str "1"); Dynamic.pair_of (str "B") (str "2");
            Dynamic.pair_of (str "C") (str "3")]
           [(str "A", str "1"); (str "B", str "2"); (str "C", str "3")]
           (str "B") (str "9") []).
  - split; [repeat constructor|]. split; [|reflexivity].
    repeat constructor; simpl; intuition discriminate.
  - reflexivity.
  - reflexivity.
Defined.

(** ** The linked list of settings.c, pointer by pointer *)

Module PointerFacts.
Import Pointers.

Lemma nth_error_update_same {A : Type} (l : list A) (n : nat) (x : A) :
  (n < length l)%nat -> nth_error (update l n x) n = Some x.
Proof.
  revert n. induction l as [|y l IH]; intros [|n] H; simpl in *; try lia; auto.
  apply IH. lia.
Qed.

Lemma nth_error_update_other {A : Type} (l : list A) (n k : nat) (x : A) :
  n <> k -> nth_error (update l n x) k = nth_error l k.
Proof.
  revert n k. induction l as [|y l IH]; intros [|n] [|k] H; simpl; auto; try lia.
Qed.

Lemma nth_error_in_bounds {A : Type} (l : list A) (n : nat) (x : A) :
  nth_error l n = Some x -> (n < length l)%nat.
Proof. intros H. apply nth_error_Some. congruence. Qed.

Lemma first_or_app (ps1 ps2 : list nat) (d : option nat) :
  first_or (ps1 ++ ps2) d = first_or ps1 (first_or ps2 d).
Proof. now destruct ps1. Qed.

Lemma last_or_app (ps1 ps2 : list nat) (d : option nat) :
  last_or (ps1 ++ ps2) d = last_or ps2 (last_or ps1 d).
Proof. revert d. induction ps1 as [|p ps1 IH]; intros d; simpl; auto. Qed.

Lemma chain_length (m : Memory) (ps : list nat) :
  forall (before after : option nat) (xs : list Bounded.Pair),
    chain m before ps xs after -> length ps = length xs.
Proof.
  induction ps as [|p ps IH]; intros before after [|x xs] H; simpl in *;
    try contradiction; auto.
  destruct H as [_ H]. f_equal. eapply IH. exact H.
Qed.

(** Splitting a chain in two. *)
Lemma chain_app (m : Memory) (ps1 ps2 : list nat) (xs2 : list Bounded.Pair)
    (after : option nat) :
  forall (before : option nat) (xs1 : list Bounded.Pair),
    length ps1 = length xs1 ->
    (chain m before (ps1 ++ ps2) (xs1 ++ xs2) after <->
     chain m before ps1 xs1 (first_or ps2 after) /\
     chain m (last_or ps1 before) ps2 xs2 after).
Proof.
  induction ps1 as [|p ps1 IH]; intros before [|x xs1] Hlen; simpl in Hlen; try lia.
  - simpl. tauto.
  - cbn [app chain last_or]. rewrite first_or_app.
    rewrite (IH (Some p) xs1) by lia. tauto.
Qed.

(** A write outside the chain does not change it. *)
Lemma chain_frame (m : Memory) (q : nat) (b : option Block) (ps : list nat) :
  forall (before after : option nat) (xs : list Bounded.Pair),
    ~ In q ps -> chain m before ps xs after ->
    chain (update m q b) before ps xs after.
Proof.
  induction ps as [|p ps IH]; intros before after [|x xs] Hq H; simpl in *; auto.
  destruct H as [Hp H]. split.
  - rewrite nth_error_update_other by (intros E; apply Hq; now left). exact Hp.
  - apply IH; [tauto|exact H].
Qed.

Lemma chain_grow (m extra : Memory) (ps : list nat) :
  forall (before after : option nat) (xs : list Bounded.Pair),
    chain m before ps xs after -> chain (m ++ extra) before ps xs after.
Proof.
  induction ps as [|p ps IH]; intros before after [|x xs] H; simpl in *; auto.
  destruct H as [Hp H]. split; [|now apply IH].
  rewrite nth_error_app1 by (eapply nth_error_in_bounds; exact Hp). exact Hp.
Qed.

Lemma chain_allocated (m : Memory) (ps : list nat) :
  forall (before after : option nat) (xs : list Bounded.Pair) (p : nat),
    chain m before ps xs after -> In p ps ->
    exists b : PairBlock, nth_error m p = Some (Some (PairB b)).
Proof.
  induction ps as [|q ps IH]; intros before after [|x xs] p H Hin; simpl in *;
    try contradiction.
  destruct H as [Hq H]. destruct Hin as [<-|Hin]; [eauto|].
  eapply IH; eauto.
Qed.

(** The chain at a position. *)
Lemma chain_split_at (m : Memory) (ps : list nat) :
  forall (before after : option nat) (xs : list Bounded.Pair) (i p : nat),
    chain m before ps xs after -> nth_error ps i = Some p ->
    exists (ps1 ps2 : list nat) (xs1 xs2 : list Bounded.Pair) (x : Bounded.Pair),
      ps = ps1 ++ p :: ps2 /\ xs = xs1 ++ x :: xs2 /\
      length ps1 = i /\ length xs1 = i.
Proof.
  induction ps as [|q ps IH]; intros before after [|x xs] i p H Hi; simpl in H;
    try contradiction; destruct i as [|i]; simpl in Hi; try discriminate.
  - injection Hi as <-. now exists [], ps, [], xs, x.
  - destruct H as [_ H].
    destruct (IH _ _ _ _ _ H Hi) as (ps1 & ps2 & xs1 & xs2 & y & -> & -> & H1 & H2).
    exists (q :: ps1), ps2, (x :: xs1), xs2, y. simpl. repeat split; auto.
Qed.

Lemma deref_pair_eq (m : Memory) (p : nat) (b : PairBlock) :
  nth_error m p = Some (Some (PairB b)) -> deref_pair m p = Ok b.
Proof. intros H. unfold deref_pair. now rewrite H. Qed.

Lemma deref_settings_eq (m : Memory) (p : nat) (s : SettingsBlock) :
  nth_error m p = Some (Some (SettingsB s)) -> deref_settings m p = Ok s.
Proof. intros H. unfold deref_settings. now rewrite H. Qed.

(** The settings block is none of the pairs. *)
Lemma settings_apart (m : Memory) (sp : nat) (s : SettingsBlock) (ps : list nat)
    (before after : option nat) (xs : list Bounded.Pair) :
  nth_error m sp = Some (Some (SettingsB s)) -> chain m before ps xs after ->
  ~ In sp ps.
Proof.
  intros Hs Hc Hin. destruct (chain_allocated m ps before after xs sp Hc Hin) as [b Hb].
  congruence.
Qed.

(** The pairs of a chain are blocks of the memory. *)
Lemma chain_short (m : Memory) (ps : list nat)
    (before after : option nat) (xs : list Bounded.Pair) :
  NoDup ps -> chain m before ps xs after -> (length ps <= length m)%nat.
Proof.
  intros Hnd Hc.
  assert (Hincl : incl ps (seq 0 (length m))).
  { intros p Hp. destruct (chain_allocated m ps before after xs p Hc Hp) as [b Hb].
    apply in_seq. apply nth_error_in_bounds in Hb. lia. }
  apply (NoDup_incl_length Hnd) in Hincl. now rewrite length_seq in Hincl.
Qed.

(** [find_loop] follows the chain as [Bounded.find_from] follows the
    list. *)
Lemma find_loop_chain (m : Memory) (k : option cstring) (ps : list nat) :
  forall (before : option nat) (xs : list Bounded.Pair) (pos fuel : nat),
    chain m before ps xs None -> (length ps < fuel)%nat ->
    find_loop fuel m (first_or ps None) k
    = Ok (match Bounded.find_from xs k pos with
          | Some (i, _) => nth_error ps (i - pos)
          | None => None
          end).
Proof.
  induction ps as [|p ps IH]; intros before [|x xs] pos fuel H Hfuel; simpl in H;
    try contradiction; (destruct fuel as [|fuel]; [simpl in Hfuel; lia|]).
  - reflexivity.
  - destruct H as [Hp H]. cbn [first_or find_loop Bounded.find_from].
    rewrite (deref_pair_eq m p _ Hp). cbn [bind pair next].
    destruct (Bounded.keys_match (Some (Bounded.key x)) k).
    + now rewrite Nat.sub_diag.
    + rewrite (IH (Some p) xs (S pos) fuel H) by (simpl in Hfuel; lia).
      destruct (Bounded.find_from xs k (S pos)) as [[i y]|] eqn:E; [|reflexivity].
      apply BoundedLookup.find_from_ge in E.
      replace (i - pos)%nat with (S (i - S pos)) by lia. reflexivity.
Qed.

Lemma find_pair_represents (m : Memory) (sp : nat) (ps : list nat)
    (xs : list Bounded.Pair) (k : option cstring) :
  represents m sp ps xs ->
  find_pair m (Some sp) k
  = Ok (match Bounded.find_pair (Some xs) k with
        | Some (i, _) => nth_error ps i
        | None => None
        end).
Proof.
  intros (Hnd & Hs & Hc). unfold find_pair, Bounded.find_pair.
  rewrite (deref_settings_eq m sp _ Hs). cbn [bind first].
  rewrite (find_loop_chain m k ps None xs 0 (S (length m)) Hc).
  - destruct (Bounded.find_from xs k 0) as [[i y]|]; [|reflexivity].
    now rewrite Nat.sub_0_r.
  - pose proof (chain_short m ps None None xs Hnd Hc). lia.
Qed.

(** What the list function finds is in the list, at its position. *)
Lemma find_from_position (xs : list Bounded.Pair) (k : option cstring) :
  forall (pos i : nat) (x : Bounded.Pair),
    Bounded.find_from xs k pos = Some (i, x) ->
    (pos <= i)%nat /\ nth_error xs (i - pos) = Some x.
Proof.
  induction xs as [|y xs IH]; intros pos i x H; cbn [Bounded.find_from] in H;
    [discriminate|].
  destruct (Bounded.keys_match (Some (Bounded.key y)) k).
  - injection H as <- <-. rewrite Nat.sub_diag. split; [lia|reflexivity].
  - destruct (IH (S pos) i x H) as [Hle Hnth]. split; [lia|].
    replace (i - pos)%nat with (S (i - S pos)) by lia. exact Hnth.
Qed.

Lemma chain_nth (m : Memory) (ps : list nat) :
  forall (before after : option nat) (xs : list Bounded.Pair) (i p : nat)
         (x : Bounded.Pair),
    chain m before ps xs after -> nth_error ps i = Some p -> nth_error xs i = Some x ->
    exists nx pv : option nat,
      nth_error m p = Some (Some (PairB {| pair := x; next := nx; prev := pv |})).
Proof.
  induction ps as [|q ps IH]; intros before after [|y xs] i p x H Hp Hx; simpl in H;
    try contradiction; destruct i as [|i]; simpl in Hp, Hx; try discriminate.
  - injection Hp as <-. injection Hx as <-. destruct H as [H _]. eauto.
  - destruct H as [_ H]. eapply IH; eauto.
Qed.

Lemma first_or_nonempty (ps : list nat) (d d' : option nat) :
  ps <> [] -> first_or ps d = first_or ps d'.
Proof. destruct ps; [contradiction|reflexivity]. Qed.

Lemma last_or_nonempty (ps : list nat) (d d' : option nat) :
  ps <> [] -> last_or ps d = last_or ps d'.
Proof. destruct ps; [contradiction|reflexivity]. Qed.

Lemma last_or_snoc (ps : list nat) (l : nat) (d : option nat) :
  last_or (ps ++ [l]) d = Some l.
Proof. now rewrite last_or_app. Qed.

(** A chain that ends with the pair at [l]. *)
Lemma chain_snoc (m : Memory) (ps : list nat) (l : nat) (before after : option nat)
    (xs : list Bounded.Pair) :
  chain m before (ps ++ [l]) xs after ->
  exists (xs0 : list Bounded.Pair) (x : Bounded.Pair),
    xs = xs0 ++ [x] /\ length ps = length xs0 /\
    chain m before ps xs0 (Some l) /\
    nth_error m l
    = Some (Some (PairB {| pair := x; next := after; prev := last_or ps before |})).
Proof.
  intros H. pose proof (chain_length _ _ _ _ _ H) as Hlen.
  rewrite length_app in Hlen. cbn [length] in Hlen.
  destruct (exists_last (l := xs)) as (xs0 & x & ->).
  { intros E. rewrite E in Hlen. simpl in Hlen. lia. }
  rewrite length_app in Hlen. cbn [length] in Hlen.
  assert (Hl : length ps = length xs0) by lia.
  apply (chain_app m ps [l] [x] after before xs0 Hl) in H.
  destruct H as [H1 H2]. cbn [chain first_or] in H1, H2.
  exists xs0, x. repeat split; auto. tauto.
Qed.

(** The pair at [p] in its chain. *)
Lemma chain_middle (m : Memory) (ps1 ps2 : list nat) (p : nat)
    (xs1 xs2 : list Bounded.Pair) (x : Bounded.Pair) (before after : option nat) :
  length ps1 = length xs1 ->
  (chain m before (ps1 ++ p :: ps2) (xs1 ++ x :: xs2) after <->
   chain m before ps1 xs1 (Some p) /\
   nth_error m p
   = Some (Some (PairB {| pair := x; next := first_or ps2 after;
                          prev := last_or ps1 before |})) /\
   chain m (Some p) ps2 xs2 after).
Proof.
  intros Hlen. rewrite (chain_app m ps1 (p :: ps2) (x :: xs2) after before xs1 Hlen).
  cbn [chain first_or]. tauto.
Qed.

End PointerFacts.

Module PointerSteps.
Import Pointers PointerFacts.

Lemma write_length (m : Memory) (p : nat) (b : Block) :
  length (write m p b) = length m.
Proof. apply update_length. Qed.

Lemma write_same (m : Memory) (p : nat) (b : Block) :
  (p < length m)%nat -> nth_error (write m p b) p = Some (Some b).
Proof. apply nth_error_update_same. Qed.

Lemma write_other (m : Memory) (p q : nat) (b : Block) :
  p <> q -> nth_error (write m p b) q = nth_error m q.
Proof. apply nth_error_update_other. Qed.

(** What is found is a pair of the list, where the list has it. *)
Lemma found_pair (m : Memory) (sp : nat) (ps : list nat) (xs : list Bounded.Pair)
    (k : option cstring) (i : nat) (x : Bounded.Pair) :
  represents m sp ps xs ->
  Bounded.find_pair (Some xs) k = Some (i, x) ->
  exists (ps1 ps2 : list nat) (p : nat) (xs1 xs2 : list Bounded.Pair),
    ps = ps1 ++ p :: ps2 /\ xs = xs1 ++ x :: xs2 /\
    length ps1 = i /\ length xs1 = i /\ nth_error ps i = Some p.
Proof.
  intros (Hnd & Hs & Hc) Hfind. cbn [Bounded.find_pair] in Hfind.
  destruct (find_from_position xs k 0 i x Hfind) as [_ Hx].
  rewrite Nat.sub_0_r in Hx.
  pose proof (chain_length _ _ _ _ _ Hc) as Hlen.
  destruct (nth_error ps i) as [p|] eqn:Hp.
  2:{ apply nth_error_None in Hp. apply nth_error_in_bounds in Hx. lia. }
  destruct (chain_split_at m ps None None xs i p Hc Hp)
    as (ps1 & ps2 & xs1 & xs2 & y & -> & -> & H1 & H2).
  rewrite nth_error_app2 in Hx by lia.
  replace (i - length xs1)%nat with 0%nat in Hx by lia.
  cbn [nth_error] in Hx. injection Hx as ->.
  now exists ps1, ps2, p, xs1, xs2.
Qed.

(** [settings_get_string] reads what the list function reads. *)
Lemma get_string_refines (m : Memory) (sp : nat) (ps : list nat)
    (xs : list Bounded.Pair) (k d : option cstring) :
  represents m sp ps xs ->
  settings_get_string m (Some sp) k d = Ok (Bounded.settings_get_string (Some xs) k d).
Proof.
  intros Hrep. unfold settings_get_string, Bounded.settings_get_string.
  rewrite (find_pair_represents m sp ps xs k Hrep).
  destruct (Bounded.find_pair (Some xs) k) as [[i x]|] eqn:Hfind; [|reflexivity].
  destruct (found_pair m sp ps xs k i x Hrep Hfind)
    as (ps1 & ps2 & p & xs1 & xs2 & -> & -> & H1 & H2 & Hp).
  rewrite Hp. cbn [bind].
  destruct Hrep as (_ & _ & Hc). apply chain_middle in Hc; [|lia].
  destruct Hc as (_ & Hnode & _).
  now rewrite (deref_pair_eq _ _ _ Hnode).
Qed.

(** The value of a pair that is found is replaced where the pair is. *)
Lemma replace_represents (m : Memory) (sp : nat) (ps1 ps2 : list nat) (p : nat)
    (xs1 xs2 : list Bounded.Pair) (x y : Bounded.Pair) :
  length ps1 = length xs1 ->
  represents m sp (ps1 ++ p :: ps2) (xs1 ++ x :: xs2) ->
  exists b : PairBlock,
    deref_pair m p = Ok b /\
    represents (write m p (PairB {| pair := y; next := next b; prev := prev b |})) sp
      (ps1 ++ p :: ps2) (xs1 ++ y :: xs2).
Proof.
  intros Hlen (Hnd & Hs & Hc).
  pose proof (settings_apart _ _ _ _ _ _ _ Hs Hc) as Hsp.
  apply chain_middle in Hc; [|exact Hlen]. destruct Hc as (H1 & Hnode & H2).
  eexists. split; [apply deref_pair_eq; exact Hnode|]. cbn [next prev].
  apply NoDup_remove_2 in Hnd as Hp.
  split; [exact Hnd|]. split.
  - rewrite write_other; [exact Hs|]. intros E. apply Hsp. rewrite <- E.
    apply in_or_app. right. now left.
  - apply chain_middle; [exact Hlen|]. split; [|split].
    + apply chain_frame; [|exact H1]. intros H. apply Hp. apply in_or_app. now left.
    + apply write_same. eapply nth_error_in_bounds. exact Hnode.
    + apply chain_frame; [|exact H2]. intros H. apply Hp. apply in_or_app. now right.
Qed.

(** A new pair is linked at the end of the list. *)
Lemma link_last_represents (m : Memory) (sp : nat) (ps : list nat)
    (xs : list Bounded.Pair) (y : Bounded.Pair) :
  represents m sp ps xs ->
  exists m' : Memory,
    link_last (m ++ [Some (PairB {| pair := y; next := None; prev := None |})]) sp
      (length m)
    = Ok m' /\
    represents m' sp (ps ++ [length m]) (xs ++ [y]) /\
    length m' = S (length m).
Proof.
  intros (Hnd & Hs & Hc).
  pose proof (settings_apart _ _ _ _ _ _ _ Hs Hc) as Hsp.
  pose proof (nth_error_in_bounds _ _ _ Hs) as Hspm.
  set (a := length m).
  set (m1 := m ++ [Some (PairB {| pair := y; next := None; prev := None |})]).
  assert (Hm1 : length m1 = S a) by (unfold m1; rewrite length_app; simpl; lia).
  assert (Ha : nth_error m1 a
               = Some (Some (PairB {| pair := y; next := None; prev := None |}))).
  { unfold m1, a. rewrite nth_error_app2 by lia. now rewrite Nat.sub_diag. }
  assert (Hs1 : nth_error m1 sp
                = Some (Some (SettingsB {| first := first_or ps None;
                                           last := last_or ps None |}))).
  { unfold m1. now rewrite nth_error_app1 by lia. }
  assert (Hfresh : ~ In a ps).
  { intros H. destruct (chain_allocated m ps None None xs a Hc H) as [b Hb].
    apply nth_error_in_bounds in Hb. unfold a in Hb. lia. }
  assert (Hnd' : NoDup (ps ++ [a])).
  { apply NoDup_app; auto.
    - constructor; [tauto|constructor].
    - intros x Hx [<-|[]]. contradiction. }
  pose proof (chain_length _ _ _ _ _ Hc) as Hlen.
  unfold link_last. rewrite (deref_settings_eq _ _ _ Hs1). cbn [bind first last].
  destruct (list_eq_dec Nat.eq_dec ps []) as [->|Hne].
  - (* the list is empty *)
    destruct xs as [|x xs]; [|simpl in Hlen; lia].
    cbn [first_or last_or].
    rewrite (deref_settings_eq _ sp {| first := Some a; last := None |})
      by (apply write_same; lia).
    cbn [bind first last]. eexists. split; [reflexivity|]. split; [|now rewrite !write_length].
    split; [exact Hnd'|]. split.
    + cbn [app first_or last_or]. apply write_same. rewrite write_length. lia.
    + cbn [app chain first_or]. split; [|exact I].
      rewrite !write_other by lia. exact Ha.
  - (* the new pair comes after the last one *)
    destruct (exists_last Hne) as (ps' & l & Els).
    destruct (first_or ps None) as [f|] eqn:Hf; [|destruct ps; [contradiction|discriminate]].
    rewrite (deref_settings_eq _ _ _ Hs1). cbn [bind first last].
    assert (Hlast : last_or ps None = Some l) by (rewrite Els; apply last_or_snoc).
    rewrite Hlast in *.
    assert (Hc1 : chain m1 None ps xs None) by (apply chain_grow; exact Hc).
    rewrite Els in Hc1. destruct (chain_snoc _ _ _ _ _ _ Hc1)
      as (xs0 & xl & Exs & Hlen0 & Hc0 & Hl).
    rewrite (deref_pair_eq _ _ _ Hl). cbn [bind pair next prev].
    assert (Hla : l <> a).
    { intros E. apply Hfresh. rewrite Els, <- E. apply in_or_app. right. now left. }
    assert (Hlsp : l <> sp).
    { intros E. apply Hsp. rewrite Els, <- E. apply in_or_app. right. now left. }
    assert (Hasp : a <> sp) by lia.
    rewrite (deref_pair_eq _ a {| pair := y; next := None; prev := None |})
      by (rewrite write_other by exact Hla; exact Ha).
    cbn [bind pair next prev].
    rewrite (deref_settings_eq _ sp {| first := Some f; last := Some l |})
      by (rewrite !write_other by auto; exact Hs1).
    cbn [bind first last].
    eexists. split; [reflexivity|]. split; [|now rewrite !write_length].
    split; [exact Hnd'|]. split.
    + rewrite first_or_app, last_or_snoc. cbn [first_or].
      rewrite (first_or_nonempty ps (Some a) None Hne), Hf.
      apply write_same. rewrite !write_length. lia.
    + rewrite Exs. rewrite Els.
      apply chain_app; [rewrite !length_app; cbn [length]; lia|].
      rewrite last_or_snoc. cbn [first_or chain]. split.
      * apply chain_app; [exact Hlen0|]. cbn [first_or chain]. split; [|split; [|exact I]].
        -- assert (Hl' : ~ In l ps').
           { rewrite Els in Hnd. apply NoDup_remove_2 in Hnd.
             now rewrite app_nil_r in Hnd. }
           assert (Ha' : ~ In a ps').
           { intros H. apply Hfresh. rewrite Els. apply in_or_app. now left. }
           assert (Hsp' : ~ In sp ps').
           { intros H. apply Hsp. rewrite Els. apply in_or_app. now left. }
           unfold write. now repeat apply chain_frame.
        -- rewrite write_other by auto. rewrite write_other by auto.
           apply write_same. eapply nth_error_in_bounds. exact Hl.
      * split; [|exact I]. rewrite write_other by auto.
        apply write_same. rewrite write_length. lia.
Qed.

(** [settings_set_string], pointer by pointer, does what the list
    function does. *)
Lemma set_string_refines (m : Memory) (sp : nat) (ps : list nat)
    (xs : list Bounded.Pair) (k v : option cstring) (h : Heap) :
  represents m sp ps xs ->
  exists (m' : Memory) (ps' : list nat) (xs' : list Bounded.Pair),
    settings_set_string m (Some sp) k v h
    = Ok (fst (fst (Bounded.settings_set_string (Some xs) k v h)), m',
          snd (Bounded.settings_set_string (Some xs) k v h)) /\
    snd (fst (Bounded.settings_set_string (Some xs) k v h)) = Some xs' /\
    represents m' sp ps' xs'.
Proof.
  intros Hrep. unfold settings_set_string, Bounded.settings_set_string.
  destruct k as [k|]; [|now exists m, ps, xs].
  destruct v as [v|]; [|now exists m, ps, xs].
  destruct (Bounded.too_long k v); [now exists m, ps, xs|].
  rewrite (find_pair_represents m sp ps xs (Some k) Hrep).
  destruct (Bounded.find_pair (Some xs) (Some k)) as [[i x]|] eqn:Hfind.
  - destruct (found_pair m sp ps xs (Some k) i x Hrep Hfind)
      as (ps1 & ps2 & p & xs1 & xs2 & -> & -> & H1 & H2 & Hp).
    rewrite Hp. cbn [bind].
    destruct (replace_represents m sp ps1 ps2 p xs1 xs2 x (Bounded.copy_pair k v))
      as (b & Hb & Hrep'); [lia|exact Hrep|].
    rewrite Hb. cbn [bind fst snd].
    eexists _, (ps1 ++ p :: ps2), (xs1 ++ Bounded.copy_pair k v :: xs2).
    split; [reflexivity|]. split; [|exact Hrep'].
    rewrite <- H2. now rewrite update_middle.
  - cbn [bind]. unfold create_pair, Bounded.create_pair, malloc.
    destruct (memory_malloc h) as [[|] h']; cbn [fst snd].
    + destruct (link_last_represents m sp ps xs (Bounded.copy_pair k v) Hrep)
        as (m' & Hlink & Hrep' & _).
      rewrite Hlink. cbn [bind].
      now exists m', (ps ++ [length m]), (xs ++ [Bounded.copy_pair k v]).
    + now exists m, ps, xs.
Qed.

(** A pair is taken out of the list and freed. *)
Lemma unlink_represents (m : Memory) (sp : nat) (ps1 ps2 : list nat) (p : nat)
    (xs1 xs2 : list Bounded.Pair) (x : Bounded.Pair) :
  length ps1 = length xs1 ->
  represents m sp (ps1 ++ p :: ps2) (xs1 ++ x :: xs2) ->
  exists m' : Memory,
    unlink m sp p = Ok m' /\
    represents m' sp (ps1 ++ ps2) (xs1 ++ xs2) /\
    nth_error m' p = Some None /\
    (forall q : nat, q <> sp -> ~ In q (ps1 ++ p :: ps2) ->
                     nth_error m' q = nth_error m q).
Proof.
  intros Hlen (Hnd & Hs & Hc).
  pose proof (settings_apart _ _ _ _ _ _ _ Hs Hc) as Hsp.
  pose proof (nth_error_in_bounds _ _ _ Hs) as Hspm.
  apply NoDup_remove in Hnd as [Hnd' Hp].
  assert (Hp1 : ~ In p ps1) by (intros H; apply Hp; apply in_or_app; now left).
  assert (Hp2 : ~ In p ps2) by (intros H; apply Hp; apply in_or_app; now right).
  assert (Hpsp : p <> sp).
  { intros E. apply Hsp. rewrite <- E. apply in_or_app. right. now left. }
  assert (Hsp1 : ~ In sp ps1).
  { intros H. apply Hsp. apply in_or_app. now left. }
  assert (Hsp2 : ~ In sp ps2).
  { intros H. apply Hsp. apply in_or_app. right. now right. }
  apply chain_middle in Hc; [|exact Hlen]. destruct Hc as (H1 & Hnode & H2).
  pose proof (nth_error_in_bounds _ _ _ Hnode) as Hpm.
  unfold unlink. rewrite (deref_pair_eq _ _ _ Hnode). cbn [bind next prev].
  (* the first step: the pair after [p], or [last] *)
  assert (Hstep1 : exists m1 : Memory,
             match first_or ps2 None with
             | Some n =>
                 nb <- deref_pair m n ;;
                 Ok (write m n (PairB {| pair := pair nb; next := next nb;
                                         prev := last_or ps1 None |}))
             | None =>
                 s <- deref_settings m sp ;;
                 Ok (write m sp (SettingsB {| first := first s;
                                              last := last_or ps1 None |}))
             end = Ok m1 /\
             length m1 = length m /\
             nth_error m1 p = nth_error m p /\
             chain m1 None ps1 xs1 (Some p) /\
             chain m1 (last_or ps1 None) ps2 xs2 None /\
             nth_error m1 sp
             = Some (Some (SettingsB {| first := first_or ps1 (Some p);
                                        last := last_or ps2 (last_or ps1 None) |})) /\
             (forall q : nat, q <> sp -> ~ In q (ps1 ++ p :: ps2) ->
                              nth_error m1 q = nth_error m q)).
  { destruct ps2 as [|n ps2'].
    - destruct xs2 as [|? ?]; [|simpl in H2; contradiction].
      cbn [first_or]. rewrite (deref_settings_eq _ _ _ Hs). cbn [bind first].
      eexists. split; [reflexivity|]. split; [apply write_length|].
      split; [apply write_other; auto|].
      split; [now apply chain_frame|]. split; [exact I|]. split.
      + rewrite write_same by exact Hspm. cbn [last_or].
        now rewrite first_or_app.
      + intros q Hq _. now apply write_other.
    - destruct xs2 as [|xn xs2']; [simpl in H2; contradiction|].
      cbn [first_or]. cbn [chain] in H2. destruct H2 as [Hn H2].
      rewrite (deref_pair_eq _ _ _ Hn). cbn [bind pair next].
      assert (Hnp : n <> p) by (intros E; apply Hp2; now left).
      assert (Hnsp : n <> sp) by (intros E; apply Hsp2; now left).
      assert (Hn1 : ~ In n ps1).
      { intros H. apply NoDup_remove_2 in Hnd'. apply Hnd'. apply in_or_app. now left. }
      assert (Hn2 : ~ In n ps2').
      { apply NoDup_remove_2 in Hnd'. intros H. apply Hnd'. apply in_or_app. now right. }
      eexists. split; [reflexivity|]. split; [apply write_length|].
      split; [apply write_other; auto|].
      split; [now apply chain_frame|]. split; [|split].
      + cbn [chain]. split; [apply write_same; eapply nth_error_in_bounds; exact Hn|].
        now apply chain_frame.
      + rewrite write_other by exact Hnsp. rewrite Hs. rewrite first_or_app, last_or_app.
        reflexivity.
      + intros q _ Hq. apply write_other. intros E. apply Hq. rewrite <- E.
        apply in_or_app. right. right. now left. }
  destruct Hstep1 as (m1 & -> & Hlen1 & Hsame1 & Hc1 & Hc2 & Hs1 & Hframe1).
  cbn [bind]. rewrite Hnode in Hsame1.
  rewrite (deref_pair_eq _ _ _ Hsame1). cbn [bind next prev].
  (* the second step: the pair before [p], or [first] *)
  assert (Hstep2 : exists m2 : Memory,
             match last_or ps1 None with
             | Some q =>
                 qb <- deref_pair m1 q ;;
                 Ok (write m1 q (PairB {| pair := pair qb; next := first_or ps2 None;
                                          prev := prev qb |}))
             | None =>
                 s <- deref_settings m1 sp ;;
                 Ok (write m1 sp (SettingsB {| first := first_or ps2 None;
                                               last := last s |}))
             end = Ok m2 /\
             length m2 = length m /\
             nth_error m2 p = nth_error m p /\
             chain m2 None ps1 xs1 (first_or ps2 None) /\
             chain m2 (last_or ps1 None) ps2 xs2 None /\
             nth_error m2 sp
             = Some (Some (SettingsB {| first := first_or ps1 (first_or ps2 None);
                                        last := last_or ps2 (last_or ps1 None) |})) /\
             (forall q : nat, q <> sp -> ~ In q (ps1 ++ p :: ps2) ->
                              nth_error m2 q = nth_error m q)).
  { destruct (list_eq_dec Nat.eq_dec ps1 []) as [->|Hne].
    - destruct xs1 as [|? ?]; [|simpl in Hlen; lia].
      cbn [last_or]. rewrite (deref_settings_eq _ _ _ Hs1). cbn [bind last first_or].
      eexists. split; [reflexivity|]. split; [now rewrite write_length|].
      split; [rewrite write_other by auto; now rewrite Hsame1, Hnode|].
      split; [exact I|]. split; [now apply chain_frame|]. split.
      + apply write_same. lia.
      + intros q Hq Hq'. rewrite write_other by auto. now apply Hframe1.
    - destruct (exists_last Hne) as (ps1' & q & ->).
      destruct (chain_snoc _ _ _ _ _ _ Hc1) as (xs0 & xq & -> & Hlen0 & Hc0 & Hq).
      rewrite last_or_snoc in *.
      rewrite (deref_pair_eq _ _ _ Hq). cbn [bind pair prev].
      assert (Hqp : q <> p) by (intros E; apply Hp1; apply in_or_app; right; now left).
      assert (Hqsp : q <> sp) by (intros E; apply Hsp1; apply in_or_app; right; now left).
      assert (Hq1 : ~ In q ps1').
      { apply NoDup_app_remove_r in Hnd'. apply NoDup_remove_2 in Hnd'.
        now rewrite app_nil_r in Hnd'. }
      assert (Hq2 : ~ In q ps2).
      { intros H. rewrite <- app_assoc in Hnd'. apply NoDup_remove_2 in Hnd'.
        apply Hnd'. apply in_or_app. now right. }
      eexists. split; [reflexivity|]. split; [now rewrite write_length|].
      split; [rewrite write_other by auto; now rewrite Hsame1, Hnode|].
      split; [|split; [|split]].
      + apply chain_app; [exact Hlen0|]. cbn [first_or chain]. split; [|split; [|exact I]].
        * now apply chain_frame.
        * apply write_same. eapply nth_error_in_bounds. exact Hq.
      + now apply chain_frame.
      + rewrite write_other by auto. rewrite Hs1.
        now rewrite (first_or_nonempty _ (Some p) (first_or ps2 None) Hne).
      + intros r Hr Hr'. rewrite write_other; [now apply Hframe1|].
        intros E. apply Hr'. rewrite <- E.
        apply in_or_app. left. apply in_or_app. right. now left. }
  destruct Hstep2 as (m2 & -> & Hlen2 & Hsame2 & Hc1' & Hc2' & Hs2 & Hframe2).
  cbn [bind]. unfold memory_free. rewrite Hsame2, Hnode.
  eexists. split; [reflexivity|]. split; [|split].
  - split; [exact Hnd'|]. split.
    + rewrite nth_error_update_other by auto. rewrite Hs2.
      now rewrite first_or_app, last_or_app.
    + apply chain_app; [exact Hlen|]. split; now apply chain_frame.
  - apply nth_error_update_same. lia.
  - intros q Hq Hq'. rewrite nth_error_update_other.
    + now apply Hframe2.
    + intros E. apply Hq'. rewrite <- E. apply in_or_app. right. now left.
Qed.

(** [settings_remove], pointer by pointer, does what the list function
    does, and frees the block of the pair. *)
Lemma remove_refines (m : Memory) (sp : nat) (ps : list nat)
    (xs : list Bounded.Pair) (k : option cstring) :
  represents m sp ps xs ->
  exists (m' : Memory) (ps' : list nat) (xs' : list Bounded.Pair),
    settings_remove m (Some sp) k
    = Ok (fst (Bounded.settings_remove (Some xs) k), m') /\
    snd (Bounded.settings_remove (Some xs) k) = Some xs' /\
    represents m' sp ps' xs' /\
    (forall p : nat, In p ps -> ~ In p ps' -> nth_error m' p = Some None) /\
    (forall q : nat, q <> sp -> ~ In q ps -> nth_error m' q = nth_error m q).
Proof.
  intros Hrep. unfold settings_remove, Bounded.settings_remove.
  rewrite (find_pair_represents m sp ps xs k Hrep).
  destruct (Bounded.find_pair (Some xs) k) as [[i x]|] eqn:Hfind.
  - destruct (found_pair m sp ps xs k i x Hrep Hfind)
      as (ps1 & ps2 & p & xs1 & xs2 & -> & -> & H1 & H2 & Hp).
    rewrite Hp. cbn [bind].
    destruct (unlink_represents m sp ps1 ps2 p xs1 xs2 x)
      as (m' & Hun & Hrep' & Hfreed & Hframe); [lia|exact Hrep|].
    rewrite Hun. cbn [bind fst snd].
    exists m', (ps1 ++ ps2), (xs1 ++ xs2).
    split; [reflexivity|]. split; [|split; [exact Hrep'|split; [|exact Hframe]]].
    + rewrite <- H2. now rewrite firstn_exact, skipn_past.
    + intros q Hq Hq'. apply in_app_or in Hq. destruct Hq as [Hq|[<-|Hq]].
      * exfalso. apply Hq'. apply in_or_app. now left.
      * exact Hfreed.
      * exfalso. apply Hq'. apply in_or_app. now right.
  - cbn [bind fst snd]. exists m, ps, xs.
    split; [reflexivity|]. split; [reflexivity|]. split; [exact Hrep|].
    split; [intros p Hp Hp'; contradiction|reflexivity].
Qed.

(** [settings_free] frees the blocks of the pairs, and nothing else. *)
Lemma free_loop_chain (ps : list nat) :
  forall (m : Memory) (before : option nat) (xs : list Bounded.Pair) (fuel : nat),
    NoDup ps -> chain m before ps xs None -> (length ps < fuel)%nat ->
    exists m' : Memory,
      free_loop fuel m (first_or ps None) = Ok m' /\
      (forall p : nat, In p ps -> nth_error m' p = Some None) /\
      (forall q : nat, ~ In q ps -> nth_error m' q = nth_error m q).
Proof.
  induction ps as [|p ps IH]; intros m before [|x xs] fuel Hnd Hc Hfuel; simpl in Hc;
    try contradiction; (destruct fuel as [|fuel]; [simpl in Hfuel; lia|]).
  - exists m. split; [reflexivity|]. split; [intros p []|reflexivity].
  - destruct Hc as [Hp Hc]. inversion Hnd as [|? ? Hpps Hnd']; subst.
    cbn [first_or free_loop]. rewrite (deref_pair_eq _ _ _ Hp). cbn [bind next].
    unfold memory_free. rewrite Hp. cbn [bind].
    destruct (IH (update m p None) (Some p) xs fuel Hnd') as (m' & Hrun & Hfreed & Hframe).
    + now apply chain_frame.
    + simpl in Hfuel. lia.
    + exists m'. split; [exact Hrun|]. split.
      * intros q [<-|Hq]; [|now apply Hfreed].
        rewrite Hframe by exact Hpps. apply nth_error_update_same.
        eapply nth_error_in_bounds. exact Hp.
      * intros q Hq. rewrite Hframe by (simpl in Hq; tauto).
        apply nth_error_update_other. simpl in Hq. tauto.
Qed.

End PointerSteps.

Module PointerRuns.
Import Pointers PointerFacts PointerSteps.

Lemma create_represents (m : Memory) (h : Heap) :
  fst (memory_malloc h) = true ->
  settings_create m h
  = (Some (length m), m ++ [Some (SettingsB {| first := None; last := None |})],
     snd (memory_malloc h)) /\
  represents (m ++ [Some (SettingsB {| first := None; last := None |})]) (length m) [] [].
Proof.
  intros Hok. unfold settings_create, malloc.
  destruct (memory_malloc h) as [ok h']. cbn [fst snd] in *. subst ok.
  split; [reflexivity|]. split; [constructor|]. split; [|exact I].
  rewrite nth_error_app2 by lia. now rewrite Nat.sub_diag.
Qed.

Lemma run_refines (calls : list Call) :
  forall (m : Memory) (sp : nat) (ps : list nat) (xs : list Bounded.Pair) (h : Heap),
    represents m sp ps xs ->
    exists (m' : Memory) (ps' : list nat) (xs' : list Bounded.Pair),
      run_pointers calls m (Some sp) h
      = Ok (fst (fst (run_list calls (Some xs) h)), m',
            snd (run_list calls (Some xs) h)) /\
      snd (fst (run_list calls (Some xs) h)) = Some xs' /\
      represents m' sp ps' xs'.
Proof.
  induction calls as [|[k v|k] calls IH]; intros m sp ps xs h Hrep.
  - now exists m, ps, xs.
  - cbn [run_pointers run_list].
    destruct (set_string_refines m sp ps xs k v h Hrep)
      as (m1 & ps1 & xs1 & Hset & Hxs1 & Hrep1).
    rewrite Hset. cbn [bind].
    destruct (Bounded.settings_set_string (Some xs) k v h) as [[r o] h1].
    cbn [fst snd] in *. subst o.
    destruct (IH m1 sp ps1 xs1 h1 Hrep1) as (m' & ps' & xs' & Hrun & Hxs' & Hrep').
    rewrite Hrun. cbn [bind].
    destruct (run_list calls (Some xs1) h1) as [[rs o] h2]. cbn [fst snd] in *.
    now exists m', ps', xs'.
  - cbn [run_pointers run_list].
    destruct (remove_refines m sp ps xs k Hrep)
      as (m1 & ps1 & xs1 & Hrem & Hxs1 & Hrep1 & _).
    rewrite Hrem. cbn [bind].
    destruct (Bounded.settings_remove (Some xs) k) as [r o].
    cbn [fst snd] in *. subst o.
    destruct (IH m1 sp ps1 xs1 h Hrep1) as (m' & ps' & xs' & Hrun & Hxs' & Hrep').
    rewrite Hrun. cbn [bind].
    destruct (run_list calls (Some xs1) h) as [[rs o] h2]. cbn [fst snd] in *.
    now exists m', ps', xs'.
Qed.

End PointerRuns.

(** X22: in settings.c taken pointer by pointer, when the settings block
    and the blocks of the pairs make up a well linked list, [find_pair]
    follows the [next] pointers from [first] and returns the address of
    the first pair whose key matches, which is the pair at the position
    the function on lists returns, or null when that one finds none; and
    [settings_get_string] returns what the function on lists returns. *)
Theorem pointers_find_and_get
    (m : list (option Pointers.Block)) (sp : nat) (ps : list nat)
    (xs : list Bounded.Pair) (k d : option cstring) :
  Pointers.represents m sp ps xs ->
  Pointers.find_pair m (Some sp) k
  = Ok (match Bounded.find_pair (Some xs) k with
        | Some (i, _) => nth_error ps i
        | None => None
        end) /\
  (forall (i : nat) (x : Bounded.Pair),
      Bounded.find_pair (Some xs) k = Some (i, x) ->
      exists p : nat, nth_error ps i = Some p /\ nth_error xs i = Some x) /\
  Pointers.settings_get_string m (Some sp) k d
  = Ok (Bounded.settings_get_string (Some xs) k d).
Proof.
  intros Hrep. split; [exact (PointerFacts.find_pair_represents m sp ps xs k Hrep)|].
  split.
  - intros i x Hfind.
    destruct (PointerSteps.found_pair m sp ps xs k i x Hrep Hfind)
      as (ps1 & ps2 & p & xs1 & xs2 & -> & -> & H1 & H2 & Hp).
    exists p. split; [exact Hp|].
    rewrite <- H2. rewrite nth_error_app2 by lia. now rewrite Nat.sub_diag.
  - exact (PointerSteps.get_string_refines m sp ps xs k d Hrep).
Qed.

Lemma pointers_find_and_get_witness :
  Pointers.settings_get_string
    [Some (Pointers.SettingsB {| Pointers.first := Some 2%nat; Pointers.last := Some 1%nat |});
     Some (Pointers.PairB {| Pointers.pair := {| Bounded.key := str "b";
                                                Bounded.value := str "2" |};
                             Pointers.next := None; Pointers.prev := Some 2%nat |});
     Some (Pointers.PairB {| Pointers.pair := {| Bounded.key := str "a";
                                                Bounded.value := str "1" |};
                             Pointers.next := Some 1%nat; Pointers.prev := None |})]
    (Some 0%nat) (Some (str "b")) None
  = Ok (Bounded.settings_get_string
          (Some [{| Bounded.key := str "a"; Bounded.value := str "1" |};
                 {| Bounded.key := str "b"; Bounded.value := str "2" |}])
          (Some (str "b")) None).
Proof.
  refine (proj2 (proj2 (pointers_find_and_get _ 0%nat [2%nat; 1%nat] _ _ None _))).
  split; [|split].
  - repeat constructor; simpl; intuition discriminate.
  - reflexivity.
  - simpl. auto.
Defined.

(** X23: every sequence of calls of [settings_set_string] and
    [settings_remove] of settings.c, taken pointer by pointer on a store
    [settings_create] returned, returns, whatever the allocator does; the
    calls return what the functions on lists return, the blocks of the
    pairs stay a well linked list holding the pairs those functions leave,
    in their order, and [settings_get_string] returns what the function
    on lists returns. *)
Theorem pointers_refine_lists
    (calls : list Call) (m : list (option Pointers.Block)) (h0 h : Heap) :
  exists (m' : list (option Pointers.Block)) (ps : list nat) (xs : list Bounded.Pair),
    Pointers.settings_create m (true :: h0)
    = (Some (length m),
       m ++ [Some (Pointers.SettingsB {| Pointers.first := None; Pointers.last := None |})],
       h0) /\
    run_pointers calls
      (m ++ [Some (Pointers.SettingsB {| Pointers.first := None; Pointers.last := None |})])
      (Some (length m)) h
    = Ok (fst (fst (run_list calls (Some []) h)), m', snd (run_list calls (Some []) h)) /\
    snd (fst (run_list calls (Some []) h)) = Some xs /\
    Pointers.represents m' (length m) ps xs /\
    forall k d : option cstring,
      Pointers.settings_get_string m' (Some (length m)) k d
      = Ok (Bounded.settings_get_string (Some xs) k d).
Proof.
  destruct (PointerRuns.create_represents m (true :: h0) eq_refl) as [Hcreate Hrep].
  destruct (PointerRuns.run_refines calls _ _ _ _ h Hrep)
    as (m' & ps & xs & Hrun & Hxs & Hrep').
  exists m', ps, xs. repeat split; auto; try apply Hrep'.
  intros k d. now apply (PointerSteps.get_string_refines m' (length m) ps xs).
Qed.

(** X24: in settings.c taken pointer by pointer, on a well linked list,
    [settings_remove] of a key that is found frees the block of its pair
    and no other, leaves the other pairs linked in their order (the pair
    may be the only one, the first, the last or in the middle), and
    leaves every block outside the list as it was; a key that is not
    found changes nothing. *)
Theorem pointers_remove_unlinks
    (m : list (option Pointers.Block)) (sp : nat) (ps : list nat)
    (xs : list Bounded.Pair) (k : option cstring) :
  Pointers.represents m sp ps xs ->
  exists (m' : list (option Pointers.Block)) (ps' : list nat) (xs' : list Bounded.Pair),
    Pointers.settings_remove m (Some sp) k
    = Ok (fst (Bounded.settings_remove (Some xs) k), m') /\
    snd (Bounded.settings_remove (Some xs) k) = Some xs' /\
    Pointers.represents m' sp ps' xs' /\
    (forall p : nat, In p ps -> ~ In p ps' -> nth_error m' p = Some None) /\
    (forall q : nat, q <> sp -> ~ In q ps -> nth_error m' q = nth_error m q) /\
    (Bounded.find_pair (Some xs) k = None -> m' = m) /\
    (forall (i : nat) (x : Bounded.Pair),
        Bounded.find_pair (Some xs) k = Some (i, x) ->
        ps' = firstn i ps ++ skipn (S i) ps).
Proof.
  intros Hrep. unfold Pointers.settings_remove, Bounded.settings_remove.
  rewrite (PointerFacts.find_pair_represents m sp ps xs k Hrep).
  destruct (Bounded.find_pair (Some xs) k) as [[i x]|] eqn:Hfind.
  - destruct (PointerSteps.found_pair m sp ps xs k i x Hrep Hfind)
      as (ps1 & ps2 & p & xs1 & xs2 & -> & -> & H1 & H2 & Hp).
    rewrite Hp. cbn [bind].
    destruct (PointerSteps.unlink_represents m sp ps1 ps2 p xs1 xs2 x)
      as (m' & Hun & Hrep' & Hfreed & Hframe); [lia|exact Hrep|].
    rewrite Hun. cbn [bind fst snd].
    exists m', (ps1 ++ ps2), (xs1 ++ xs2).
    split; [reflexivity|]. split; [rewrite <- H2; now rewrite firstn_exact, skipn_past|].
    split; [exact Hrep'|]. split; [|split; [exact Hframe|split; [discriminate|]]].
    + intros q Hq Hq'. apply in_app_or in Hq. destruct Hq as [Hq|[<-|Hq]].
      * exfalso. apply Hq'. apply in_or_app. now left.
      * exact Hfreed.
      * exfalso. apply Hq'. apply in_or_app. now right.
    + intros i' x' E. injection E as <- <-.
      rewrite <- H1. now rewrite firstn_exact, skipn_past.
  - cbn [bind fst snd]. exists m, ps, xs.
    split; [reflexivity|]. split; [reflexivity|]. split; [exact Hrep|].
    split; [intros p Hp Hp'; contradiction|]. split; [reflexivity|].
    split; [reflexivity|discriminate].
Qed.

Lemma pointers_remove_unlinks_witness :
  exists (m' : list (option Pointers.Block)) (ps' : list nat) (xs' : list Bounded.Pair),
    Pointers.settings_remove
      [Some (Pointers.SettingsB {| Pointers.first := Some 2%nat;
                                   Pointers.last := Some 1%nat |});
       Some (Pointers.PairB {| Pointers.pair := {| Bounded.key := str "b";
                                                  Bounded.value := str "2" |};
                               Pointers.next := None; Pointers.prev := Some 2%nat |});
       Some (Pointers.PairB {| Pointers.pair := {| Bounded.key := str "a";
                                                  Bounded.value := str "1" |};
                               Pointers.next := Some 1%nat; Pointers.prev := None |})]
      (Some 0%nat) (Some (str "a"))
    = Ok (1, m') /\
    Some [{| Bounded.key := str "b"; Bounded.value := str "2" |}] = Some xs' /\
    Pointers.represents m' 0%nat ps' xs'.
Proof.
  destruct (pointers_remove_unlinks
              [Some (Pointers.SettingsB {| Pointers.first := Some 2%nat;
                                           Pointers.last := Some 1%nat |});
               Some (Pointers.PairB {| Pointers.pair := {| Bounded.key := str "b";
                                                          Bounded.value := str "2" |};
                                       Pointers.next := None;
                                       Pointers.prev := Some 2%nat |});
               Some (Pointers.PairB {| Pointers.pair := {| Bounded.key := str "a";
                                                          Bounded.value := str "1" |};
                                       Pointers.next := Some 1%nat;
                                       Pointers.prev := None |})]
              0%nat [2%nat; 1%nat]
              [{| Bounded.key := str "a"; Bounded.value := str "1" |};
               {| Bounded.key := str "b"; Bounded.value := str "2" |}]
              (Some (str "a")))
    as (m' & ps' & xs' & Hrem & Hxs & Hrep & _).
  - split; [|split].
    + repeat constructor; simpl; intuition discriminate.
    + reflexivity.
    + simpl. auto.
  - now exists m', ps', xs'.
Defined.

(** X25: in settings.c taken pointer by pointer, on a well linked list,
    [settings_free] returns and frees the block of every pair; it leaves
    every other block as it was: the settings block itself is not freed,
    and its [first] and [last] still hold the addresses of the freed
    pairs.  With a null pointer it does nothing. *)
Theorem pointers_settings_free
    (m : list (option Pointers.Block)) (sp : nat) (ps : list nat)
    (xs : list Bounded.Pair) :
  Pointers.represents m sp ps xs ->
  (exists m' : list (option Pointers.Block),
      Pointers.settings_free m (Some sp) = Ok m' /\
      (forall p : nat, In p ps -> nth_error m' p = Some None) /\
      (forall q : nat, ~ In q ps -> nth_error m' q = nth_error m q) /\
      nth_error m' sp
      = Some (Some (Pointers.SettingsB
                      {| Pointers.first := Pointers.first_or ps None;
                         Pointers.last := Pointers.last_or ps None |}))) /\
  Pointers.settings_free m None = Ok m.
Proof.
  intros (Hnd & Hs & Hc). split; [|reflexivity].
  unfold Pointers.settings_free.
  rewrite (PointerFacts.deref_settings_eq m sp _ Hs). cbn [bind Pointers.first].
  destruct (PointerSteps.free_loop_chain ps m None xs (S (length m)) Hnd Hc)
    as (m' & Hrun & Hfreed & Hframe).
  { pose proof (PointerFacts.chain_short m ps None None xs Hnd Hc). lia. }
  exists m'. split; [exact Hrun|]. split; [exact Hfreed|]. split; [exact Hframe|].
  rewrite Hframe; [exact Hs|].
  now apply (PointerFacts.settings_apart m sp _ ps None None xs Hs).
Qed.

Lemma pointers_settings_free_witness :
  exists m' : list (option Pointers.Block),
    Pointers.settings_free
      [Some (Pointers.SettingsB {| Pointers.first := Some 2%nat;
                                   Pointers.last := Some 1%nat |});
       Some (Pointers.PairB {| Pointers.pair := {| Bounded.key := str "b";
                                                  Bounded.value := str "2" |};
                               Pointers.next := None; Pointers.prev := Some 2%nat |});
       Some (Pointers.PairB {| Pointers.pair := {| Bounded.key := str "a";
                                                  Bounded.value := str "1" |};
                               Pointers.next := Some 1%nat; Pointers.prev := None |})]
      (Some 0%nat)
    = Ok m' /\
    (forall p : nat, In p [2%nat; 1%nat] -> nth_error m' p = Some None) /\
    nth_error m' 0%nat
    = Some (Some (Pointers.SettingsB {| Pointers.first := Some 2%nat;
                                        Pointers.last := Some 1%nat |})).
Proof.
  destruct (proj1 (pointers_settings_free
              [Some (Pointers.SettingsB {| Pointers.first := Some 2%nat;
                                           Pointers.last := Some 1%nat |});
               Some (Pointers.PairB {| Pointers.pair := {| Bounded.key := str "b";
                                                          Bounded.value := str "2" |};
                                       Pointers.next := None;
                                       Pointers.prev := Some 2%nat |});
               Some (Pointers.PairB {| Pointers.pair := {| Bounded.key := str "a";
                                                          Bounded.value := str "1" |};
                                       Pointers.next := Some 1%nat;
                                       Pointers.prev := None |})]
              0%nat [2%nat; 1%nat]
              [{| Bounded.key := str "a"; Bounded.value := str "1" |};
               {| Bounded.key := str "b"; Bounded.value := str "2" |}]
              ltac:(split; [repeat constructor; simpl; intuition discriminate
                           |split; [reflexivity|simpl; auto]])))
    as (m' & Hfree & Hfreed & _ & Hs).
  now exists m'.
Defined.

(** * The claims of the specification *)

(** C1 (the code departs from it): [settings_load] ends the key one
    character before the '=' and the value one character before its end.
    The line "ab=c" gives the key "a", not "ab"; the last line "k = v" of a
    file that does not end in a newline gives the value "", not "v"; on
    the line "a=b" the key array holds the empty string and [trim] is
    undefined. *)
Theorem load_drops_character_before_equals :
  Bounded.settings_load (Some []) (Some (str "cfg"))
    (single_file (str "cfg") (str "ab=c" ++ [newline])) []
  = Ok (1, Some [{| Bounded.key := str "a"; Bounded.value := str "c" |}], []) /\
  Dynamic.settings_load (Some []) (Some (str "cfg"))
    (single_file (str "cfg") (str "ab=c" ++ [newline])) []
  = Ok (1, Some [Dynamic.pair_of (str "a") (str "c")], []) /\
  Bounded.settings_load (Some []) (Some (str "cfg"))
    (single_file (str "cfg") (str "k = v")) []
  = Ok (1, Some [{| Bounded.key := str "k"; Bounded.value := [] |}], []) /\
  Dynamic.settings_load (Some []) (Some (str "cfg"))
    (single_file (str "cfg") (str "k = v")) []
  = Ok (1, Some [Dynamic.pair_of (str "k") []], []) /\
  Bounded.settings_load (Some []) (Some (str "cfg"))
    (single_file (str "cfg") (str "a=b" ++ [newline])) []
  = Undefined /\
  Dynamic.settings_load (Some []) (Some (str "cfg"))
    (single_file (str "cfg") (str "a=b" ++ [newline])) []
  = Undefined.
Proof. repeat split; vm_compute; reflexivity. Qed.

(** C2 (the code departs from it): in the dynamic variant, when
    [memory_realloc] fails while the value of an existing key is replaced,
    [settings_set_string] returns 0 but the pair has lost its key (and its
    value, when the second call fails too): the key is no longer found. *)
Theorem realloc_failure_loses_pair :
  Dynamic.settings_set_string (Some []) (Some (str "foo")) (Some (str "abc")) []
  = Ok (1, Some [Dynamic.pair_of (str "foo") (str "abc")], []) /\
  Dynamic.settings_set_string (Some [Dynamic.pair_of (str "foo") (str "abc")])
    (Some (str "foo")) (Some (str "xyz")) [false; false]
  = Ok (0, Some [{| Dynamic.key := None; Dynamic.value := None |}], []) /\
  Dynamic.settings_get_string (Some [{| Dynamic.key := None; Dynamic.value := None |}])
    (Some (str "foo")) (Some (str "D"))
  = Ok (Some (str "D")) /\
  Dynamic.settings_set_string (Some [Dynamic.pair_of (str "foo") (str "abc")])
    (Some (str "foo")) (Some (str "xyz")) [true; false]
  = Ok (0, Some [{| Dynamic.key := Some (cells (str "foo") ++ [Some NUL]);
                    Dynamic.value := None |}], []) /\
  Dynamic.settings_get_string
    (Some [{| Dynamic.key := Some (cells (str "foo") ++ [Some NUL]);
              Dynamic.value := None |}])
    (Some (str "foo")) (Some (str "D"))
  = Ok None.
Proof. repeat split; vm_compute; reflexivity. Qed.

(** C3 (the code departs from it): in the dynamic variant
    [settings_set_int] gives [snprintf] a size of [INT_DIGITS], eleven,
    which leaves room for ten characters: the eleven characters of
    -1000000000 lose the last one, and [settings_get_int] returns
    -100000000. *)
Theorem dynamic_set_int_truncates :
  Dynamic.INT_DIGITS = 11%nat /\
  format_d (-1000000000) = str "-1000000000" /\
  Dynamic.settings_set_int (Some []) (Some (str "k")) (-1000000000) []
  = Ok (1, Some [Dynamic.pair_of (str "k") (str "-100000000")], []) /\
  Dynamic.settings_get_int (Some [Dynamic.pair_of (str "k") (str "-100000000")])
    (Some (str "k")) 9999
  = Ok (-100000000).
Proof. repeat split; vm_compute; reflexivity. Qed.

(** C4, as stated, fails: a value that starts with a space comes back
    without it. *)
Lemma round_trip_as_stated_fails : ~ round_trip_as_stated.
Proof.
  intros H.
  destruct (H [{| Bounded.key := str "a"; Bounded.value := str " b" |}]
              (str "cfg") (single_file (str "other") []) [])
    as (s' & h' & Hload & Hget).
  - split; [reflexivity|]. repeat constructor. intros [].
  - intros p [<-|[]]. repeat split; reflexivity.
  - reflexivity.
  - reflexivity.
  - vm_compute in Hload. injection Hload as <- <-.
    specialize (Hget (str "a") None). vm_compute in Hget. discriminate.
Qed.

(** C4 (amended): for every store whose keys are not empty and whose keys
    and values are C strings that neither start nor end with white space
    and hold no newline (the keys no '=' either), when no allocation
    fails, [settings_save] to a path that can be written and then
    [settings_load] of that path into an empty store both return 1, and
    the loaded store holds the same pairs in the same order. *)
Theorem save_then_load_round_trip
    (s : Bounded.Settings) (path : cstring) (fs : FileSystem) (h : Heap) :
  Bounded.valid_store s ->
  forallb Bounded.portable s = true ->
  writable fs path = true ->
  generous h = true ->
  exists (fs' : FileSystem) (h' : Heap),
    Bounded.settings_save (Some s) (Some path) fs = (1, Some s, fs') /\
    Bounded.settings_load (Some []) (Some path) fs' h = Ok (1, Some s, h').
Proof.
  intros Hvalid Hport Hw Hgen.
  destruct (BoundedLoad.load_loop_lines s [] h
              (S (length (concat (map Bounded.line_of s)))) Hport Hvalid Hgen)
    as [h' Hrun]; [lia|].
  exists (fclose_wt fs path (concat (map Bounded.line_of s))), h'. split.
  - now apply BoundedFacts.save_writes_lines.
  - unfold Bounded.settings_load, fopen_rt, fclose_wt. cbn [contents].
    rewrite cstring_eqb_refl. rewrite Hrun. reflexivity.
Qed.

Lemma save_then_load_round_trip_witness :
  exists (fs' : FileSystem) (h' : Heap),
    Bounded.settings_save
      (Some [{| Bounded.key := str "foo"; Bounded.value := str "abc def ghi" |};
             {| Bounded.key := str "bar"; Bounded.value := str "54321" |};
             {| Bounded.key := str "baz"; Bounded.value := [] |}])
      (Some (str "cfg")) (single_file (str "other") [])
    = (1,
       Some [{| Bounded.key := str "foo"; Bounded.value := str "abc def ghi" |};
             {| Bounded.key := str "bar"; Bounded.value := str "54321" |};
             {| Bounded.key := str "baz"; Bounded.value := [] |}],
       fs') /\
    Bounded.settings_load (Some []) (Some (str "cfg")) fs' [true; true; true]
    = Ok (1,
          Some [{| Bounded.key := str "foo"; Bounded.value := str "abc def ghi" |};
                {| Bounded.key := str "bar"; Bounded.value := str "54321" |};
                {| Bounded.key := str "baz"; Bounded.value := [] |}],
          h').
Proof.
  apply save_then_load_round_trip.
  - split; [reflexivity|].
    repeat (constructor; [simpl; intuition discriminate|]). constructor.
  - reflexivity.
  - reflexivity.
  - reflexivity.
Defined.

(** C5 (the code departs from it): in the dynamic variant, after a
    successful call for a key and a second call for it during which
    [memory_realloc] fails, the log holds the first call only, but the key
    is no longer found: the lookup returns the default. *)
Theorem dynamic_lookup_after_failed_replace :
  Dynamic.set_all
    [(Some (str "k"), Some (str "v")); (Some (str "k"), Some (str "w"))]
    (Some []) [true; true; true; false; false] []
  = Ok (Some [{| Dynamic.key := None; Dynamic.value := None |}], [],
        [(str "k", str "v")]) /\
  last_set [(str "k", str "v")] (str "k") = Some (str "v") /\
  Dynamic.settings_get_string (Some [{| Dynamic.key := None; Dynamic.value := None |}])
    (Some (str "k")) (Some (str "D"))
  = Ok (Some (str "D")).
Proof. repeat split; vm_compute; reflexivity. Qed.

(** C6: a successful [settings_set_string] on a key the store holds
    replaces the value of that pair where it stands (every other pair and
    the order of the keys are unchanged), and on a key the store does not
    hold appends the new pair at the end; [settings_save] writes the lines
    of the pairs in the order of the list.  Inserting A, B, C and then
    replacing the value of B leaves the order A, B, C, in the store and in
    the saved file. *)
Theorem set_string_keeps_order :
  (forall (s s' : Bounded.Settings) (k v : cstring) (h h' : Heap),
      Bounded.valid_store s ->
      Bounded.settings_set_string (Some s) (Some k) (Some v) h = (1, Some s', h') ->
      (In k (Bounded.keys s) ->
       Bounded.keys s' = Bounded.keys s /\
       exists (pre post : Bounded.Settings) (p : Bounded.Pair),
         s = pre ++ p :: post /\ Bounded.key p = k /\
         s' = pre ++ {| Bounded.key := k; Bounded.value := v |} :: post) /\
      (~ In k (Bounded.keys s) ->
       s' = s ++ [{| Bounded.key := k; Bounded.value := v |}]) /\
      (forall (path : cstring) (fs : FileSystem),
          writable fs path = true ->
          Bounded.settings_save (Some s') (Some path) fs
          = (1, Some s', fclose_wt fs path (concat (map Bounded.line_of s'))))) /\
  (let calls := [(Some (str "A"), Some (str "1")); (Some (str "B"), Some (str "2"));
                 (Some (str "C"), Some (str "3")); (Some (str "B"), Some (str "9"))] in
   let s := fst (fst (Bounded.set_all calls (Some []) [] [])) in
   option_map Bounded.keys s = Some [str "A"; str "B"; str "C"] /\
   option_map
     (fun f => contents f (str "cfg"))
     (Some (snd (Bounded.settings_save s (Some (str "cfg")) (single_file [] []))))
   = Some (Some (str "A = 1" ++ newline :: str "B = 9" ++ newline :: str "C = 3" ++ [newline]))).
Proof.
  split.
  - intros s s' k v h h' Hvalid Hset.
    destruct (BoundedFacts.set_string_success s s' k v h h' Hvalid Hset)
      as (_ & _ & Hin & Hnew).
    repeat split.
    + destruct (Hin H) as (pre & post & p & -> & Hk & ->).
      rewrite !BoundedFacts.keys_app. simpl. now rewrite Hk.
    + exact (Hin H).
    + exact Hnew.
    + intros path fs Hw. now apply BoundedFacts.save_writes_lines.
  - split; reflexivity.
Qed.

Lemma set_string_keeps_order_witness :
  Bounded.keys [{| Bounded.key := str "A"; Bounded.value := str "1" |};
                {| Bounded.key := str "B"; Bounded.value := str "9" |};
                {| Bounded.key := str "C"; Bounded.value := str "3" |}]
  = Bounded.keys [{| Bounded.key := str "A"; Bounded.value := str "1" |};
                  {| Bounded.key := str "B"; Bounded.value := str "2" |};
                  {| Bounded.key := str "C"; Bounded.value := str "3" |}].
Proof.
  refine (proj1 (proj1 (proj1 set_string_keeps_order
            [{| Bounded.key := str "A"; Bounded.value := str "1" |};
             {| Bounded.key := str "B"; Bounded.value := str "2" |};
             {| Bounded.key := str "C"; Bounded.value := str "3" |}]
            _ (str "B") (str "9") [] [] _ _) _)).
  - split; [reflexivity|].
    repeat (constructor; [simpl; intuition discriminate|]). constructor.
  - reflexivity.
  - simpl. auto.
Defined.

(** C7 (the code departs from it): on the empty string [strlen(str) - 1]
    is [SIZE_MAX] and [trim] reads [str[SIZE_MAX]], outside the array,
    where the specification asks for the empty string. *)
Theorem trim_empty_string_undefined :
  trim (Some [Some NUL]) = Undefined /\
  trim (Some (Some NUL :: uninit 1023)) = Undefined /\
  trim_spec [] = [].
Proof. repeat split; vm_compute; reflexivity. Qed.

(** C8: [settings_set_string] with a key of [CONFIG_KEY_LENGTH]
    characters or more, or a value of [CONFIG_VALUE_LENGTH] characters or
    more, returns 0 and leaves the store and the allocator as they were;
    with a shorter key and a shorter value the call goes on: it returns 1,
    replacing or appending, unless a new pair is needed and [malloc]
    fails. *)
Theorem set_string_length_check (s : Bounded.Settings) (k v : cstring) (h : Heap) :
  ((Bounded.CONFIG_KEY_LENGTH <= length k)%nat \/
   (Bounded.CONFIG_VALUE_LENGTH <= length v)%nat ->
   Bounded.settings_set_string (Some s) (Some k) (Some v) h = (0, Some s, h)) /\
  ((length k < Bounded.CONFIG_KEY_LENGTH)%nat /\
   (length v < Bounded.CONFIG_VALUE_LENGTH)%nat ->
   Bounded.settings_set_string (Some s) (Some k) (Some v) h
   = match Bounded.find_pair (Some s) (Some k) with
     | Some (i, _) =>
         (1, Some (update s i {| Bounded.key := k; Bounded.value := v |}), h)
     | None =>
         if fst (memory_malloc h)
         then (1, Some (s ++ [{| Bounded.key := k; Bounded.value := v |}]),
               snd (memory_malloc h))
         else (0, Some s, snd (memory_malloc h))
     end).
Proof.
  split.
  - intros Hlong. unfold Bounded.settings_set_string.
    replace (Bounded.too_long k v) with true; [reflexivity|].
    symmetry. unfold Bounded.too_long. apply orb_true_iff.
    destruct Hlong as [H|H]; [left|right]; now apply Nat.leb_le.
  - intros Hshort. apply BoundedFacts.set_string_checked.
    now apply BoundedFacts.too_long_false.
Qed.

Lemma set_string_length_check_witness :
  Bounded.settings_set_string
    (Some [{| Bounded.key := str "foo"; Bounded.value := str "abc" |}])
    (Some (repeat "X"%char 128)) (Some (str "abc")) [true]
  = (0, Some [{| Bounded.key := str "foo"; Bounded.value := str "abc" |}], [true])
  /\
  Bounded.settings_set_string
    (Some [{| Bounded.key := str "foo"; Bounded.value := str "abc" |}])
    (Some (repeat "X"%char 127)) (Some (str "abc")) [true]
  = (1, Some [{| Bounded.key := str "foo"; Bounded.value := str "abc" |};
              {| Bounded.key := repeat "X"%char 127; Bounded.value := str "abc" |}], []).
Proof.
  split.
  - apply (proj1 (set_string_length_check _ (repeat "X"%char 128) (str "abc") [true])).
    left. rewrite repeat_length. apply Nat.le_refl.
  - rewrite (proj2 (set_string_length_check _ (repeat "X"%char 127) (str "abc") [true])).
    + reflexivity.
    + split; [rewrite repeat_length|]; unfold Bounded.CONFIG_KEY_LENGTH,
        Bounded.CONFIG_VALUE_LENGTH; simpl; lia.
Defined.

(** C9: with a null store handle, [settings_get_string],
    [settings_get_int] and [settings_get_float] return the default they
    were given, whatever the key (null or not) and the default, in both
    variants. *)
Theorem getters_null_store (F : Type) (atof : cstring -> F)
    (k ds : option cstring) (di : Z) (df : F) :
  Bounded.settings_get_string None k ds = ds /\
  Bounded.settings_get_int None k di = di /\
  Bounded.settings_get_float atof None k df = df /\
  Dynamic.settings_get_string None k ds = Ok ds /\
  Dynamic.settings_get_int None k di = Ok di /\
  Dynamic.settings_get_float atof None k df = Ok df.
Proof. repeat split; reflexivity. Qed.

(** C10: [settings_save] leaves the store as it was: in the bounded
    variant for every store handle, path and file system; in the dynamic
    variant whenever the call returns, and it returns for every store
    whose pairs hold terminated strings.  When the file cannot be opened
    the call returns 0 and neither the store nor the file system
    changes. *)
Theorem save_leaves_store (path : option cstring) (fs : FileSystem) :
  (forall settings : option Bounded.Settings,
      snd (fst (Bounded.settings_save settings path fs)) = settings) /\
  (forall (settings : option Bounded.Settings) (p : cstring),
      path = Some p -> writable fs p = false ->
      Bounded.settings_save settings path fs = (0, settings, fs)) /\
  (forall (settings settings' : option Dynamic.Settings) (r : Z) (fs' : FileSystem),
      Dynamic.settings_save settings path fs = Ok (r, settings', fs') ->
      settings' = settings) /\
  (forall s : Dynamic.Settings,
      forallb Dynamic.holds_strings s = true ->
      exists (r : Z) (fs' : FileSystem),
        Dynamic.settings_save (Some s) path fs = Ok (r, Some s, fs')) /\
  (forall (settings : option Dynamic.Settings) (p : cstring),
      path = Some p -> writable fs p = false ->
      Dynamic.settings_save settings path fs = Ok (0, settings, fs)).
Proof.
  repeat split.
  - intros settings. unfold Bounded.settings_save.
    destruct settings as [s|], path as [p|]; try reflexivity.
    destruct (writable fs p); reflexivity.
  - intros settings p -> Hw. unfold Bounded.settings_save. rewrite Hw.
    destruct settings; reflexivity.
  - intros settings settings' r fs'. unfold Dynamic.settings_save.
    destruct settings as [s|], path as [p|]; try (intros H; now injection H).
    destruct (writable fs p); [|intros H; now injection H].
    destruct (Dynamic.save_loop s []); cbn [bind]; try discriminate.
    intros H. now injection H.
  - intros s Hs. unfold Dynamic.settings_save.
    destruct path as [p|]; [|now exists 0, fs].
    destruct (writable fs p); [|now exists 0, fs].
    destruct (dynamic_save_loop_total s [] Hs) as [data ->]. cbn [bind].
    now exists 1, (fclose_wt fs p data).
  - intros settings p -> Hw. unfold Dynamic.settings_save. rewrite Hw.
    destruct settings; reflexivity.
Qed.

Lemma save_leaves_store_witness :
  exists (r : Z) (fs' : FileSystem),
    Dynamic.settings_save
      (Some [Dynamic.pair_of (str "foo") (str "abc def ghi");
             Dynamic.pair_of (str "bar") (str "54321")])
      (Some (str "cfg")) (single_file [] [])
    = Ok (r,
          Some [Dynamic.pair_of (str "foo") (str "abc def ghi");
                Dynamic.pair_of (str "bar") (str "54321")],
          fs').
Proof.
  apply (proj1 (proj2 (proj2 (proj2
           (save_leaves_store (Some (str "cfg")) (single_file [] [])))))).
  reflexivity.
Defined.
